(** * grngo: schema resolution, key-typed insertion and the value codec

    A shallow embedding of [grngo.go].  The Go code talks to the Groonga
    engine through cgo; every C call is an event answered by a [Native]
    instance and recorded in a trace, so that statements of the form
    "no native call is issued" or "exactly one more call" can be read off
    the trace.  Go pointers ([*Table], [*Column]) are indices into heaps
    held in the [World], which makes reference equality observable. *)

From Stdlib Require Import ZArith String Ascii List Lia.
From Stdlib.Strings Require Import Byte.
From Stdlib Require Import DecimalString DecimalPos DecimalZ.
From stdpp Require Import base option list gmap strings fin_maps.

Local Open Scope string_scope.
Local Open Scope Z_scope.

(** ** Data types *)

(** [type GeoPoint struct{ Latitude, Longitude int32 }] *)
Record GeoPoint := mkGeoPoint { Latitude : Z; Longitude : Z }.

(** A [float64] is carried as its IEEE-754 bit pattern; this layer never
    computes with it. *)
Record float64 := mkFloat64 { float_bits : Z }.

(** [type DataType int], with the named constants of the source.  The
    numeric values come from Groonga's headers; any other integer is
    [DataType_other]. *)
Inductive DataType :=
| Void | Bool | Int8 | Int16 | Int32 | Int64
| UInt8 | UInt16 | UInt32 | UInt64
| Float | Time | ShortText | Text | LongText
| TokyoGeoPoint | WGS84GeoPoint
| DataType_other (n : Z).

#[global] Instance DataType_eq_dec : EqDecision DataType.
Proof. solve_decision. Defined.

#[global] Instance GeoPoint_eq_dec : EqDecision GeoPoint.
Proof. solve_decision. Defined.

#[global] Instance float64_eq_dec : EqDecision float64.
Proof. solve_decision. Defined.

(** [type ColumnType int] and [type CompressionType int]. *)
Inductive ColumnType :=
| ScalarColumn | VectorColumn | IndexColumn | ColumnType_other (n : Z).

Inductive CompressionType :=
| NoCompression | ZlibCompression | LzoCompression
| CompressionType_other (n : Z).

Record ColumnOptions := mkColumnOptions {
  opt_ColumnType : ColumnType;
  opt_CompressionType : CompressionType;
  WithSection : bool;
  WithWeight : bool;
  WithPosition : bool;
  Source : string
}.

(** [NewColumnOptions()]: the zero value. *)
Definition NewColumnOptions : ColumnOptions :=
  mkColumnOptions ScalarColumn NoCompression false false false EmptyString.

(** ** Fixed-width integers

    [int64] keys and values are converted with C casts
    ([C.int8_t(key)], [C.uint16_t(key)], ...), which wrap. *)
Inductive IntWidth := I8 | I16 | I32 | I64 | U8 | U16 | U32 | U64.

#[global] Instance IntWidth_eq_dec : EqDecision IntWidth.
Proof. solve_decision. Defined.

Definition wrap_unsigned (bits : Z) (z : Z) : Z := z mod 2 ^ bits.

Definition wrap_signed (bits : Z) (z : Z) : Z :=
  (z + 2 ^ (bits - 1)) mod 2 ^ bits - 2 ^ (bits - 1).

Definition int_cast (w : IntWidth) (z : Z) : Z :=
  match w with
  | I8 => wrap_signed 8 z | I16 => wrap_signed 16 z
  | I32 => wrap_signed 32 z | I64 => wrap_signed 64 z
  | U8 => wrap_unsigned 8 z | U16 => wrap_unsigned 16 z
  | U32 => wrap_unsigned 32 z | U64 => wrap_unsigned 64 z
  end.

(** The integer width a [DataType] names, as in the [switch] of
    [insertInt], [setInt] and [setIntVector]. *)
Definition int_width (t : DataType) : option IntWidth :=
  match t with
  | Int8 => Some I8 | Int16 => Some I16 | Int32 => Some I32
  | Int64 => Some I64 | UInt8 => Some U8 | UInt16 => Some U16
  | UInt32 => Some U32 | UInt64 => Some U64
  | _ => None
  end.

(** ** The native boundary *)

(** A [*C.grn_obj]; [nil] is [None] wherever a pointer may be null. *)
Definition grn_obj := N.

(** [C.grngo_type_info]. *)
Record grngo_type_info := mkTypeInfo {
  data_type : DataType;
  dimension : Z;
  ref_table : option grn_obj
}.

(** [C.grngo_row_info]. *)
Record grngo_row_info := mkRowInfo { row_id : Z; inserted : bool }.

(** [C.grngo_text]: a pointer and a byte count.  The pointer is
    represented by the buffer it points to. *)
Record grngo_text := mkText { text_ptr : option (list byte); text_size : nat }.

(** [C.grngo_vector]: a pointer and an element count. *)
Record grngo_vector (A : Type) := mkVector {
  vec_ptr : option (list A);
  vec_size : nat
}.
Arguments mkVector {A} _ _.
Arguments vec_ptr {A} _.
Arguments vec_size {A} _.

(** The zero value of a [C.grngo_text] / [C.grngo_vector]: a destination
    of capacity zero. *)
Definition text_zero : grngo_text := mkText None 0.
Definition vector_zero {A} : grngo_vector A := mkVector None 0.

(** Arguments of the [grngo_table_insert_*] family. *)
Inductive insert_key :=
| insert_void
| insert_bool (key : bool)
| insert_int (w : IntWidth) (key : Z)
| insert_float (key : float64)
| insert_geo_point (key : GeoPoint)
| insert_text (key : grngo_text).

(** Arguments of the [grngo_column_set_*] family. *)
Inductive set_value :=
| set_bool (v : bool)
| set_int (w : IntWidth) (v : Z)
| set_float (v : float64)
| set_geo_point (type : DataType) (v : GeoPoint)
| set_text (v : grngo_text)
| set_bool_vector (v : grngo_vector bool)
| set_int_vector (w : IntWidth) (v : grngo_vector Z)
| set_float_vector (v : grngo_vector float64)
| set_geo_point_vector (type : DataType) (v : grngo_vector GeoPoint)
| set_text_vector (v : grngo_vector grngo_text).

(** Calls that read the engine: schema inspection and column getters.
    The index is the type of the answer; a [bool] component is the
    [grn_bool] the C function returns, compared with [GRN_TRUE]. *)
Inductive NativeQuery : Type -> Type :=
| grngo_find_table (name : string) : NativeQuery (option grn_obj)
| grngo_table_get_key_info (table : grn_obj)
  : NativeQuery (bool * grngo_type_info)
| grngo_table_get_value_info (table : grn_obj)
  : NativeQuery (bool * grngo_type_info)
| grngo_table_get_name (table : grn_obj) : NativeQuery (option string)
| grn_obj_column (table : grn_obj) (name : string)
  : NativeQuery (option grn_obj)
| grngo_column_get_value_info (column : grn_obj)
  : NativeQuery (bool * grngo_type_info)
| grngo_column_get_bool (column : grn_obj) (id : Z) : NativeQuery (bool * bool)
| grngo_column_get_int (column : grn_obj) (type : DataType) (id : Z)
  : NativeQuery (bool * Z)
| grngo_column_get_float (column : grn_obj) (id : Z)
  : NativeQuery (bool * float64)
| grngo_column_get_geo_point (column : grn_obj) (id : Z)
  : NativeQuery (bool * GeoPoint)
| grngo_column_get_text (column : grn_obj) (id : Z) (dst : grngo_text)
  : NativeQuery (bool * grngo_text)
| grngo_column_get_bool_vector (column : grn_obj) (id : Z)
    (dst : grngo_vector bool) : NativeQuery (bool * grngo_vector bool)
| grngo_column_get_int_vector (column : grn_obj) (type : DataType) (id : Z)
    (dst : grngo_vector Z) : NativeQuery (bool * grngo_vector Z)
| grngo_column_get_float_vector (column : grn_obj) (id : Z)
    (dst : grngo_vector float64) : NativeQuery (bool * grngo_vector float64)
| grngo_column_get_geo_point_vector (column : grn_obj) (id : Z)
    (dst : grngo_vector GeoPoint) : NativeQuery (bool * grngo_vector GeoPoint)
| grngo_column_get_text_vector (column : grn_obj) (id : Z)
    (dst : grngo_vector grngo_text)
  : NativeQuery (bool * grngo_vector grngo_text).

(** The reply of [grn_ctx_send] / [grn_ctx_recv] together with what the
    caller then reads from the context: [rc], [ctx.rc], [ctx.errbuf]. *)
Record ctx_reply := mkCtxReply {
  reply_rc : Z;
  reply_ctx_rc : Z;
  reply_errbuf : string;
  reply_result : list byte
}.

(** Calls that may change the engine. *)
Inductive NativeCommand : Type -> Type :=
| grn_ctx_send (command : string) : NativeCommand ctx_reply
| grn_ctx_recv : NativeCommand ctx_reply
| grngo_table_insert (table : grn_obj) (key : insert_key)
  : NativeCommand grngo_row_info
| grngo_column_set (column : grn_obj) (id : Z) (value : set_value)
  : NativeCommand bool.

(** Modelled from the spec: the native layer ([grngo.h] and the Groonga
    library), which is not part of the Go source.  Reads are functions of
    the engine state; commands thread it.  [GRN_ID_NIL] is the sentinel
    row id and [GRN_SUCCESS] the success return code. *)
Class Native := {
  Store : Type;
  GRN_ID_NIL : Z;
  GRN_SUCCESS : Z;
  nquery : forall R, NativeQuery R -> Store -> R;
  nexec : forall R, NativeCommand R -> Store -> Store * R
}.
Arguments nquery {_ R} _ _.
Arguments nexec {_ R} _ _.

(** One native call, as recorded in the trace. *)
Inductive Event :=
| EvQuery {R : Type} (q : NativeQuery R)
| EvExec {R : Type} (c : NativeCommand R).

(** ** Errors and dynamically typed values *)

(** The errors built with [fmt.Errorf], one constructor per message. *)
Inductive error :=
| InvalidCommand (name : string)        (* invalid command: name = <%s> *)
| InvalidOption (key : string)          (* invalid option: key = <%s> *)
| SendFailed (rc : Z) (err : string)    (* grn_ctx_send() failed: rc = ... *)
| SendCtxFailed (rc : Z) (err : string) (* grn_ctx_send() failed: ctx.rc = ... *)
| RecvFailed (rc : Z) (err : string)
| RecvCtxFailed (rc : Z) (err : string)
| TableNotFound (name : string)         (* table not found: name = <%s> *)
| NativeFailed (fn : string) (name : string) (* <fn>() failed[: name = <%s>] *)
| ReferenceToVoid (name : string)       (* reference to void: name = <%s> *)
| KeyTypeConflict                       (* key type conflict *)
| UnsupportedKeyType (typeName : string)
| UnsupportedValueTypeName (valueType : string)
| UndefinedColumnType (options : ColumnOptions)
| UndefinedCompressionType (options : ColumnOptions)
| ColumnCreateFailed (name : string)
| NotTableReference (name : string)     (* not table reference: column.name = <%s> *)
| VectorOfVector                        (* vector of vector is not supported *)
| ValueTypeConflict                     (* value type conflict *)
| UnsupportedValueType (typeName : string)
| UndefinedValueType (valueType : DataType).

(** How a Go call ends: with a value, with an error, or without
    returning -- by a run-time panic, or (in this model) because the
    recursion bound of [FindTable] is exhausted. *)
Inductive result (A : Type) :=
| Ok (a : A)
| Err (e : error)
| Panic
| OutOfFuel.
Arguments Ok {A} _.
Arguments Err {A} _.
Arguments Panic {A}.
Arguments OutOfFuel {A}.

(** The dynamic types an [interface{}] argument is switched on in
    [InsertRow] and [SetValue]; [VOther] is any other Go type, with the
    name [reflect.TypeOf(v).Name()] reports. *)
Inductive Value :=
| VNil
| VBool (v : bool)
| VInt (v : Z)
| VFloat (v : float64)
| VGeoPoint (v : GeoPoint)
| VBytes (v : list byte)
| VBoolVector (v : list bool)
| VIntVector (v : list Z)
| VFloatVector (v : list float64)
| VGeoPointVector (v : list GeoPoint)
| VTextVector (v : list (list byte))
| VOther (typeName : string).

(** ** Strings *)

Definition byte_of (c : ascii) : Z := Z.of_N (N_of_ascii c).

Fixpoint bytes_of (s : string) : list Z :=
  match s with
  | EmptyString => []
  | String c s' => byte_of c :: bytes_of s'
  end.

Definition RuneError : Z := 65533.

Definition continuation (lo hi b : Z) : bool := (lo <=? b) && (b <=? hi).

(** [utf8.DecodeRuneInString] on a non-empty input: the rune and its
    width in bytes. *)
Definition decode_rune (s0 : Z) (rest : list Z) : Z * nat :=
  let two (lo hi : Z) :=
    match rest with
    | s1 :: _ =>
        if continuation lo hi s1
        then (Z.lor (Z.shiftl (Z.land s0 31) 6) (Z.land s1 63), 2%nat)
        else (RuneError, 1%nat)
    | _ => (RuneError, 1%nat)
    end in
  let three (lo hi : Z) :=
    match rest with
    | s1 :: s2 :: _ =>
        if continuation lo hi s1 && continuation 128 191 s2
        then (Z.lor (Z.lor (Z.shiftl (Z.land s0 15) 12)
                           (Z.shiftl (Z.land s1 63) 6))
                    (Z.land s2 63), 3%nat)
        else (RuneError, 1%nat)
    | _ => (RuneError, 1%nat)
    end in
  let four (lo hi : Z) :=
    match rest with
    | s1 :: s2 :: s3 :: _ =>
        if continuation lo hi s1 && continuation 128 191 s2
           && continuation 128 191 s3
        then (Z.lor (Z.lor (Z.lor (Z.shiftl (Z.land s0 7) 18)
                                  (Z.shiftl (Z.land s1 63) 12))
                           (Z.shiftl (Z.land s2 63) 6))
                    (Z.land s3 63), 4%nat)
        else (RuneError, 1%nat)
    | _ => (RuneError, 1%nat)
    end in
  if s0 <? 128 then (s0, 1%nat)
  else if s0 <? 194 then (RuneError, 1%nat)
  else if s0 <? 224 then two 128 191
  else if s0 =? 224 then three 160 191
  else if s0 =? 237 then three 128 159
  else if s0 <? 240 then three 128 191
  else if s0 =? 240 then four 144 191
  else if s0 <? 244 then four 128 191
  else if s0 =? 244 then four 128 143
  else (RuneError, 1%nat).

(** The runes [for _, r := range s] yields.  [skip] counts the bytes of
    the current rune still to be passed over. *)
Fixpoint runes_from (skip : nat) (bs : list Z) : list Z :=
  match bs with
  | [] => []
  | b :: bs' =>
      match skip with
      | S k => runes_from k bs'
      | O => let '(r, width) := decode_rune b bs' in
             r :: runes_from (Nat.pred width) bs'
      end
  end.

Definition runes (s : string) : list Z := runes_from 0 (bytes_of s).

(** [strings.Replace(s, old, new, -1)] for a one-byte [old]. *)
Fixpoint replace_byte (old : ascii) (new : string) (s : string) : string :=
  match s with
  | EmptyString => EmptyString
  | String c s' =>
      if Ascii.eqb c old then new ++ replace_byte old new s'
      else String c (replace_byte old new s')
  end.

(** [strings.Join(parts, sep)]. *)
Fixpoint join (sep : string) (parts : list string) : string :=
  match parts with
  | [] => EmptyString
  | [p] => p
  | p :: ps => p ++ sep ++ join sep ps
  end.

(** [strings.IndexByte(s, c) != -1]. *)
Fixpoint contains_byte (c : ascii) (s : string) : bool :=
  match s with
  | EmptyString => false
  | String c' s' => Ascii.eqb c' c || contains_byte c s'
  end.

(** [strings.Split(s, sep)] for a one-byte [sep]: never empty. *)
Fixpoint split (sep : ascii) (s : string) : list string :=
  match s with
  | EmptyString => [EmptyString]
  | String c s' =>
      if Ascii.eqb c sep then EmptyString :: split sep s'
      else match split sep s' with
           | [] => [String c EmptyString]
           | h :: t => String c h :: t
           end
  end.

Definition backslash : ascii := ascii_of_nat 92.
Definition quote : ascii := ascii_of_nat 39.
Definition dot : ascii := ascii_of_nat 46.

(** ** The world: engine state, trace, and the Go heap *)

(** [*Table] and [*Column] are heap indices. *)
Definition tptr := nat.
Definition cptr := nat.

(** [type Table struct].  The [db] field is the one handle of the world. *)
Record Table := mkTable {
  tbl_obj : grn_obj;
  tbl_name : string;
  tbl_keyType : DataType;
  tbl_keyTable : option tptr;
  tbl_valueType : DataType;
  tbl_valueTable : option tptr;
  tbl_columns : gmap string cptr
}.

(** [type Column struct]. *)
Record Column := mkColumn {
  col_table : tptr;
  col_obj : grn_obj;
  col_name : string;
  col_valueType : DataType;
  col_isVector : bool;
  col_valueTable : option tptr
}.

Section Embedding.
Context {NL : Native}.

(** The [DB] handle ([db.tables]), the objects reachable from it, the
    engine behind [db.ctx], and the native calls issued so far (most
    recent first). *)
Record World := mkWorld {
  store : Store;
  trace : list Event;
  db_tables : gmap string tptr;
  table_heap : list Table;
  column_heap : list Column
}.

(** A Go function: it changes the world and ends in a [result].  The
    world a run leaves behind is kept also when it does not return, so
    that the native calls issued up to a panic stay visible. *)
Definition M (A : Type) : Type := World -> World * result A.

Definition ret {A} (a : A) : M A := fun w => (w, Ok a).

Definition throw {A} (e : error) : M A := fun w => (w, Err e).

Definition panic {A} : M A := fun w => (w, Panic).

Definition out_of_fuel {A} : M A := fun w => (w, OutOfFuel).

Definition bind {A B} (m : M A) (k : A -> M B) : M B :=
  fun w =>
    let '(w', r) := m w in
    match r with
    | Ok a => k a w'
    | Err e => (w', Err e)
    | Panic => (w', Panic)
    | OutOfFuel => (w', OutOfFuel)
    end.

(** Run [m] and hand its value-or-error to the caller. *)
Definition attempt {A} (m : M A) : M (result A) :=
  fun w =>
    let '(w', r) := m w in
    match r with
    | Panic => (w', Panic)
    | OutOfFuel => (w', OutOfFuel)
    | _ => (w', Ok r)
    end.

Definition query {R} (q : NativeQuery R) : M R :=
  fun w =>
    (mkWorld (store w) (EvQuery q :: trace w) (db_tables w)
             (table_heap w) (column_heap w),
     Ok (nquery q (store w))).

Definition exec {R} (c : NativeCommand R) : M R :=
  fun w =>
    let '(s, r) := nexec c (store w) in
    (mkWorld s (EvExec c :: trace w) (db_tables w)
             (table_heap w) (column_heap w),
     Ok r).

Definition get_world : M World := fun w => (w, Ok w).

(** Dereference a [*Table] / [*Column]; a dangling pointer panics. *)
Definition table_at (p : tptr) : M Table :=
  fun w => match table_heap w !! p with
           | Some t => (w, Ok t)
           | None => (w, Panic)
           end.

Definition column_at (p : cptr) : M Column :=
  fun w => match column_heap w !! p with
           | Some c => (w, Ok c)
           | None => (w, Panic)
           end.

End Embedding.

Notation "x <- m ;; k" := (bind m (fun x => k))
  (at level 100, m at next level, right associativity).

Section Code.
Context {NL : Native}.

(** [NilID = uint32(C.GRN_ID_NIL)] *)
Definition NilID : Z := GRN_ID_NIL.

(** ** DB: the command protocol *)

(** [Send()] sends a raw command. *)
Definition Send (command : string) : M unit :=
  r <- exec (grn_ctx_send command) ;;
  if negb (reply_rc r =? GRN_SUCCESS)
  then throw (SendFailed (reply_rc r) (reply_errbuf r))
  else if negb (reply_ctx_rc r =? GRN_SUCCESS)
  then throw (SendCtxFailed (reply_ctx_rc r) (reply_errbuf r))
  else ret tt.

(** The test [SendEx] applies to each rune of a command name and of an
    option key: [(r != '_') && (r < 'a') && (r > 'z')]. *)
Definition rune_rejected (r : Z) : bool :=
  negb (r =? 95) && (r <? 97) && (r >? 122).

(** The body of [for key, value := range options] in [SendEx]. *)
Fixpoint SendEx_options (options : list (string * string))
    (commandParts : list string) : M (list string) :=
  match options with
  | [] => ret commandParts
  | (key, value) :: rest =>
      if String.eqb key EmptyString then throw (InvalidOption key)
      else if existsb rune_rejected (runes key) then throw (InvalidOption key)
      else
        let value := replace_byte backslash "\\" value in
        let value := replace_byte quote "\'" value in
        SendEx_options rest
          (commandParts ++ [("--" ++ key ++ " '" ++ value ++ "'")%string])
  end.

(** [SendEx()] sends a command with separated options.  Go leaves the
    iteration order of a map unspecified; [map_to_list] fixes one. *)
Definition SendEx (name : string) (options : gmap string string) : M unit :=
  if String.eqb name EmptyString then throw (InvalidCommand name)
  else if existsb rune_rejected (runes name) then throw (InvalidCommand name)
  else
    commandParts <- SendEx_options (map_to_list options) [name] ;;
    Send (join " " commandParts).

(** [Recv()] receives the result of commands sent by [Send()]. *)
Definition Recv : M (list byte) :=
  r <- exec grn_ctx_recv ;;
  if negb (reply_rc r =? GRN_SUCCESS)
  then throw (RecvFailed (reply_rc r) (reply_errbuf r))
  else if negb (reply_ctx_rc r =? GRN_SUCCESS)
  then throw (RecvCtxFailed (reply_ctx_rc r) (reply_errbuf r))
  else ret (reply_result r).

(** [QueryEx()]: on a send error the pending result is still received and
    the send error returned. *)
Definition QueryEx (name : string) (options : gmap string string)
    : M (list byte) :=
  sent <- attempt (SendEx name options) ;;
  match sent with
  | Err e => _ <- attempt Recv ;; throw e
  | _ => Recv
  end.

(** ** DB: the table cache *)

Definition alloc_table (t : Table) : M tptr :=
  fun w =>
    (mkWorld (store w) (trace w) (db_tables w)
             (table_heap w ++ [t]) (column_heap w),
     Ok (length (table_heap w))).

Definition cache_table (name : string) (p : tptr) : M unit :=
  fun w =>
    (mkWorld (store w) (trace w) (<[name := p]> (db_tables w))
             (table_heap w) (column_heap w),
     Ok tt).

(** [newTable()] creates a new Table object. *)
Definition newTable (obj : grn_obj) (name : string) (keyType : DataType)
    (keyTable : option tptr) (valueType : DataType)
    (valueTable : option tptr) : M tptr :=
  alloc_table (mkTable obj name keyType keyTable valueType valueTable ∅).

(** The block that follows each read of a type descriptor in
    [FindTable] and [findColumn]: "Find the destination table if the
    key/value is table reference".  [find] is [db.FindTable]. *)
Definition reference_table (find : string -> M tptr) (name : string)
    (info : grngo_type_info) : M (option tptr) :=
  match ref_table info with
  | None => ret None
  | Some ref =>
      if decide (data_type info = Void) then throw (ReferenceToVoid name)
      else
        cTableName <- query (grngo_table_get_name ref) ;;
        match cTableName with
        | None => throw (NativeFailed "grngo_table_get_name" EmptyString)
        | Some n => t <- find n ;; ret (Some t)
        end
  end.

(** [FindTable()] finds a table.  The source recurses through reference
    tables without a bound; [fuel] bounds the depth here. *)
Fixpoint FindTable (fuel : nat) (name : string) : M tptr :=
  match fuel with
  | O => out_of_fuel
  | S fuel' =>
    w <- get_world ;;
    match db_tables w !! name with
    | Some table => ret table
    | None =>
      obj <- query (grngo_find_table name) ;;
      match obj with
      | None => throw (TableNotFound name)
      | Some obj =>
        keyReply <- query (grngo_table_get_key_info obj) ;;
        let keyInfo := snd keyReply in
        if negb (fst keyReply)
        then throw (NativeFailed "grngo_table_get_key_info" name)
        else
        let keyType := data_type keyInfo in
        keyTable <- reference_table (FindTable fuel') name keyInfo ;;
        valueReply <- query (grngo_table_get_value_info obj) ;;
        let valueInfo := snd valueReply in
        if negb (fst valueReply)
        then throw (NativeFailed "grngo_table_get_value_info" name)
        else
        let valueType := data_type valueInfo in
        valueTable <- reference_table (FindTable fuel') name valueInfo ;;
        table <- newTable obj name keyType keyTable valueType valueTable ;;
        _ <- cache_table name table ;;
        ret table
      end
    end
  end.

(** ** Table: row insertion

    The insert functions return Go's triple [(bool, uint32, error)]
    as it is; they cannot fail to return. *)

Definition InsertResult : Type := bool * Z * option error.

Definition run_insert (table : Table) (key : insert_key) (w : World)
    : World * grngo_row_info :=
  let '(s, rowInfo) := nexec (grngo_table_insert (tbl_obj table) key)
                             (store w) in
  (mkWorld s (EvExec (grngo_table_insert (tbl_obj table) key) :: trace w)
           (db_tables w) (table_heap w) (column_heap w),
   rowInfo).

(** The common tail of the insert functions: the check of
    [rowInfo.id] against [GRN_ID_NIL]. *)
Definition insert_with (fn : string) (table : Table) (key : insert_key)
    (w : World) : World * InsertResult :=
  let '(w', rowInfo) := run_insert table key w in
  if row_id rowInfo =? GRN_ID_NIL
  then (w', (false, NilID, Some (NativeFailed fn EmptyString)))
  else (w', (inserted rowInfo, row_id rowInfo, None)).

Definition key_type_conflict (w : World) : World * InsertResult :=
  (w, (false, NilID, Some KeyTypeConflict)).

(** [insertVoid()] inserts an empty row. *)
Definition insertVoid (table : Table) (w : World) : World * InsertResult :=
  if negb (bool_decide (tbl_keyType table = Void)) then key_type_conflict w
  else insert_with "grngo_table_insert_void" table insert_void w.

(** [insertBool()] inserts a row with Bool key. *)
Definition insertBool (table : Table) (key : bool) (w : World)
    : World * InsertResult :=
  if negb (bool_decide (tbl_keyType table = Bool)) then key_type_conflict w
  else insert_with "grngo_table_insert_bool" table (insert_bool key) w.

(** [insertInt()] inserts a row with Int key. *)
Definition insertInt (table : Table) (key : Z) (w : World)
    : World * InsertResult :=
  match tbl_keyType table with
  | Int8 => insert_with "grngo_table_insert_int*" table
              (insert_int I8 (int_cast I8 key)) w
  | Int16 => insert_with "grngo_table_insert_int*" table
               (insert_int I16 (int_cast I16 key)) w
  | Int32 => insert_with "grngo_table_insert_int*" table
               (insert_int I32 (int_cast I32 key)) w
  | Int64 => insert_with "grngo_table_insert_int*" table
               (insert_int I64 (int_cast I64 key)) w
  | UInt8 => insert_with "grngo_table_insert_int*" table
               (insert_int U8 (int_cast U8 key)) w
  | UInt16 => insert_with "grngo_table_insert_int*" table
                (insert_int U16 (int_cast U16 key)) w
  | UInt32 => insert_with "grngo_table_insert_int*" table
                (insert_int U32 (int_cast U32 key)) w
  | UInt64 => insert_with "grngo_table_insert_int*" table
                (insert_int U64 (int_cast U64 key)) w
  | _ => key_type_conflict w
  end.

(** [insertFloat()] inserts a row with Float key. *)
Definition insertFloat (table : Table) (key : float64) (w : World)
    : World * InsertResult :=
  if negb (bool_decide (tbl_keyType table = Float)) then key_type_conflict w
  else insert_with "grngo_table_insert_float" table (insert_float key) w.

(** [insertGeoPoint()] inserts a row with GeoPoint key. *)
Definition insertGeoPoint (table : Table) (key : GeoPoint) (w : World)
    : World * InsertResult :=
  match tbl_keyType table with
  | TokyoGeoPoint | WGS84GeoPoint =>
      insert_with "grngo_table_insert_geo_point" table
        (insert_geo_point key) w
  | _ => key_type_conflict w
  end.

(** The [grngo_text] handed over for a byte slice: left zero when the
    slice is empty. *)
Definition text_of_bytes (value : list byte) : grngo_text :=
  if (length value =? 0)%nat then text_zero
  else mkText (Some value) (length value).

(** [insertText()] inserts a row with Text key. *)
Definition insertText (table : Table) (key : list byte) (w : World)
    : World * InsertResult :=
  if negb (bool_decide (tbl_keyType table = ShortText))
  then key_type_conflict w
  else insert_with "grngo_table_insert_text" table
         (insert_text (text_of_bytes key)) w.

(** [reflect.TypeOf(v).Name()] for the values that reach a [default]
    branch: slice types are unnamed. *)
Definition type_name (v : Value) : string :=
  match v with
  | VOther typeName => typeName
  | _ => EmptyString
  end.

(** [InsertRow()] inserts a row. *)
Definition InsertRow (table : Table) (key : Value) (w : World)
    : World * InsertResult :=
  match key with
  | VNil => insertVoid table w
  | VBool value => insertBool table value w
  | VInt value => insertInt table value w
  | VFloat value => insertFloat table value w
  | VGeoPoint value => insertGeoPoint table value w
  | VBytes value => insertText table value w
  | _ => (w, (false, NilID, Some (UnsupportedKeyType (type_name key))))
  end.

(** ** Table: columns *)

Definition alloc_column (c : Column) : M cptr :=
  fun w =>
    (mkWorld (store w) (trace w) (db_tables w) (table_heap w)
             (column_heap w ++ [c]),
     Ok (length (column_heap w))).

(** [table.columns[name] = column], through the pointer [table]. *)
Definition cache_column (table : tptr) (name : string) (column : cptr)
    : M unit :=
  fun w =>
    match table_heap w !! table with
    | None => (w, Panic)
    | Some t =>
        let t' := mkTable (tbl_obj t) (tbl_name t) (tbl_keyType t)
                    (tbl_keyTable t) (tbl_valueType t) (tbl_valueTable t)
                    (<[name := column]> (tbl_columns t)) in
        (mkWorld (store w) (trace w) (db_tables w)
                 (<[table := t']> (table_heap w)) (column_heap w),
         Ok tt)
    end.

(** [newColumn()] creates a new Column object. *)
Definition newColumn (table : tptr) (obj : grn_obj) (name : string)
    (valueType : DataType) (isVector : bool) (valueTable : option tptr)
    : M cptr :=
  alloc_column (mkColumn table obj name valueType isVector valueTable).

(** [findColumn()] finds a column (a name without separators). *)
Definition findColumn (fuel : nat) (table : tptr) (name : string) : M cptr :=
  t <- table_at table ;;
  match tbl_columns t !! name with
  | Some column => ret column
  | None =>
    obj <- query (grn_obj_column (tbl_obj t) name) ;;
    match obj with
    | None => throw (NativeFailed "grn_obj_column" name)
    | Some obj =>
      info <-
        (if String.eqb name "_id" then ret (UInt32, false, None)
         else if String.eqb name "_key"
         then ret (tbl_keyType t, false, tbl_keyTable t)
         else if String.eqb name "_value"
         then ret (tbl_valueType t, false, tbl_valueTable t)
         else
           valueReply <- query (grngo_column_get_value_info obj) ;;
           let valueInfo := snd valueReply in
           if negb (fst valueReply)
           then throw (NativeFailed "grngo_column_get_value_info" name)
           else
           let valueType := data_type valueInfo in
           let isVector := 0 <? dimension valueInfo in
           valueTable <- reference_table (FindTable fuel) name valueInfo ;;
           ret (valueType, isVector, valueTable)) ;;
      let '(valueType, isVector, valueTable) := info in
      column <- newColumn table obj name valueType isVector valueTable ;;
      _ <- cache_column table name column ;;
      ret column
    end
  end.

(** The loop [for _, columnName := range columnNames[1:]] of
    [FindColumn], with its two loop-carried variables. *)
Fixpoint FindColumn_loop (fuel : nat) (columnNames : list string)
    (column : Column) (isVector : bool) : M (Column * bool) :=
  match columnNames with
  | [] => ret (column, isVector)
  | columnName :: rest =>
      match col_valueTable column with
      | None => throw (NotTableReference (col_name column))
      | Some vt =>
          p <- findColumn fuel vt columnName ;;
          column <- column_at p ;;
          if col_isVector column
          then if isVector then throw VectorOfVector
               else FindColumn_loop fuel rest column true
          else FindColumn_loop fuel rest column isVector
      end
  end.

(** [FindColumn()] finds a column, possibly by a dotted path. *)
Definition FindColumn (fuel : nat) (table : tptr) (name : string) : M cptr :=
  t <- table_at table ;;
  match tbl_columns t !! name with
  | Some column => ret column
  | None =>
    if negb (contains_byte dot name) then findColumn fuel table name
    else
      let columnNames := split dot name in
      p <- findColumn fuel table (hd EmptyString columnNames) ;;
      column <- column_at p ;;
      let isVector := col_isVector column in
      let valueTable := col_valueTable column in
      walked <- FindColumn_loop fuel (tl columnNames) column isVector ;;
      let '(column, isVector) := walked in
      obj <- query (grn_obj_column (tbl_obj t) name) ;;
      match obj with
      | None => throw (NativeFailed "grn_obj_column" name)
      | Some obj =>
          column <- newColumn table obj name (col_valueType column)
                      isVector valueTable ;;
          _ <- cache_column table name column ;;
          ret column
      end
  end.

(** The value types [CreateColumn] accepts by name. *)
Definition builtin_value_types : list string :=
  ["Bool"; "Int8"; "Int16"; "Int32"; "Int64"; "UInt8"; "UInt16";
   "UInt32"; "UInt64"; "Float"; "Time"; "ShortText"; "Text"; "LongText";
   "TokyoGeoPoint"; "WGS84GeoPoint"]%string.

(** [optionsMap["flags"] += flag] *)
Definition append_flag (optionsMap : gmap string string) (flag : string)
    : gmap string string :=
  <["flags" := (default EmptyString (optionsMap !! "flags") ++ flag)%string]>
    optionsMap.

(** The first part of [CreateColumn], up to the call of [QueryEx]: the
    option map of the [column_create] command. *)
Definition CreateColumn_options (fuel : nat) (table : Table) (name : string)
    (valueType : string) (options : ColumnOptions)
    : M (gmap string string) :=
  let optionsMap : gmap string string :=
    <["name" := name]> (<["table" := tbl_name table]> ∅) in
  optionsMap <-
    (if existsb (String.eqb valueType) builtin_value_types
     then ret (<["type" := valueType]> optionsMap)
     else
       found <- attempt (FindTable fuel valueType) ;;
       match found with
       | Ok _ => ret (<["type" := valueType]> optionsMap)
       | _ => throw (UnsupportedValueTypeName valueType)
       end) ;;
  optionsMap <-
    match opt_ColumnType options with
    | ScalarColumn => ret (<["flags" := "COLUMN_SCALAR"]> optionsMap)
    | VectorColumn => ret (<["flags" := "COLUMN_VECTOR"]> optionsMap)
    | IndexColumn => ret (<["flags" := "COLUMN_INDEX"]> optionsMap)
    | ColumnType_other _ => throw (UndefinedColumnType options)
    end ;;
  optionsMap <-
    match opt_CompressionType options with
    | NoCompression => ret optionsMap
    | ZlibCompression => ret (<["flags" := "|COMPRESS_ZLIB"]> optionsMap)
    | LzoCompression => ret (<["flags" := "|COMRESS_LZO"]> optionsMap)
    | CompressionType_other _ => throw (UndefinedCompressionType options)
    end ;;
  let optionsMap :=
    if WithSection options then append_flag optionsMap "|WITH_SECTION"
    else optionsMap in
  let optionsMap :=
    if WithWeight options then append_flag optionsMap "|WITH_WEIGHT"
    else optionsMap in
  let optionsMap :=
    if WithPosition options then append_flag optionsMap "|WITH_POSITION"
    else optionsMap in
  let optionsMap :=
    if negb (String.eqb (Source options) EmptyString)
    then <["source" := Source options]> optionsMap
    else optionsMap in
  ret optionsMap.

(** [CreateColumn()] creates a column. *)
Definition CreateColumn (fuel : nat) (table : tptr) (name : string)
    (valueType : string) (options : option ColumnOptions) : M cptr :=
  t <- table_at table ;;
  let options := default NewColumnOptions options in
  optionsMap <- CreateColumn_options fuel t name valueType options ;;
  bytes <- QueryEx "column_create" optionsMap ;;
  if negb (String.eqb (string_of_list_byte bytes) "true")
  then throw (ColumnCreateFailed name)
  else FindColumn fuel table name.

(** [DB.CreateColumn()] and [DB.FindColumn()]: find the table, then
    call the method of the table. *)
Definition DB_CreateColumn (fuel : nat) (tableName columnName : string)
    (valueType : string) (options : option ColumnOptions) : M cptr :=
  table <- FindTable fuel tableName ;;
  CreateColumn fuel table columnName valueType options.

Definition DB_FindColumn (fuel : nat) (tableName columnName : string)
    : M cptr :=
  table <- FindTable fuel tableName ;;
  FindColumn fuel table columnName.

(** ** Column: the value codec, writing *)

(** The common tail of the setters: issue the native call and turn a
    reply other than [GRN_TRUE] into an error. *)
Definition set_with (fn : string) (column : Column) (id : Z)
    (value : set_value) : M unit :=
  ok <- exec (grngo_column_set (col_obj column) id value) ;;
  if negb ok then throw (NativeFailed fn EmptyString) else ret tt.

(** The [grngo_vector] handed over for a slice: left zero when the slice
    is empty. *)
Definition vector_of {A} (value : list A) : grngo_vector A :=
  if (length value =? 0)%nat then vector_zero
  else mkVector (Some value) (length value).

(** [setBool()] assigns a Bool value. *)
Definition setBool (column : Column) (id : Z) (value : bool) : M unit :=
  if negb (bool_decide (col_valueType column = Bool)) || col_isVector column
  then throw ValueTypeConflict
  else set_with "grngo_column_set_bool" column id (set_bool value).

(** [setInt()] assigns an Int value. *)
Definition setInt (column : Column) (id : Z) (value : Z) : M unit :=
  if col_isVector column then throw ValueTypeConflict
  else
    match col_valueType column with
    | Int8 => set_with "grngo_column_set_int*" column id
                (set_int I8 (int_cast I8 value))
    | Int16 => set_with "grngo_column_set_int*" column id
                 (set_int I16 (int_cast I16 value))
    | Int32 => set_with "grngo_column_set_int*" column id
                 (set_int I32 (int_cast I32 value))
    | Int64 => set_with "grngo_column_set_int*" column id
                 (set_int I64 (int_cast I64 value))
    | UInt8 => set_with "grngo_column_set_int*" column id
                 (set_int U8 (int_cast U8 value))
    | UInt16 => set_with "grngo_column_set_int*" column id
                  (set_int U16 (int_cast U16 value))
    | UInt32 => set_with "grngo_column_set_int*" column id
                  (set_int U32 (int_cast U32 value))
    | UInt64 => set_with "grngo_column_set_int*" column id
                  (set_int U64 (int_cast U64 value))
    | _ => throw ValueTypeConflict
    end.

(** [setFloat()] assigns a Float value. *)
Definition setFloat (column : Column) (id : Z) (value : float64) : M unit :=
  if negb (bool_decide (col_valueType column = Float)) || col_isVector column
  then throw ValueTypeConflict
  else set_with "grngo_column_set_float" column id (set_float value).

(** [setGeoPoint()] assigns a GeoPoint value. *)
Definition setGeoPoint (column : Column) (id : Z) (value : GeoPoint)
    : M unit :=
  match col_valueType column with
  | TokyoGeoPoint | WGS84GeoPoint =>
      if col_isVector column then throw ValueTypeConflict
      else set_with "grngo_column_set_geo_point" column id
             (set_geo_point (col_valueType column) value)
  | _ => throw ValueTypeConflict
  end.

(** [setText()] assigns a Text value. *)
Definition setText (column : Column) (id : Z) (value : list byte) : M unit :=
  match col_valueType column with
  | ShortText | Text | LongText =>
      if col_isVector column then throw ValueTypeConflict
      else set_with "grngo_column_set_text" column id
             (set_text (text_of_bytes value))
  | _ => throw ValueTypeConflict
  end.

(** [setBoolVector()] assigns a Bool vector. *)
Definition setBoolVector (column : Column) (id : Z) (value : list bool)
    : M unit :=
  set_with "grngo_column_set_bool_vector" column id
    (set_bool_vector (vector_of value)).

(** [setIntVector()] assigns an Int vector. *)
Definition setIntVector (column : Column) (id : Z) (value : list Z)
    : M unit :=
  let grnVector := vector_of value in
  match col_valueType column with
  | Int8 => set_with "grngo_column_set_int*_vector" column id
              (set_int_vector I8 grnVector)
  | Int16 => set_with "grngo_column_set_int*_vector" column id
               (set_int_vector I16 grnVector)
  | Int32 => set_with "grngo_column_set_int*_vector" column id
               (set_int_vector I32 grnVector)
  | Int64 => set_with "grngo_column_set_int*_vector" column id
               (set_int_vector I64 grnVector)
  | UInt8 => set_with "grngo_column_set_int*_vector" column id
               (set_int_vector U8 grnVector)
  | UInt16 => set_with "grngo_column_set_int*_vector" column id
                (set_int_vector U16 grnVector)
  | UInt32 => set_with "grngo_column_set_int*_vector" column id
                (set_int_vector U32 grnVector)
  | UInt64 => set_with "grngo_column_set_int*_vector" column id
                (set_int_vector U64 grnVector)
  | _ => throw ValueTypeConflict
  end.

(** [setFloatVector()] assigns a Float vector. *)
Definition setFloatVector (column : Column) (id : Z) (value : list float64)
    : M unit :=
  set_with "grngo_column_set_float_vector" column id
    (set_float_vector (vector_of value)).

(** [setGeoPointVector()] assigns a GeoPoint vector. *)
Definition setGeoPointVector (column : Column) (id : Z)
    (value : list GeoPoint) : M unit :=
  set_with "grngo_column_set_geo_point_vector" column id
    (set_geo_point_vector (col_valueType column) (vector_of value)).

(** [setTextVector()] assigns a Text vector. *)
Definition setTextVector (column : Column) (id : Z)
    (value : list (list byte)) : M unit :=
  let grnValue := map text_of_bytes value in
  set_with "grngo_column_set_text_vector" column id
    (set_text_vector (vector_of grnValue)).

(** [SetValue()] assigns a value.  In the [default] branch
    [reflect.TypeOf(value)] is nil for a nil [value], and calling [Name]
    on it panics. *)
Definition SetValue (column : Column) (id : Z) (value : Value) : M unit :=
  match value with
  | VBool v => setBool column id v
  | VInt v => setInt column id v
  | VFloat v => setFloat column id v
  | VGeoPoint v => setGeoPoint column id v
  | VBytes v => setText column id v
  | VBoolVector v => setBoolVector column id v
  | VIntVector v => setIntVector column id v
  | VFloatVector v => setFloatVector column id v
  | VGeoPointVector v => setGeoPointVector column id v
  | VTextVector v => setTextVector column id v
  | VNil => panic
  | VOther typeName => throw (UnsupportedValueType typeName)
  end.

(** ** Column: the value codec, reading *)

(** The contents of the Go slice [dst] after a native call wrote through
    a pointer to it: the slice keeps its length. *)
Definition written {A} (dst : list A) (ptr : option (list A)) : list A :=
  match ptr with
  | Some l => take (length dst) (l ++ drop (length l) dst)
  | None => dst
  end.

(** [getBool()] gets a Bool value. *)
Definition getBool (column : Column) (id : Z) : M Value :=
  reply <- query (grngo_column_get_bool (col_obj column) id) ;;
  if negb (fst reply) then throw (NativeFailed "grngo_column_get_bool"
                                               EmptyString)
  else ret (VBool (snd reply)).

(** [getInt()] gets an Int value. *)
Definition getInt (column : Column) (id : Z) : M Value :=
  reply <- query (grngo_column_get_int (col_obj column)
                    (col_valueType column) id) ;;
  if negb (fst reply) then throw (NativeFailed "grngo_column_get_int"
                                               EmptyString)
  else ret (VInt (snd reply)).

(** [getFloat()] gets a Float value. *)
Definition getFloat (column : Column) (id : Z) : M Value :=
  reply <- query (grngo_column_get_float (col_obj column) id) ;;
  if negb (fst reply) then throw (NativeFailed "grngo_column_get_float"
                                               EmptyString)
  else ret (VFloat (snd reply)).

(** [getGeoPoint()] gets a GeoPoint value. *)
Definition getGeoPoint (column : Column) (id : Z) : M Value :=
  reply <- query (grngo_column_get_geo_point (col_obj column) id) ;;
  if negb (fst reply) then throw (NativeFailed "grngo_column_get_geo_point"
                                               EmptyString)
  else ret (VGeoPoint (snd reply)).

(** [getText()] gets a Text value. *)
Definition getText (column : Column) (id : Z) : M Value :=
  reply <- query (grngo_column_get_text (col_obj column) id text_zero) ;;
  let grnValue := snd reply in
  if negb (fst reply) then throw (NativeFailed "grngo_column_get_text"
                                               EmptyString)
  else if (text_size grnValue =? 0)%nat then ret (VBytes [])
  else
    let value := replicate (text_size grnValue) x00 in
    let grnValue := mkText (Some value) (text_size grnValue) in
    reply <- query (grngo_column_get_text (col_obj column) id grnValue) ;;
    if negb (fst reply) then throw (NativeFailed "grngo_column_get_text"
                                                 EmptyString)
    else ret (VBytes (written value (text_ptr (snd reply)))).

(** [getBoolVector()] gets a BoolVector.  The result is allocated with
    the size the second call reports and filled by index from the
    buffer of the first size. *)
Definition getBoolVector (column : Column) (id : Z) : M Value :=
  reply <- query (grngo_column_get_bool_vector (col_obj column) id
                    vector_zero) ;;
  let grnVector := snd reply in
  if negb (fst reply)
  then throw (NativeFailed "grngo_column_get_bool_vector" EmptyString)
  else if (vec_size grnVector =? 0)%nat then ret (VBoolVector [])
  else
    let grnValue := replicate (vec_size grnVector) false in
    let grnVector := mkVector (Some grnValue) (vec_size grnVector) in
    reply <- query (grngo_column_get_bool_vector (col_obj column) id
                      grnVector) ;;
    let grnVector := snd reply in
    if negb (fst reply)
    then throw (NativeFailed "grngo_column_get_bool_vector" EmptyString)
    else
      let grnValue := written grnValue (vec_ptr grnVector) in
      if (vec_size grnVector <? length grnValue)%nat then panic
      else ret (VBoolVector
                  (grnValue ++ replicate (vec_size grnVector
                                          - length grnValue)%nat false)).

(** [getIntVector()] gets a IntVector. *)
Definition getIntVector (column : Column) (id : Z) : M Value :=
  reply <- query (grngo_column_get_int_vector (col_obj column)
                    (col_valueType column) id vector_zero) ;;
  let grnValue := snd reply in
  if negb (fst reply)
  then throw (NativeFailed "grngo_column_get_int_vector" EmptyString)
  else if (vec_size grnValue =? 0)%nat then ret (VIntVector [])
  else
    let value := replicate (vec_size grnValue) 0 in
    let grnValue := mkVector (Some value) (vec_size grnValue) in
    reply <- query (grngo_column_get_int_vector (col_obj column)
                      (col_valueType column) id grnValue) ;;
    if negb (fst reply)
    then throw (NativeFailed "grngo_column_get_int_vector" EmptyString)
    else ret (VIntVector (written value (vec_ptr (snd reply)))).

(** [getFloatVector()] gets a FloatVector. *)
Definition getFloatVector (column : Column) (id : Z) : M Value :=
  reply <- query (grngo_column_get_float_vector (col_obj column) id
                    vector_zero) ;;
  let grnValue := snd reply in
  if negb (fst reply)
  then throw (NativeFailed "grngo_column_get_float_vector" EmptyString)
  else if (vec_size grnValue =? 0)%nat then ret (VFloatVector [])
  else
    let value := replicate (vec_size grnValue) (mkFloat64 0) in
    let grnValue := mkVector (Some value) (vec_size grnValue) in
    reply <- query (grngo_column_get_float_vector (col_obj column) id
                      grnValue) ;;
    if negb (fst reply)
    then throw (NativeFailed "grngo_column_get_float_vector" EmptyString)
    else ret (VFloatVector (written value (vec_ptr (snd reply)))).

(** [getGeoPointVector()] gets a GeoPointVector. *)
Definition getGeoPointVector (column : Column) (id : Z) : M Value :=
  reply <- query (grngo_column_get_geo_point_vector (col_obj column) id
                    vector_zero) ;;
  let grnValue := snd reply in
  if negb (fst reply)
  then throw (NativeFailed "grngo_column_get_geo_point_vector" EmptyString)
  else if (vec_size grnValue =? 0)%nat then ret (VGeoPointVector [])
  else
    let value := replicate (vec_size grnValue) (mkGeoPoint 0 0) in
    let grnValue := mkVector (Some value) (vec_size grnValue) in
    reply <- query (grngo_column_get_geo_point_vector (col_obj column) id
                      grnValue) ;;
    if negb (fst reply)
    then throw (NativeFailed "grngo_column_get_geo_point_vector" EmptyString)
    else ret (VGeoPointVector (written value (vec_ptr (snd reply)))).

(** The loop of [getTextVector] that gives every non-empty element of
    [grnValues] a buffer of its size. *)
Definition allot_text (grnValue : grngo_text) : grngo_text :=
  if (text_size grnValue =? 0)%nat then grnValue
  else mkText (Some (replicate (text_size grnValue) x00))
              (text_size grnValue).

(** [value[i]] after the last call: the buffer of element [i], or nil. *)
Definition text_value (allotted filled : grngo_text) : list byte :=
  if (text_size allotted =? 0)%nat then []
  else written (replicate (text_size allotted) x00) (text_ptr filled).

(** [getTextVector()] gets a TextVector: one call for the element count,
    one for the element sizes, one to fill the elements.  Writing
    [value[i]] beyond the length of [value] panics. *)
Definition getTextVector (column : Column) (id : Z) : M Value :=
  reply <- query (grngo_column_get_text_vector (col_obj column) id
                    vector_zero) ;;
  let grnVector := snd reply in
  if negb (fst reply)
  then throw (NativeFailed "grngo_column_get_text_vector" EmptyString)
  else if (vec_size grnVector =? 0)%nat then ret (VTextVector [])
  else
    let grnValues := replicate (vec_size grnVector) text_zero in
    let grnVector := mkVector (Some grnValues) (vec_size grnVector) in
    reply <- query (grngo_column_get_text_vector (col_obj column) id
                      grnVector) ;;
    let grnVector := snd reply in
    if negb (fst reply)
    then throw (NativeFailed "grngo_column_get_text_vector" EmptyString)
    else
      let grnValues := written grnValues (vec_ptr grnVector) in
      let size := vec_size grnVector in
      if existsb (fun g => negb (text_size g =? 0)%nat) (drop size grnValues)
      then panic
      else
        let allotted := map allot_text grnValues in
        let grnVector := mkVector (Some allotted) size in
        reply <- query (grngo_column_get_text_vector (col_obj column) id
                          grnVector) ;;
        if negb (fst reply)
        then throw (NativeFailed "grngo_column_get_text_vector" EmptyString)
        else
          let filled := written allotted (vec_ptr (snd reply)) in
          ret (VTextVector
                 (take size (zip_with text_value allotted filled
                             ++ replicate (size - length allotted)%nat []))).

(** [GetValue()] gets a value. *)
Definition GetValue (column : Column) (id : Z) : M Value :=
  if negb (col_isVector column) then
    match col_valueType column with
    | Bool => getBool column id
    | Int8 | Int16 | Int32 | Int64 | UInt8 | UInt16 | UInt32 | UInt64 =>
        getInt column id
    | Float => getFloat column id
    | ShortText | Text | LongText => getText column id
    | TokyoGeoPoint | WGS84GeoPoint => getGeoPoint column id
    | _ => throw (UndefinedValueType (col_valueType column))
    end
  else
    match col_valueType column with
    | Bool => getBoolVector column id
    | Int8 | Int16 | Int32 | Int64 | UInt8 | UInt16 | UInt32 | UInt64 =>
        getIntVector column id
    | Float => getFloatVector column id
    | ShortText | Text | LongText => getTextVector column id
    | TokyoGeoPoint | WGS84GeoPoint => getGeoPointVector column id
    | _ => throw (UndefinedValueType (col_valueType column))
    end.

End Code.

(** ** The rest of the handle's methods *)

(** [type TableType int] *)
Inductive TableType :=
| ArrayTable | HashTable | PatTable | DatTable | TableType_other (n : Z).

(** [type TableOptions struct] *)
Record TableOptions := mkTableOptions {
  opt_TableType : TableType;
  WithSIS : bool;
  KeyType : string;
  ValueType : string;
  DefaultTokenizer : string;
  Normalizer : string;
  TokenFilters : list string
}.

(** [NewTableOptions()]: the zero value. *)
Definition NewTableOptions : TableOptions :=
  mkTableOptions ArrayTable false EmptyString EmptyString EmptyString
    EmptyString [].

(** The errors [CreateTable] builds itself; the errors of the calls it
    makes travel as [Err]. *)
Inductive CreateTableError :=
| UndefinedTableType (options : TableOptions)
| UnsupportedKeyTypeOption (options : TableOptions)
| UnsupportedValueTypeOption (options : TableOptions)
| TableCreateFailed (name : string).

Section CodeRest.
Context {NL : Native}.

(** [DataType.String()]; the [default] branch prints the number. *)
Definition DataType_String (dataType : DataType) : string :=
  match dataType with
  | Void => "Void"
  | Bool => "Bool"
  | Int8 => "Int8"
  | Int16 => "Int16"
  | Int32 => "Int32"
  | Int64 => "Int64"
  | UInt8 => "UInt8"
  | UInt16 => "UInt16"
  | UInt32 => "UInt32"
  | UInt64 => "UInt64"
  | Float => "Float"
  | Time => "Time"
  | ShortText => "ShortText"
  | Text => "Text"
  | LongText => "LongText"
  | TokyoGeoPoint => "TokyoGeoPoint"
  | WGS84GeoPoint => "WGS84GeoPoint"
  | DataType_other n =>
      ("DataType(" ++ NilZero.string_of_int (Z.to_int n) ++ ")")%string
  end.

(** [Query()] sends a raw command and receive the result: after a
    failed send the result is still received, and the send error
    returned. *)
Definition Query (command : string) : M (list byte) :=
  sent <- attempt (Send command) ;;
  match sent with
  | Err e => _ <- attempt Recv ;; throw e
  | _ => Recv
  end.

(** [DB.InsertRow()]: find the table, then insert.  The triple Go
    returns is the value of the run. *)
Definition DB_InsertRow (fuel : nat) (tableName : string) (key : Value)
    : M InsertResult :=
  found <- attempt (FindTable fuel tableName) ;;
  match found with
  | Ok table =>
      t <- table_at table ;;
      fun w => let '(w', r) := InsertRow t key w in (w', Ok r)
  | Err e => ret (false, NilID, Some e)
  | Panic => panic
  | OutOfFuel => out_of_fuel
  end.

(** The key types and the value types [CreateTable] accepts by name. *)
Definition builtin_key_types : list string :=
  ["Bool"; "Int8"; "Int16"; "Int32"; "Int64"; "UInt8"; "UInt16";
   "UInt32"; "UInt64"; "Float"; "Time"; "ShortText"; "TokyoGeoPoint";
   "WGS84GeoPoint"]%string.

Definition builtin_table_value_types : list string :=
  ["Bool"; "Int8"; "Int16"; "Int32"; "Int64"; "UInt8"; "UInt16";
   "UInt32"; "UInt64"; "Float"; "Time"; "TokyoGeoPoint";
   "WGS84GeoPoint"]%string.

(** The first part of [CreateTable], up to the call of [QueryEx]: the
    option map of the [table_create] command, or the error built on the
    way. *)
Definition CreateTable_options (fuel : nat) (name : string)
    (options : TableOptions)
    : M (CreateTableError + gmap string string) :=
  let optionsMap : gmap string string := <["name" := name]> ∅ in
  match
    match opt_TableType options with
    | ArrayTable => Some (<["flags" := "TABLE_NO_KEY"]> optionsMap)
    | HashTable => Some (<["flags" := "TABLE_HASH_KEY"]> optionsMap)
    | PatTable => Some (<["flags" := "TABLE_PAT_KEY"]> optionsMap)
    | DatTable => Some (<["flags" := "TABLE_DAT_KEY"]> optionsMap)
    | TableType_other _ => None
    end
  with
  | None => ret (inl (UndefinedTableType options))
  | Some optionsMap =>
    let optionsMap :=
      if WithSIS options then append_flag optionsMap "|KEY_WITH_SIS"
      else optionsMap in
    keyChecked <-
      (if String.eqb (KeyType options) EmptyString then ret (Some optionsMap)
       else if existsb (String.eqb (KeyType options)) builtin_key_types
       then ret (Some (<["key_type" := KeyType options]> optionsMap))
       else
         found <- attempt (FindTable fuel (KeyType options)) ;;
         match found with
         | Ok _ => ret (Some (<["key_type" := KeyType options]> optionsMap))
         | _ => ret None
         end) ;;
    match keyChecked with
    | None => ret (inl (UnsupportedKeyTypeOption options))
    | Some optionsMap =>
      valueChecked <-
        (if String.eqb (ValueType options) EmptyString
         then ret (Some optionsMap)
         else if existsb (String.eqb (ValueType options))
                   builtin_table_value_types
         then ret (Some (<["value_type" := ValueType options]> optionsMap))
         else
           found <- attempt (FindTable fuel (ValueType options)) ;;
           match found with
           | Ok _ =>
               ret (Some (<["value_type" := ValueType options]> optionsMap))
           | _ => ret None
           end) ;;
      match valueChecked with
      | None => ret (inl (UnsupportedValueTypeOption options))
      | Some optionsMap =>
        let optionsMap :=
          if negb (String.eqb (DefaultTokenizer options) EmptyString)
          then <["default_tokenizer" := DefaultTokenizer options]> optionsMap
          else optionsMap in
        let optionsMap :=
          if negb (String.eqb (Normalizer options) EmptyString)
          then <["normalizer" := Normalizer options]> optionsMap
          else optionsMap in
        let optionsMap :=
          if negb (length (TokenFilters options) =? 0)%nat
          then <["token_filters" := join "," (TokenFilters options)]>
                 optionsMap
          else optionsMap in
        ret (inr optionsMap)
      end
    end
  end.

(** [CreateTable()] creates a table. *)
Definition CreateTable (fuel : nat) (name : string)
    (options : option TableOptions) : M (CreateTableError + tptr) :=
  let options := default NewTableOptions options in
  built <- CreateTable_options fuel name options ;;
  match built with
  | inl e => ret (inl e)
  | inr optionsMap =>
      bytes <- QueryEx "table_create" optionsMap ;;
      if negb (String.eqb (string_of_list_byte bytes) "true")
      then ret (inl (TableCreateFailed name))
      else table <- FindTable fuel name ;; ret (inr table)
  end.

End CodeRest.

(** ** Initialisation counting and the life of a handle *)

(** A [*C.grn_ctx]. *)
Definition grn_ctx := N.

(** The process-wide calls of the Groonga library and the calls that
    open and close a context and a database object. *)
Inductive LifeCall :=
| call_grn_init
| call_grn_fin
| call_grn_ctx_open
| call_grn_ctx_close (ctx : grn_ctx)
| call_grn_db_create (ctx : grn_ctx) (path : option string)
| call_grn_db_open (ctx : grn_ctx) (path : string)
| call_grn_obj_close (ctx : grn_ctx) (obj : grn_obj).

(** Modelled from the spec: the library behind those calls, which is
    not part of the Go source.  A return code is compared with
    [rc_success]; [ctx_errbuf] is what [C.GoString(&ctx.errbuf[0])]
    reads. *)
Class Library := {
  Engine : Type;
  rc_success : Z;
  grn_init : Engine -> Engine * Z;
  grn_fin : Engine -> Engine * Z;
  grn_ctx_open : Engine -> Engine * option grn_ctx;
  grn_ctx_close : grn_ctx -> Engine -> Engine * Z;
  grn_db_create : grn_ctx -> option string -> Engine
                  -> Engine * option grn_obj;
  grn_db_open : grn_ctx -> string -> Engine -> Engine * option grn_obj;
  grn_obj_close : grn_ctx -> grn_obj -> Engine -> Engine * Z;
  ctx_errbuf : grn_ctx -> Engine -> string
}.

(** The errors of this part, one constructor per message. *)
Inductive LifeError :=
| InitFailed (rc : Z)            (* grn_init() failed: rc = %d *)
| FinFailed (rc : Z)             (* grn_fin() failed: rc = %d *)
| NotInitialized                 (* Groonga is not initialized yet *)
| CtxOpenFailed                  (* grn_ctx_open() failed *)
| CtxCloseFailed (rc : Z)        (* grn_ctx_close() failed: rc = %d *)
| DbCreateFailed (err : string)  (* grn_db_create() failed: err = %s *)
| DbOpenFailed (err : string)    (* grn_db_open() failed: err = %s *)
| ObjCloseFailed (rc : Z).       (* grn_obj_close() failed: rc = %d *)

(** The fields [ctx] and [obj] of a [DB]; its [tables] start empty. *)
Record Handle := mkHandle { db_ctx : grn_ctx; db_obj : grn_obj }.

Section Lifecycle.
Context {LB : Library}.

(** The package variable [initCount], the library behind it, and the
    calls made so far (most recent first). *)
Record Process := mkProcess {
  initCount : Z;
  engine : Engine;
  life_trace : list LifeCall
}.

(** [DisableInitCount()] disables initCount. *)
Definition DisableInitCount (p : Process) : Process :=
  mkProcess (-1) (engine p) (life_trace p).

(** [Init()] initializes Groonga if needed. *)
Definition Init (p : Process) : Process * option LifeError :=
  if initCount p =? -1 then (p, None)
  else if initCount p =? 0 then
    let '(e, rc) := grn_init (engine p) in
    let p' := mkProcess (initCount p) e (call_grn_init :: life_trace p) in
    if negb (rc =? rc_success) then (p', Some (InitFailed rc))
    else (mkProcess (initCount p' + 1) (engine p') (life_trace p'), None)
  else (mkProcess (initCount p + 1) (engine p) (life_trace p), None).

(** [Fin()] finalizes Groonga if needed. *)
Definition Fin (p : Process) : Process * option LifeError :=
  if initCount p =? -1 then (p, None)
  else if initCount p =? 0 then (p, Some NotInitialized)
  else if initCount p =? 1 then
    let '(e, rc) := grn_fin (engine p) in
    let p' := mkProcess (initCount p) e (call_grn_fin :: life_trace p) in
    if negb (rc =? rc_success) then (p', Some (FinFailed rc))
    else (mkProcess (initCount p' - 1) (engine p') (life_trace p'), None)
  else (mkProcess (initCount p - 1) (engine p) (life_trace p), None).

(** [openCtx()] allocates memory for grn_ctx and initializes it. *)
Definition openCtx (p : Process) : Process * (LifeError + grn_ctx) :=
  let '(p1, err) := Init p in
  match err with
  | Some e => (p1, inl e)
  | None =>
      let '(e, ctx) := grn_ctx_open (engine p1) in
      let p2 := mkProcess (initCount p1) e
                  (call_grn_ctx_open :: life_trace p1) in
      match ctx with
      | None => (fst (Fin p2), inl CtxOpenFailed)
      | Some ctx => (p2, inr ctx)
      end
  end.

(** [closeCtx()] finalizes grn_ctx and frees allocated memory. *)
Definition closeCtx (ctx : grn_ctx) (p : Process)
    : Process * option LifeError :=
  let '(e, rc) := grn_ctx_close ctx (engine p) in
  let p1 := mkProcess (initCount p) e
              (call_grn_ctx_close ctx :: life_trace p) in
  let p2 := fst (Fin p1) in
  if negb (rc =? rc_success) then (p2, Some (CtxCloseFailed rc))
  else (p2, None).

(** [CreateDB()] creates a Groonga database and returns a handle to
    it; a temporary database is created if path is empty. *)
Definition CreateDB (path : string) (p : Process)
    : Process * (LifeError + Handle) :=
  let '(p1, opened) := openCtx p in
  match opened with
  | inl e => (p1, inl e)
  | inr ctx =>
      let cPath := if String.eqb path EmptyString then None
                   else Some path in
      let '(e, obj) := grn_db_create ctx cPath (engine p1) in
      let p2 := mkProcess (initCount p1) e
                  (call_grn_db_create ctx cPath :: life_trace p1) in
      match obj with
      | None =>
          let p3 := fst (closeCtx ctx p2) in
          (p3, inl (DbCreateFailed (ctx_errbuf ctx (engine p3))))
      | Some obj => (p2, inr (mkHandle ctx obj))
      end
  end.

(** [OpenDB()] opens an existing Groonga database and returns a
    handle. *)
Definition OpenDB (path : string) (p : Process)
    : Process * (LifeError + Handle) :=
  let '(p1, opened) := openCtx p in
  match opened with
  | inl e => (p1, inl e)
  | inr ctx =>
      let '(e, obj) := grn_db_open ctx path (engine p1) in
      let p2 := mkProcess (initCount p1) e
                  (call_grn_db_open ctx path :: life_trace p1) in
      match obj with
      | None =>
          let p3 := fst (closeCtx ctx p2) in
          (p3, inl (DbOpenFailed (ctx_errbuf ctx (engine p3))))
      | Some obj => (p2, inr (mkHandle ctx obj))
      end
  end.

(** [Close()] closes a handle. *)
Definition Close (db : Handle) (p : Process) : Process * option LifeError :=
  let '(e, rc) := grn_obj_close (db_ctx db) (db_obj db) (engine p) in
  let p1 := mkProcess (initCount p) e
              (call_grn_obj_close (db_ctx db) (db_obj db) :: life_trace p) in
  if negb (rc =? rc_success)
  then (fst (closeCtx (db_ctx db) p1), Some (ObjCloseFailed rc))
  else closeCtx (db_ctx db) p1.

End Lifecycle.

(** The calls of [grn_init] and [grn_fin] among the calls made. *)
Definition engine_calls (calls : list LifeCall) : list LifeCall :=
  List.filter (fun c => match c with
                        | call_grn_init | call_grn_fin => true
                        | _ => false
                        end) calls.

(** A small library: [grn_fin] answers with the code the engine state
    holds, every other call succeeds except the creation or opening of
    the database [bad]. *)
Module DemoLibrary.

Definition library : Library := {|
  Engine := Z;
  rc_success := 0;
  grn_init := fun e => (e, 0);
  grn_fin := fun e => (e, e);
  grn_ctx_open := fun e => (e, Some 1%N);
  grn_ctx_close := fun _ e => (e, 0);
  grn_db_create := fun _ path e =>
    (e, if bool_decide (path = Some "bad") then None else Some 2%N);
  grn_db_open := fun _ path e =>
    (e, if String.eqb path "bad" then None else Some 2%N);
  grn_obj_close := fun _ _ e => (e, 0);
  ctx_errbuf := fun _ _ => "no such database"
|}.

(** The process at start, with a library whose [grn_fin] answers [rc]. *)
Definition start (rc : Z) : @Process library :=
  @mkProcess library 0 rc [].

(** The process with the counter at [count]. *)
Definition at_count (count rc : Z) : @Process library :=
  @mkProcess library count rc [].

End DemoLibrary.

(** ** Key kinds

    The variant kinds [InsertRow] dispatches on, and the kind under
    which the keys of a table of a given declared key type are supplied
    (the relationships listed at the head of the source; of the text
    types only [ShortText] is a key type, see the key types
    [CreateTable] accepts; [Time] keys have no Go counterpart yet). *)
Inductive KeyKind :=
| KindVoid | KindBool | KindInt | KindFloat | KindGeoPoint | KindBytes.

#[global] Instance KeyKind_eq_dec : EqDecision KeyKind.
Proof. solve_decision. Defined.

Definition key_kind (key : Value) : option KeyKind :=
  match key with
  | VNil => Some KindVoid
  | VBool _ => Some KindBool
  | VInt _ => Some KindInt
  | VFloat _ => Some KindFloat
  | VGeoPoint _ => Some KindGeoPoint
  | VBytes _ => Some KindBytes
  | _ => None
  end.

Definition declared_key_kind (keyType : DataType) : option KeyKind :=
  match keyType with
  | Void => Some KindVoid
  | Bool => Some KindBool
  | Int8 | Int16 | Int32 | Int64 | UInt8 | UInt16 | UInt32 | UInt64 =>
      Some KindInt
  | Float => Some KindFloat
  | TokyoGeoPoint | WGS84GeoPoint => Some KindGeoPoint
  | ShortText => Some KindBytes
  | _ => None
  end.

(** The key's variant kind is the one the declared key type asks for. *)
Definition key_matches (key : Value) (keyType : DataType) : bool :=
  match key_kind key, declared_key_kind keyType with
  | Some k, Some d => bool_decide (k = d)
  | _, _ => false
  end.

(** The key [InsertRow] hands to the store for [key] on a table of key
    type [keyType]: none when the key is not of the declared type. *)
Definition native_key (keyType : DataType) (key : Value)
    : option insert_key :=
  match key with
  | VNil =>
      match keyType with Void => Some insert_void | _ => None end
  | VBool value =>
      match keyType with Bool => Some (insert_bool value) | _ => None end
  | VInt value =>
      match int_width keyType with
      | Some iw => Some (insert_int iw (int_cast iw value))
      | None => None
      end
  | VFloat value =>
      match keyType with Float => Some (insert_float value) | _ => None end
  | VGeoPoint value =>
      match keyType with
      | TokyoGeoPoint | WGS84GeoPoint => Some (insert_geo_point value)
      | _ => None
      end
  | VBytes value =>
      match keyType with
      | ShortText => Some (insert_text (text_of_bytes value))
      | _ => None
      end
  | _ => None
  end.

(** ** Shape of a value against a column

    The value's shape (scalar or vector, and primitive kind) is the one
    the column declares. *)
Definition scalar_kind (valueType : DataType) : option KeyKind :=
  match valueType with
  | Bool => Some KindBool
  | Int8 | Int16 | Int32 | Int64 | UInt8 | UInt16 | UInt32 | UInt64 =>
      Some KindInt
  | Float => Some KindFloat
  | TokyoGeoPoint | WGS84GeoPoint => Some KindGeoPoint
  | ShortText | Text | LongText => Some KindBytes
  | _ => None
  end.

(** Vector-ness and element kind of a value, for the ten supported
    dynamic types. *)
Definition value_shape (value : Value) : option (bool * KeyKind) :=
  match value with
  | VBool _ => Some (false, KindBool)
  | VInt _ => Some (false, KindInt)
  | VFloat _ => Some (false, KindFloat)
  | VGeoPoint _ => Some (false, KindGeoPoint)
  | VBytes _ => Some (false, KindBytes)
  | VBoolVector _ => Some (true, KindBool)
  | VIntVector _ => Some (true, KindInt)
  | VFloatVector _ => Some (true, KindFloat)
  | VGeoPointVector _ => Some (true, KindGeoPoint)
  | VTextVector _ => Some (true, KindBytes)
  | _ => None
  end.

Definition shape_matches (value : Value) (column : Column) : bool :=
  match value_shape value, scalar_kind (col_valueType column) with
  | Some (vector, k), Some d =>
      bool_decide (vector = col_isVector column) && bool_decide (k = d)
  | _, _ => false
  end.

(** ** A small engine

    A concrete [Native] instance on which the code can be run: tables
    [A] and [B] keyed by [ShortText], the key-less table [Log], and three
    tables with broken descriptors; rows are kept per table and key. *)
Module Demo.

#[global] Instance byte_eq_dec : EqDecision byte := Byte.byte_eq_dec.

#[global] Instance grngo_text_eq_dec : EqDecision grngo_text.
Proof. solve_decision. Defined.

#[global] Instance insert_key_eq_dec : EqDecision insert_key.
Proof. solve_decision. Defined.

(** Rows: table, key and row id, most recent first. *)
Definition rows := list (grn_obj * insert_key * Z).

Fixpoint find_row (table : grn_obj) (key : insert_key) (s : rows)
    : option Z :=
  match s with
  | [] => None
  | (t, k, id) :: s' =>
      if decide (t = table /\ k = key) then Some id
      else find_row table key s'
  end.

Definition is_keyless (table : grn_obj) : bool := (table =? 6)%N.

(** Insert-or-find: a key-less table takes only the void key and gets a
    new row each time; a keyed table refuses the void key. *)
Definition insert_row (table : grn_obj) (key : insert_key) (s : rows)
    : rows * grngo_row_info :=
  let fresh := Z.of_nat (length s) + 1 in
  match key with
  | insert_void =>
      if is_keyless table
      then ((table, key, fresh) :: s, mkRowInfo fresh true)
      else (s, mkRowInfo 0 false)
  | _ =>
      if is_keyless table then (s, mkRowInfo 0 false)
      else match find_row table key s with
           | Some id => (s, mkRowInfo id false)
           | None => ((table, key, fresh) :: s, mkRowInfo fresh true)
           end
  end.

Definition table_obj (name : string) : option grn_obj :=
  if String.eqb name "A" then Some 1%N
  else if String.eqb name "B" then Some 2%N
  else if String.eqb name "C" then Some 3%N
  else if String.eqb name "D" then Some 4%N
  else if String.eqb name "E" then Some 5%N
  else if String.eqb name "Log" then Some 6%N
  else None.

Definition table_name (table : grn_obj) : option string :=
  match table with
  | 1%N => Some "A" | 2%N => Some "B" | 3%N => Some "C"
  | 4%N => Some "D" | 5%N => Some "E" | 6%N => Some "Log"
  | _ => None
  end.

(** [C]: the key is a reference to void; [E]: the key refers to [B]. *)
Definition key_info (table : grn_obj) : grngo_type_info :=
  match table with
  | 3%N => mkTypeInfo Void 0 (Some 2%N)
  | 5%N => mkTypeInfo ShortText 0 (Some 2%N)
  | 6%N => mkTypeInfo Void 0 None
  | _ => mkTypeInfo ShortText 0 None
  end.

(** [D] and [E]: the value is a reference to void. *)
Definition value_info (table : grn_obj) : grngo_type_info :=
  match table with
  | 4%N | 5%N => mkTypeInfo Void 0 (Some 2%N)
  | _ => mkTypeInfo Void 0 None
  end.

(** Columns [A.r] (reference to [B]), [A.rs] (vector of references to
    [B]), [B.v], [B.tags], [B.name], [B.ws]; a dotted name on any table
    yields an accessor object. *)
Definition column_obj (table : grn_obj) (name : string) : option grn_obj :=
  if contains_byte dot name then Some 100%N
  else match table with
       | 1%N => if String.eqb name "r" then Some 11%N
                else if String.eqb name "rs" then Some 12%N
                else None
       | 2%N => if String.eqb name "v" then Some 21%N
                else if String.eqb name "tags" then Some 22%N
                else if String.eqb name "name" then Some 23%N
                else if String.eqb name "ws" then Some 24%N
                else None
       | _ => None
       end.

Definition column_info (column : grn_obj) : grngo_type_info :=
  match column with
  | 11%N => mkTypeInfo ShortText 0 (Some 2%N)
  | 12%N => mkTypeInfo ShortText 1 (Some 2%N)
  | 21%N => mkTypeInfo Int32 0 None
  | 22%N => mkTypeInfo Text 1 None
  | 23%N => mkTypeInfo Text 0 None
  | _ => mkTypeInfo Int32 1 None
  end.

(** Every text cell holds [abc], every vector cell two elements; the
    getters report sizes first and fill what they are given. *)
Definition get_text (dst : grngo_text) : grngo_text :=
  match text_ptr dst with
  | None => mkText None 3
  | Some _ => mkText (Some [x61; x62; x63]) 3
  end.

Definition get_vector {A} (cell : list A) (dst : grngo_vector A)
    : grngo_vector A :=
  match vec_ptr dst with
  | None => mkVector None (length cell)
  | Some _ => mkVector (Some cell) (length cell)
  end.

Definition get_text_vector (dst : grngo_vector grngo_text)
    : grngo_vector grngo_text :=
  match vec_ptr dst with
  | None => mkVector None 2
  | Some elements =>
      if forallb (fun g => bool_decide (text_ptr g = None)) elements
      then mkVector (Some [mkText None 1; mkText None 2]) 2
      else mkVector (Some [mkText (Some [x61]) 1;
                           mkText (Some [x62; x63]) 2]) 2
  end.

Definition answer (R : Type) (q : NativeQuery R) (s : rows) : R :=
  match q in NativeQuery R return R with
  | grngo_find_table name => table_obj name
  | grngo_table_get_key_info table => (true, key_info table)
  | grngo_table_get_value_info table => (true, value_info table)
  | grngo_table_get_name table => table_name table
  | grn_obj_column table name => column_obj table name
  | grngo_column_get_value_info column => (true, column_info column)
  | grngo_column_get_bool _ _ => (true, true)
  | grngo_column_get_int _ _ _ => (true, 7)
  | grngo_column_get_float _ _ => (true, mkFloat64 0)
  | grngo_column_get_geo_point _ _ => (true, mkGeoPoint 0 0)
  | grngo_column_get_text _ _ dst => (true, get_text dst)
  | grngo_column_get_bool_vector _ _ dst =>
      (true, get_vector [true; false] dst)
  | grngo_column_get_int_vector _ _ _ dst => (true, get_vector [7; 8] dst)
  | grngo_column_get_float_vector _ _ dst =>
      (true, get_vector [mkFloat64 0; mkFloat64 1] dst)
  | grngo_column_get_geo_point_vector _ _ dst =>
      (true, get_vector [mkGeoPoint 0 0; mkGeoPoint 1 1] dst)
  | grngo_column_get_text_vector _ _ dst => (true, get_text_vector dst)
  end.

Definition command (R : Type) (c : NativeCommand R) (s : rows) : rows * R :=
  match c in NativeCommand R return rows * R with
  | grn_ctx_send _ => (s, mkCtxReply 0 0 EmptyString [])
  | grn_ctx_recv => (s, mkCtxReply 0 0 EmptyString [x74; x72; x75; x65])
  | grngo_table_insert table key => insert_row table key s
  | grngo_column_set _ _ _ => (s, true)
  end.

Definition engine : Native := {|
  Store := rows;
  GRN_ID_NIL := 0;
  GRN_SUCCESS := 0;
  nquery := answer;
  nexec := command
|}.

(** A fresh handle: nothing stored, nothing resolved, no call issued. *)
Definition world0 : @World engine :=
  @mkWorld engine ([] : rows) [] ∅ [] [].

(** The table objects [FindTable] builds for [A] and [B]. *)
Definition tableA : Table := mkTable 1%N "A" ShortText None Void None ∅.
Definition tableB : Table := mkTable 2%N "B" ShortText None Void None ∅.

#[local] Existing Instance engine.

(** A table whose key type is [Text]. *)
Definition textKeyed : Table := mkTable 7%N "T" Text None Void None ∅.

(** The columns [B.name] (text) and [B.tags] (vector of text). *)
Definition nameColumn : Column := mkColumn 1%nat 23%N "name" Text false None.
Definition tagsColumn : Column := mkColumn 1%nat 22%N "tags" Text true None.

(** [db.FindColumn("A", path)]. *)
Definition resolve (path : string) : M cptr := DB_FindColumn 2 "A" path.

(** [db.CreateColumn("A", "c", "Int32", &options)]. *)
Definition create (options : ColumnOptions) : M cptr :=
  DB_CreateColumn 2 "A" "c" "Int32" (Some options).

End Demo.

(** The small engine with the positional columns added: every table
    has the column objects [_id], [_key] and [_value]. *)
Module Demo2.

Definition answer (R : Type) (q : NativeQuery R) (s : Demo.rows) : R :=
  match q in NativeQuery R return R -> R with
  | grn_obj_column _ name =>
      fun known =>
        if String.eqb name "_id" || String.eqb name "_key"
           || String.eqb name "_value"
        then Some 50%N else known
  | _ => fun known => known
  end (Demo.answer R q s).

Definition engine : Native := {|
  Store := Demo.rows;
  GRN_ID_NIL := 0;
  GRN_SUCCESS := 0;
  nquery := answer;
  nexec := Demo.command
|}.

Definition world0 : @World engine :=
  @mkWorld engine ([] : Demo.rows) [] ∅ [] [].

End Demo2.

(** The small engine with two broken tables added: the value of [F]
    and of [G] is a reference to void; the key of [F] refers to a table
    that is not there, the key of [G] to [G] itself. *)
Module Demo3.

Definition answer (R : Type) (q : NativeQuery R) (s : Demo.rows) : R :=
  match q in NativeQuery R return R -> R with
  | grngo_find_table name =>
      fun known =>
        if String.eqb name "F" then Some 7%N
        else if String.eqb name "G" then Some 8%N
        else known
  | grngo_table_get_key_info table =>
      fun known =>
        match table with
        | 7%N => (true, mkTypeInfo ShortText 0 (Some 9%N))
        | 8%N => (true, mkTypeInfo ShortText 0 (Some 8%N))
        | _ => known
        end
  | grngo_table_get_value_info table =>
      fun known =>
        match table with
        | 7%N | 8%N => (true, mkTypeInfo Void 0 (Some 2%N))
        | _ => known
        end
  | grngo_table_get_name table =>
      fun known =>
        match table with
        | 7%N => Some "F"
        | 8%N => Some "G"
        | 9%N => Some "Missing"
        | _ => known
        end
  | _ => fun known => known
  end (Demo.answer R q s).

Definition engine : Native := {|
  Store := Demo.rows;
  GRN_ID_NIL := 0;
  GRN_SUCCESS := 0;
  nquery := answer;
  nexec := Demo.command
|}.

Definition world0 : @World engine :=
  @mkWorld engine ([] : Demo.rows) [] ∅ [] [].


End Demo3.

(** ** Vocabulary of the statements *)

Section Vocabulary.
Context {NL : Native}.



Definition text_capacity (dst : grngo_text) : nat :=
  match text_ptr dst with None => 0 | Some l => length l end.

Definition vector_capacity {A} (dst : grngo_vector A) : nat :=
  match vec_ptr dst with None => 0 | Some l => length l end.

(** The capacity of the destination a getter of variable-length data
    is called with. *)
Definition destination (e : Event) : option nat :=
  match e with
  | EvQuery q =>
      match q with
      | grngo_column_get_text _ _ dst => Some (text_capacity dst)
      | grngo_column_get_bool_vector _ _ dst => Some (vector_capacity dst)
      | grngo_column_get_int_vector _ _ _ dst => Some (vector_capacity dst)
      | grngo_column_get_float_vector _ _ dst => Some (vector_capacity dst)
      | grngo_column_get_geo_point_vector _ _ dst =>
          Some (vector_capacity dst)
      | grngo_column_get_text_vector _ _ dst => Some (vector_capacity dst)
      | _ => None
      end
  | EvExec _ => None
  end.

(** The capacities of the element buffers a text-vector getter is
    called with. *)
Definition element_capacities (e : Event) : option (list nat) :=
  match e with
  | EvQuery q =>
      match q with
      | grngo_column_get_text_vector _ _ dst =>
          Some (map text_capacity (default [] (vec_ptr dst)))
      | _ => None
      end
  | EvExec _ => None
  end.

(** What a getter of variable-length data answers in state [s]: whether
    it succeeded, and the size it reports. *)
Definition reported (e : Event) (s : Store) : option (bool * nat) :=
  match e with
  | EvQuery q =>
      match q in NativeQuery R return R -> option (bool * nat) with
      | grngo_column_get_text _ _ _ =>
          fun r => Some (fst r, text_size (snd r))
      | grngo_column_get_bool_vector _ _ _ =>
          fun r => Some (fst r, vec_size (snd r))
      | grngo_column_get_int_vector _ _ _ _ =>
          fun r => Some (fst r, vec_size (snd r))
      | grngo_column_get_float_vector _ _ _ =>
          fun r => Some (fst r, vec_size (snd r))
      | grngo_column_get_geo_point_vector _ _ _ =>
          fun r => Some (fst r, vec_size (snd r))
      | grngo_column_get_text_vector _ _ _ =>
          fun r => Some (fst r, vec_size (snd r))
      | _ => fun _ => None
      end (nquery q s)
  | EvExec _ => None
  end.

(** The element sizes a text-vector getter writes into a destination of
    [n] elements. *)
Definition reported_elements (e : Event) (n : nat) (s : Store)
    : option (list nat) :=
  match e with
  | EvQuery q =>
      match q in NativeQuery R return R -> option (list nat) with
      | grngo_column_get_text_vector _ _ _ =>
          fun r => Some (map text_size
                           (written (replicate n text_zero)
                                    (vec_ptr (snd r))))
      | _ => fun _ => None
      end (nquery q s)
  | EvExec _ => None
  end.

(** Text scalars and every vector kind. *)
Definition variable_length (column : Column) : bool :=
  match scalar_kind (col_valueType column) with
  | Some k => col_isVector column || bool_decide (k = KindBytes)
  | None => false
  end.

Definition is_text_vector (column : Column) : bool :=
  col_isVector column
  && bool_decide (scalar_kind (col_valueType column) = Some KindBytes).

Definition empty_value (v : Value) : bool :=
  match v with
  | VBytes [] | VBoolVector [] | VIntVector [] | VFloatVector []
  | VGeoPointVector [] | VTextVector [] => true
  | _ => false
  end.

(** The two-phase read: a first call with a destination of capacity
    zero; when it reports size zero, an empty value and no further call;
    when it reports a size [n > 0], exactly one more call, with a
    destination of capacity [n]. *)
Definition two_phase_read (column : Column) (id : Z) (w : World) : Prop :=
  let run := GetValue column id w in
  exists probe : Event,
    destination probe = Some 0%nat
    /\ match reported probe (store w) with
       | Some (true, O) =>
           trace (fst run) = probe :: trace w
           /\ exists v, snd run = Ok v /\ empty_value v = true
       | Some (true, S n) =>
           exists fill : Event,
             trace (fst run) = fill :: probe :: trace w
             /\ destination fill = Some (S n)
       | _ => trace (fst run) = probe :: trace w
       end.

(** The read of a text vector: as above up to the second call, whose
    destination holds [n] elements of capacity zero and which reports
    the element sizes; a read that returns a value has issued a third
    call in which every element of non-zero size has a buffer of that
    size. *)
Definition three_phase_read (column : Column) (id : Z) (w : World) : Prop :=
  let run := GetValue column id w in
  exists probe : Event,
    destination probe = Some 0%nat
    /\ match reported probe (store w) with
       | Some (true, O) =>
           trace (fst run) = probe :: trace w
           /\ exists v, snd run = Ok v /\ empty_value v = true
       | Some (true, S n) =>
           exists sizes : Event,
             destination sizes = Some (S n)
             /\ element_capacities sizes = Some (replicate (S n) 0%nat)
             /\ (trace (fst run) = sizes :: probe :: trace w
                 \/ exists fill : Event,
                      trace (fst run) = fill :: sizes :: probe :: trace w
                      /\ destination fill = Some (S n)
                      /\ exists caps reps,
                           element_capacities fill = Some caps
                           /\ reported_elements sizes (S n) (store w)
                              = Some reps
                           /\ Forall2 (fun cap rep =>
                                         rep <> 0%nat -> cap = rep)
                                      caps reps)
             /\ (forall v, snd run = Ok v ->
                 length (trace (fst run)) = (3 + length (trace w))%nat)
       | _ => trace (fst run) = probe :: trace w
       end.

(** A descriptor that carries a reference-table pointer while its
    declared type is [Void]. *)
Definition reference_to_void (reply : bool * grngo_type_info) : bool :=
  fst reply
  && match ref_table (snd reply) with
     | Some _ => bool_decide (data_type (snd reply) = Void)
     | None => false
     end.

(** The key descriptor, and the value descriptor, of the table called
    [name] in the engine state [s]. *)
Definition key_descriptor (s : Store) (name : string)
    : option (bool * grngo_type_info) :=
  match nquery (grngo_find_table name) s with
  | Some obj => Some (nquery (grngo_table_get_key_info obj) s)
  | None => None
  end.

Definition value_descriptor (s : Store) (name : string)
    : option (bool * grngo_type_info) :=
  match nquery (grngo_find_table name) s with
  | Some obj => Some (nquery (grngo_table_get_value_info obj) s)
  | None => None
  end.

(** The table called [name] has a key or a value descriptor that is a
    reference to void. *)
Definition refers_to_void (s : Store) (name : string) : bool :=
  match key_descriptor s name, value_descriptor s name with
  | Some k, Some v => reference_to_void k || reference_to_void v
  | _, _ => false
  end.

(** The engine state is [s] and nothing is cached under [name]. *)
Definition uncached (s : Store) (name : string) (w : World) : Prop :=
  store w = s /\ db_tables w !! name = None.

(** What [FindTable] has on its hands when it has dealt with the key
    side of the table called [name]: the key table (none, when the key
    is not a reference), or the reason why it stops there. *)
Definition key_side (fuel : nat) (name : string) (w : World)
    : result (option tptr) :=
  match nquery (grngo_find_table name) (store w) with
  | None => Err (TableNotFound name)
  | Some obj =>
      let w1 := fst (query (grngo_find_table name) w) in
      let w2 := fst (query (grngo_table_get_key_info obj) w1) in
      let keyReply := nquery (grngo_table_get_key_info obj) (store w) in
      if negb (fst keyReply)
      then Err (NativeFailed "grngo_table_get_key_info" name)
      else snd (reference_table (FindTable fuel) name (snd keyReply) w2)
  end.

(** [FindTable] answers with the reference-to-void error and caches
    nothing under the name. *)
Definition reports_reference_to_void (fuel : nat) (name : string)
    (w : World) : Prop :=
  snd (FindTable fuel name w) = Err (ReferenceToVoid name)
  /\ db_tables (fst (FindTable fuel name w)) !! name = None.

(** The columns the loop of [FindColumn] resolves for the segments
    after the first, starting from [column] in world [w]: each segment
    is looked up in the table the previous column refers to. *)
Inductive walked (fuel : nat)
    : Column -> World -> list string -> list Column -> World -> Prop :=
| walked_nil (column : Column) (w : World) :
    walked fuel column w [] [] w
| walked_cons (column : Column) (w : World) (valueTable : tptr)
    (columnName : string) (rest : list string) (w1 : World) (p : cptr)
    (next : Column) (columns : list Column) (w2 : World) :
    col_valueTable column = Some valueTable ->
    findColumn fuel valueTable columnName w = (w1, Ok p) ->
    column_heap w1 !! p = Some next ->
    walked fuel next w1 rest columns w2 ->
    walked fuel column w (columnName :: rest) (next :: columns) w2.

(** How many of the columns are vectors. *)
Definition vectors (columns : list Column) : nat :=
  length (List.filter col_isVector columns).

(** What [SendEx] does to an option value: backslashes are doubled,
    then quotes get a backslash. *)
Definition escape (value : string) : string :=
  replace_byte quote "\'" (replace_byte backslash "\\" value).

(** Reading an escaped value back: a backslash stands for the byte
    after it. *)
Fixpoint unescape (s : string) : string :=
  match s with
  | EmptyString => EmptyString
  | String c s' =>
      if Ascii.eqb c backslash
      then match s' with
           | EmptyString => String c EmptyString
           | String c' s'' => String c' (unescape s'')
           end
      else String c (unescape s')
  end.

(** Some quote of [s] is not preceded by a backslash of its own. *)
Fixpoint bare_quote (s : string) : bool :=
  match s with
  | EmptyString => false
  | String c s' =>
      if Ascii.eqb c backslash
      then match s' with
           | EmptyString => false
           | String _ s'' => bare_quote s''
           end
      else Ascii.eqb c quote || bare_quote s'
  end.

(** The part of the command line [SendEx] builds for one option. *)
Definition option_part (option : string * string) : string :=
  ("--" ++ fst option ++ " '" ++ escape (snd option) ++ "'")%string.

(** The bit width and the value range of an integer type. *)
Definition int_bits (w : IntWidth) : Z :=
  match w with
  | I8 | U8 => 8 | I16 | U16 => 16 | I32 | U32 => 32 | I64 | U64 => 64
  end.

Definition int_signed (w : IntWidth) : bool :=
  match w with I8 | I16 | I32 | I64 => true | _ => false end.

Definition in_range (w : IntWidth) (z : Z) : Prop :=
  if int_signed w
  then - 2 ^ (int_bits w - 1) <= z < 2 ^ (int_bits w - 1)
  else 0 <= z < 2 ^ int_bits w.

(** The number of bytes of a text value, of elements of a vector. *)
Definition value_length (v : Value) : option nat :=
  match v with
  | VBytes l => Some (length l)
  | VBoolVector l => Some (length l)
  | VIntVector l => Some (length l)
  | VFloatVector l => Some (length l)
  | VGeoPointVector l => Some (length l)
  | VTextVector l => Some (length l)
  | _ => None
  end.

(** The reads whose result is the destination of the fill call itself:
    text scalars and Int, Float and GeoPoint vectors. *)
Definition direct_read (column : Column) : bool :=
  match scalar_kind (col_valueType column) with
  | Some KindBytes => negb (col_isVector column)
  | Some KindBool => false
  | Some _ => col_isVector column
  | None => false
  end.

(** A reference-table pointer goes with a type other than [Void] and
    points to a table. *)
Definition reference_ok (w : World) (type : DataType) (ref : option tptr)
    : Prop :=
  forall p, ref = Some p -> type <> Void /\ is_Some (table_heap w !! p).

Definition table_ok (w : World) (t : Table) : Prop :=
  reference_ok w (tbl_keyType t) (tbl_keyTable t)
  /\ reference_ok w (tbl_valueType t) (tbl_valueTable t).

(** The table cache is sound: every cached pointer points to a table of
    the name it is cached under, and every table's references are in
    order. *)
Definition tables_wf (w : World) : Prop :=
  (forall name p, db_tables w !! name = Some p ->
     exists t, table_heap w !! p = Some t /\ tbl_name t = name)
  /\ (forall p t, table_heap w !! p = Some t -> table_ok w t).

(** From [w0] to [w] tables were only added: the cache is sound, what
    was cached in [w0] is cached as it was, the tables of [w0] are
    where they were, and the columns and the engine are untouched. *)
Definition grown (w0 w : World) : Prop :=
  tables_wf w
  /\ db_tables w0 ⊆ db_tables w
  /\ table_heap w0 `prefix_of` table_heap w
  /\ column_heap w = column_heap w0
  /\ store w = store w0.

(** The data types with a name of their own. *)
Definition named_types : list DataType :=
  [Void; Bool; Int8; Int16; Int32; Int64; UInt8; UInt16; UInt32; UInt64;
   Float; Time; ShortText; Text; LongText; TokyoGeoPoint; WGS84GeoPoint].

(** The type and the reference table [findColumn] gives the three
    positional columns of a table. *)
Definition pseudo_column (t : Table) (name : string)
    : option (DataType * option tptr) :=
  if String.eqb name "_id" then Some (UInt32, None)
  else if String.eqb name "_key" then Some (tbl_keyType t, tbl_keyTable t)
  else if String.eqb name "_value"
  then Some (tbl_valueType t, tbl_valueTable t)
  else None.

(** ** The column cache *)

(** Every cached column pointer of every table points to a column of
    that table, of the name it is cached under. *)
Definition columns_wf (w : World) : Prop :=
  forall p t name c,
    table_heap w !! p = Some t -> tbl_columns t !! name = Some c ->
    exists column, column_heap w !! c = Some column
                   /\ col_table column = p /\ col_name column = name.

(** [t] is [t0] with, possibly, more columns cached. *)
Definition more_columns (t0 t : Table) : Prop :=
  tbl_obj t = tbl_obj t0 /\ tbl_name t = tbl_name t0
  /\ tbl_keyType t = tbl_keyType t0 /\ tbl_keyTable t = tbl_keyTable t0
  /\ tbl_valueType t = tbl_valueType t0
  /\ tbl_valueTable t = tbl_valueTable t0
  /\ tbl_columns t0 ⊆ tbl_columns t.

(** From [w0] to [w] objects were only added: the engine is untouched,
    the columns of [w0] are where they were, and its tables are where
    they were, with no cached column lost. *)
Definition extended (w0 w : World) : Prop :=
  store w = store w0
  /\ column_heap w0 `prefix_of` column_heap w
  /\ (forall p t0, table_heap w0 !! p = Some t0 ->
        exists t, table_heap w !! p = Some t /\ more_columns t0 t).

(** From [w0] to [w] only tables without cached columns were added,
    and what was cached in [db.tables] is cached as it was. *)
Definition tables_added (w0 w : World) : Prop :=
  store w = store w0
  /\ column_heap w = column_heap w0
  /\ table_heap w0 `prefix_of` table_heap w
  /\ (forall p t, table_heap w !! p = Some t ->
        table_heap w0 !! p = Some t \/ tbl_columns t = ∅)
  /\ db_tables w0 ⊆ db_tables w.

(** From [w0] to [w] no name other than a [fresh] one was cached, or
    cached anew, on a table of [w0]. *)
Definition cached_only (fresh : string -> Prop) (w0 w : World) : Prop :=
  forall p t0 t n,
    table_heap w0 !! p = Some t0 -> table_heap w !! p = Some t ->
    ~ fresh n -> tbl_columns t !! n = tbl_columns t0 !! n.

(** A step that keeps the column cache sound, loses nothing of either
    cache, and caches [fresh] column names only. *)
Definition sound_extension (fresh : string -> Prop) (w0 w : World)
    : Prop :=
  (columns_wf w0 -> columns_wf w)
  /\ extended w0 w /\ cached_only fresh w0 w
  /\ db_tables w0 ⊆ db_tables w.

(** [CreateColumn] has a reason to refuse: the value type is neither a
    built-in name nor a table that is found, or the column type or the
    compression type is not a defined one. *)
Definition column_refused (fuel : nat) (valueType : string)
    (options : ColumnOptions) (w : World) : Prop :=
  (existsb (String.eqb valueType) builtin_value_types = false
   /\ forall p, snd (FindTable fuel valueType w) <> Ok p)
  \/ (exists k, opt_ColumnType options = ColumnType_other k)
  \/ (exists k, opt_CompressionType options = CompressionType_other k).

(** The world after the value type was looked up. *)
Definition value_type_checked (fuel : nat) (valueType : string)
    (w : World) : World :=
  if existsb (String.eqb valueType) builtin_value_types then w
  else fst (FindTable fuel valueType w).

(** ** Calls on the handle *)

(** From [w0] to [w] nothing was lost from the caches of the handle:
    what [db.tables] held it holds as before, and every table is where
    it was and holds the columns it had cached, as before. *)
Definition cache_kept (w0 w : World) : Prop :=
  db_tables w0 ⊆ db_tables w
  /\ (forall p t0, table_heap w0 !! p = Some t0 ->
        exists t, table_heap w !! p = Some t /\ more_columns t0 t).

(** One call of a method of the handle, of one of its tables or of one
    of its columns, whatever it returns. *)
Inductive handle_step : World -> World -> Prop :=
| step_Send (command : string) (w : World) :
    handle_step w (fst (Send command w))
| step_SendEx (name : string) (options : gmap string string) (w : World) :
    handle_step w (fst (SendEx name options w))
| step_Recv (w : World) :
    handle_step w (fst (Recv w))
| step_Query (command : string) (w : World) :
    handle_step w (fst (Query command w))
| step_QueryEx (name : string) (options : gmap string string) (w : World) :
    handle_step w (fst (QueryEx name options w))
| step_CreateTable (fuel : nat) (name : string)
    (options : option TableOptions) (w : World) :
    handle_step w (fst (CreateTable fuel name options w))
| step_FindTable (fuel : nat) (name : string) (w : World) :
    handle_step w (fst (FindTable fuel name w))
| step_DB_InsertRow (fuel : nat) (tableName : string) (key : Value)
    (w : World) :
    handle_step w (fst (DB_InsertRow fuel tableName key w))
| step_DB_CreateColumn (fuel : nat) (tableName columnName : string)
    (valueType : string) (options : option ColumnOptions) (w : World) :
    handle_step w
      (fst (DB_CreateColumn fuel tableName columnName valueType options w))
| step_DB_FindColumn (fuel : nat) (tableName columnName : string)
    (w : World) :
    handle_step w (fst (DB_FindColumn fuel tableName columnName w))
| step_InsertRow (table : Table) (key : Value) (w : World) :
    handle_step w (fst (InsertRow table key w))
| step_CreateColumn (fuel : nat) (table : tptr) (name : string)
    (valueType : string) (options : option ColumnOptions) (w : World) :
    handle_step w (fst (CreateColumn fuel table name valueType options w))
| step_FindColumn (fuel : nat) (table : tptr) (name : string) (w : World) :
    handle_step w (fst (FindColumn fuel table name w))
| step_SetValue (column : Column) (id : Z) (value : Value) (w : World) :
    handle_step w (fst (SetValue column id value w))
| step_GetValue (column : Column) (id : Z) (w : World) :
    handle_step w (fst (GetValue column id w)).

(** [w] is reached from [w0] by calls on the handle. *)
Definition afterwards : World -> World -> Prop := rtc handle_step.

(** A function that keeps what the caches hold, and one that leaves
    the caches alone. *)
Definition keeps {A} (m : M A) : Prop :=
  forall w, cache_kept w (fst (m w)).

Definition quiet {A} (m : M A) : Prop :=
  forall w, db_tables (fst (m w)) = db_tables w
            /\ table_heap (fst (m w)) = table_heap w
            /\ column_heap (fst (m w)) = column_heap w.

End Vocabulary.

(** * Properties *)

Section Properties.
Context {NL : Native}.

(** ** Row insertion *)

Lemma insert_with_trace fn table key w :
  trace (fst (insert_with fn table key w))
  = EvExec (grngo_table_insert (tbl_obj table) key) :: trace w.
Proof.
  unfold insert_with, run_insert.
  destruct (nexec _ _) as [s rowInfo]; simpl.
  destruct (row_id rowInfo =? GRN_ID_NIL); reflexivity.
Qed.

(** C5: a key whose variant kind is not the one the table's declared key
    type asks for is refused with the key-type-conflict error and the
    sentinel id, and the world -- in particular the trace of native
    calls and the engine state -- is left as it was. *)
Theorem InsertRow_key_type_conflict (table : Table) (key : Value)
    (kind : KeyKind) (w : World) :
  key_kind key = Some kind ->
  key_matches key (tbl_keyType table) = false ->
  InsertRow table key w = (w, (false, NilID, Some KeyTypeConflict)).
Proof.
  intros Hkind Hmis. unfold key_matches in Hmis. rewrite Hkind in Hmis.
  destruct key; simpl in Hkind; try discriminate;
    injection Hkind as <-; simpl;
    unfold insertVoid, insertBool, insertInt, insertFloat, insertGeoPoint,
      insertText;
    destruct (tbl_keyType table); simpl in *;
    try reflexivity; try discriminate.
Qed.

(** C10: a byte-sequence key passes the key type check exactly when the
    table's key type is [ShortText]; on a [Text] or [LongText] table
    (and on any other) it gets the key-type-conflict error and the
    sentinel id without a native call. *)
Theorem InsertRow_bytes_only_short_text (table : Table) (key : list byte)
    (w : World) :
  (tbl_keyType table = ShortText ->
   trace (fst (InsertRow table (VBytes key) w))
   = EvExec (grngo_table_insert (tbl_obj table)
               (insert_text (text_of_bytes key))) :: trace w)
  /\ (tbl_keyType table <> ShortText ->
      InsertRow table (VBytes key) w
      = (w, (false, NilID, Some KeyTypeConflict))).
Proof.
  simpl. unfold insertText. split; intros H.
  - rewrite H. simpl. apply insert_with_trace.
  - rewrite bool_decide_eq_false_2 by assumption. reflexivity.
Qed.

(** A key is of the declared kind exactly when there is a key to hand
    to the store, and [InsertRow] then issues the insert-or-find call
    with that key and relays what it answers. *)
Lemma native_key_matches (keyType : DataType) (key : Value) :
  key_matches key keyType = true <-> is_Some (native_key keyType key).
Proof.
  unfold key_matches.
  destruct key, keyType; simpl; split;
    first [discriminate | intros [k Hk]; discriminate | eauto].
Qed.



(** ** The command protocol *)

(** The rune test of [SendEx] holds of no rune: nothing is below ['a']
    and above ['z'] at once. *)
Lemma rune_rejected_never (r : Z) : rune_rejected r = false.
Proof.
  unfold rune_rejected.
  destruct (r <? 97) eqn:Ha; destruct (r >? 122) eqn:Hz;
    rewrite ?andb_false_r; try reflexivity.
  apply Z.ltb_lt in Ha. rewrite Z.gtb_ltb in Hz. apply Z.ltb_lt in Hz. lia.
Qed.

Lemma no_rune_rejected (s : string) :
  existsb rune_rejected (runes s) = false.
Proof.
  induction (runes s) as [|r rs IH]; simpl; [reflexivity|].
  now rewrite rune_rejected_never.
Qed.

Lemma Send_trace (command : string) (w : World) :
  trace (fst (Send command w)) = EvExec (grn_ctx_send command) :: trace w.
Proof.
  unfold Send, bind, exec.
  destruct (nexec (grn_ctx_send command) (store w)) as [s r]; simpl.
  destruct (negb (reply_rc r =? GRN_SUCCESS)); simpl; [reflexivity|].
  destruct (negb (reply_ctx_rc r =? GRN_SUCCESS)); reflexivity.
Qed.

(** A non-empty command name is forwarded whatever characters it is
    made of, when there are no options. *)
Lemma SendEx_forwards_any_name (name : string) (w : World) :
  name <> EmptyString ->
  trace (fst (SendEx name ∅ w)) = EvExec (grn_ctx_send name) :: trace w.
Proof.
  intros Hne. unfold SendEx.
  destruct (String.eqb name EmptyString) eqn:E;
    [apply String.eqb_eq in E; contradiction|].
  rewrite no_rune_rejected, map_to_list_empty. simpl.
  unfold bind, ret. apply Send_trace.
Qed.

(** C2, on the code: a command name with an uppercase letter and a
    digit, and an option key with an uppercase letter and a digit, are
    not refused; the command is handed to [grn_ctx_send]. *)
Theorem SendEx_forwards_malformed (w : World) :
  trace (fst (SendEx "Table1" ∅ w))
  = EvExec (grn_ctx_send "Table1") :: trace w
  /\ trace (fst (SendEx "select" {["Key9" := "x"]} w))
     = EvExec (grn_ctx_send "select --Key9 'x'") :: trace w.
Proof.
  split.
  - apply SendEx_forwards_any_name. discriminate.
  - unfold SendEx. rewrite no_rune_rejected, map_to_list_singleton.
    simpl.
    unfold bind, ret. apply Send_trace.
Qed.

(** ** Writing values *)

Lemma set_with_trace fn column id value w :
  trace (fst (set_with fn column id value w))
  = EvExec (grngo_column_set (col_obj column) id value) :: trace w.
Proof.
  unfold set_with, bind, exec.
  destruct (nexec _ _) as [s ok]; simpl. destruct ok; reflexivity.
Qed.

(** The scalar setters compare the value with the column: a scalar
    value whose shape is not the column's is refused before any native
    call. *)
Lemma SetValue_scalar_conflict (column : Column) (id : Z) (value : Value)
    (kind : KeyKind) (w : World) :
  value_shape value = Some (false, kind) ->
  shape_matches value column = false ->
  SetValue column id value w = (w, Err ValueTypeConflict).
Proof.
  intros Hshape Hmis. unfold shape_matches in Hmis. rewrite Hshape in Hmis.
  destruct value; simpl in Hshape; try discriminate;
    injection Hshape as <-; simpl;
    unfold setBool, setInt, setFloat, setGeoPoint, setText, throw;
    destruct (col_valueType column); simpl in *;
    destruct (col_isVector column); simpl in *;
    try reflexivity; try discriminate.
Qed.

(** C3, on the code: a Bool vector written to a scalar [Int32] column,
    and an Int vector written to a scalar [Int32] column, are handed to
    the store: the setters of vectors do not look at the column's
    vector-ness, and only [setIntVector] looks at its type. *)
Theorem SetValue_vector_reaches_store (table : tptr) (obj : grn_obj)
    (name : string) (valueTable : option tptr) (id : Z)
    (bools : list bool) (ints : list Z) (w : World) :
  let column := mkColumn table obj name Int32 false valueTable in
  trace (fst (SetValue column id (VBoolVector bools) w))
  = EvExec (grngo_column_set obj id (set_bool_vector (vector_of bools)))
    :: trace w
  /\ trace (fst (SetValue column id (VIntVector ints) w))
     = EvExec (grngo_column_set obj id (set_int_vector I32 (vector_of ints)))
       :: trace w.
Proof.
  intros column. split; simpl.
  - unfold setBoolVector. apply set_with_trace.
  - unfold setIntVector. simpl. apply set_with_trace.
Qed.

(** ** Reading values: the size-then-fill protocol *)

Lemma length_written {A} (dst : list A) (ptr : option (list A)) :
  length (written dst ptr) = length dst.
Proof.
  destruct ptr as [l|]; simpl; [|reflexivity].
  rewrite length_take, length_app, length_drop. lia.
Qed.

Ltac probe_event :=
  match goal with
  | |- context [nquery (grngo_column_get_text ?o ?i text_zero) _] =>
      exists (EvQuery (grngo_column_get_text o i text_zero))
  | |- context [nquery (grngo_column_get_bool_vector ?o ?i vector_zero) _] =>
      exists (EvQuery (grngo_column_get_bool_vector o i vector_zero))
  | |- context [nquery (grngo_column_get_int_vector ?o ?t ?i vector_zero) _] =>
      exists (EvQuery (grngo_column_get_int_vector o t i vector_zero))
  | |- context [nquery (grngo_column_get_float_vector ?o ?i vector_zero) _] =>
      exists (EvQuery (grngo_column_get_float_vector o i vector_zero))
  | |- context [nquery (grngo_column_get_geo_point_vector ?o ?i vector_zero) _] =>
      exists (EvQuery (grngo_column_get_geo_point_vector o i vector_zero))
  | |- context [nquery (grngo_column_get_text_vector ?o ?i vector_zero) _] =>
      exists (EvQuery (grngo_column_get_text_vector o i vector_zero))
  end.

Ltac fill_event :=
  match goal with
  | |- context [nquery (grngo_column_get_text ?o ?i (mkText (Some ?b) ?n)) _] =>
      exists (EvQuery (grngo_column_get_text o i (mkText (Some b) n)))
  | |- context [nquery (grngo_column_get_bool_vector ?o ?i
                          (mkVector (Some ?b) ?n)) _] =>
      exists (EvQuery (grngo_column_get_bool_vector o i (mkVector (Some b) n)))
  | |- context [nquery (grngo_column_get_int_vector ?o ?t ?i
                          (mkVector (Some ?b) ?n)) _] =>
      exists (EvQuery (grngo_column_get_int_vector o t i
                         (mkVector (Some b) n)))
  | |- context [nquery (grngo_column_get_float_vector ?o ?i
                          (mkVector (Some ?b) ?n)) _] =>
      exists (EvQuery (grngo_column_get_float_vector o i
                         (mkVector (Some b) n)))
  | |- context [nquery (grngo_column_get_geo_point_vector ?o ?i
                          (mkVector (Some ?b) ?n)) _] =>
      exists (EvQuery (grngo_column_get_geo_point_vector o i
                         (mkVector (Some b) n)))
  end.

Ltac split_ifs :=
  repeat match goal with
         | |- context [if ?b then _ else _] => destruct b
         end.

Ltac two_phase_case :=
  unfold two_phase_read, GetValue; simpl;
  unfold getText, getBoolVector, getIntVector, getFloatVector,
    getGeoPointVector, bind, query, ret, throw, panic; simpl;
  probe_event; split; [reflexivity|]; simpl;
  match goal with
  | |- context [nquery ?q ?s] => destruct (nquery q s) as [[|] [ptr [|n]]]
  end; simpl; try reflexivity;
  [ split; [reflexivity|]; eexists; split; reflexivity
  | fill_event; split;
    [ split_ifs; reflexivity
    | simpl; unfold text_capacity, vector_capacity; simpl;
      now rewrite length_replicate ] ].

Lemma allotted_as_reported (elements : list grngo_text) :
  Forall2 (fun cap rep => rep <> 0%nat -> cap = rep)
    (map text_capacity (map allot_text elements))
    (map text_size elements).
Proof.
  induction elements as [|g gs IH]; simpl; constructor; [|exact IH].
  intros Hne. unfold allot_text.
  destruct (text_size g =? 0)%nat eqn:E.
  - apply Nat.eqb_eq in E. contradiction.
  - unfold text_capacity. simpl. apply length_replicate.
Qed.

Lemma capacity_of_zero (n : nat) :
  map text_capacity (replicate n text_zero) = replicate n 0%nat.
Proof. induction n; simpl; [reflexivity|]. now f_equal. Qed.

Ltac three_phase_case obj id w :=
  unfold three_phase_read, GetValue; simpl;
  unfold getTextVector, bind, query, ret, throw, panic; simpl;
  probe_event; (split; [reflexivity|]); simpl;
  destruct (nquery (grngo_column_get_text_vector obj id vector_zero)
                   (store w)) as [[|] [ptr [|n]]]; simpl; try reflexivity;
  [ split; [reflexivity|]; eexists; split; reflexivity | ];
  set (dst := mkVector (Some (text_zero :: replicate n text_zero)) (S n));
  exists (EvQuery (grngo_column_get_text_vector obj id dst));
  split; [unfold dst; simpl; unfold vector_capacity; simpl;
          now rewrite length_replicate|];
  split; [unfold dst; simpl; now rewrite capacity_of_zero|];
  destruct (nquery (grngo_column_get_text_vector obj id dst) (store w))
    as [[|] [ptr2 size2]] eqn:Hsizes; simpl;
  [| split; [left; reflexivity | discriminate] ];
  match goal with
  | |- context [existsb ?f ?l] => destruct (existsb f l)
  end; simpl; [split; [left; reflexivity | discriminate]|];
  split;
  [ right;
    match goal with
    | |- context [nquery (grngo_column_get_text_vector obj id
                            (mkVector (Some ?b) ?m)) _] =>
        exists (EvQuery (grngo_column_get_text_vector obj id
                           (mkVector (Some b) m)))
    end;
    split; [split_ifs; reflexivity|];
    split; [simpl; unfold vector_capacity; simpl;
            rewrite ?length_map, ?length_written; simpl;
            now rewrite ?length_replicate|];
    eexists _, _; split; [reflexivity|];
    split; [simpl; rewrite Hsizes; reflexivity|];
    apply (allotted_as_reported (written (text_zero :: replicate n text_zero)
                                         ptr2))
  | intros v; split_ifs; simpl; (discriminate || reflexivity) ].

(** C7, as the code has it: every read of variable-length data starts
    with a call on a destination of capacity zero and stops there with
    an empty value when the size is zero; for a text scalar and for
    Bool, Int, Float and GeoPoint vectors a size [n > 0] is followed by
    exactly one more call, on a destination of capacity [n]; for a text
    vector it is followed by a call that learns the element sizes and,
    in a read that returns a value, by a third call that fills the
    elements. *)
Theorem GetValue_size_then_fill (column : Column) (id : Z) (w : World) :
  variable_length column = true ->
  if is_text_vector column then three_phase_read column id w
  else two_phase_read column id w.
Proof.
  destruct column as [t obj name vt iv vtab].
  unfold variable_length, is_text_vector; simpl.
  destruct vt; simpl; destruct iv; simpl; try discriminate; intros _.
  all: try two_phase_case.
  all: three_phase_case obj id w.
Qed.

(** ** The caches *)

Lemma bind_Ok {A B} (m : M A) (k : A -> M B) (w w' : World) (b : B) :
  bind m k w = (w', Ok b) ->
  exists w1 a, m w = (w1, Ok a) /\ k a w1 = (w', Ok b).
Proof.
  unfold bind. destruct (m w) as [w1 [a|e| |]]; try discriminate.
  intros H. eauto.
Qed.

Lemma FindTable_cached (fuel : nat) (name : string) (w : World) (p : tptr) :
  db_tables w !! name = Some p ->
  FindTable (S fuel) name w = (w, Ok p).
Proof.
  intros H. simpl. unfold bind, get_world. rewrite H. reflexivity.
Qed.

Ltac invert_bind H :=
  let w1 := fresh "w" in
  let a := fresh "a" in
  let H1 := fresh "H" in
  apply bind_Ok in H; destruct H as (w1 & a & H1 & H).

Lemma cache_table_Ok (name : string) (p : tptr) (w w' : World) (u : unit) :
  cache_table name p w = (w', Ok u) -> db_tables w' !! name = Some p.
Proof.
  unfold cache_table. intros H. injection H as <- _. simpl.
  apply lookup_insert_eq.
Qed.

Lemma FindTable_caches (fuel : nat) (name : string) (w w' : World)
    (p : tptr) :
  FindTable fuel name w = (w', Ok p) -> db_tables w' !! name = Some p.
Proof.
  destruct fuel as [|fuel]; simpl; [discriminate|].
  intros H. invert_bind H. unfold get_world in H0. injection H0 as <- <-.
  destruct (db_tables w !! name) as [q|] eqn:Hc.
  - unfold ret in H. injection H as <- <-. exact Hc.
  - invert_bind H. destruct a as [obj|]; [|discriminate].
    invert_bind H. destruct (negb (fst a)); [discriminate|].
    invert_bind H. invert_bind H.
    destruct (negb (fst a1)); [discriminate|].
    invert_bind H. invert_bind H. invert_bind H.
    unfold ret in H. injection H as <- <-.
    eapply cache_table_Ok; eassumption.
Qed.

Lemma table_at_Ok (p : tptr) (w w' : World) (t : Table) :
  table_at p w = (w', Ok t) -> w' = w /\ table_heap w !! p = Some t.
Proof.
  unfold table_at. destruct (table_heap w !! p) as [t'|]; [|discriminate].
  intros H. injection H as <- <-. auto.
Qed.

Lemma cache_column_Ok (table : tptr) (name : string) (c : cptr)
    (w w' : World) (u : unit) :
  cache_column table name c w = (w', Ok u) ->
  exists t, table_heap w' !! table = Some t /\ tbl_columns t !! name = Some c.
Proof.
  unfold cache_column.
  destruct (table_heap w !! table) as [t|] eqn:Ht; [|discriminate].
  intros H. injection H as <- _. simpl. eexists. split.
  - apply list_lookup_insert_eq. eapply lookup_lt_Some; eassumption.
  - simpl. apply lookup_insert_eq.
Qed.

Lemma findColumn_caches (fuel : nat) (table : tptr) (name : string)
    (w w' : World) (c : cptr) :
  findColumn fuel table name w = (w', Ok c) ->
  exists t, table_heap w' !! table = Some t /\ tbl_columns t !! name = Some c.
Proof.
  unfold findColumn. intros H. invert_bind H.
  apply table_at_Ok in H0 as [-> Ht].
  destruct (tbl_columns a !! name) as [q|] eqn:Hc.
  - unfold ret in H. injection H as <- <-. eauto.
  - invert_bind H. destruct a0 as [obj|]; [|discriminate].
    invert_bind H. destruct a0 as [[valueType isVector] valueTable].
    invert_bind H. invert_bind H.
    unfold ret in H. injection H as <- <-.
    eapply cache_column_Ok; eassumption.
Qed.

Lemma FindColumn_cached (fuel : nat) (table : tptr) (name : string)
    (w : World) (t : Table) (c : cptr) :
  table_heap w !! table = Some t ->
  tbl_columns t !! name = Some c ->
  FindColumn fuel table name w = (w, Ok c).
Proof.
  intros Ht Hc. unfold FindColumn, bind, table_at. rewrite Ht, Hc.
  reflexivity.
Qed.

Lemma FindColumn_caches (fuel : nat) (table : tptr) (name : string)
    (w w' : World) (c : cptr) :
  FindColumn fuel table name w = (w', Ok c) ->
  exists t, table_heap w' !! table = Some t /\ tbl_columns t !! name = Some c.
Proof.
  unfold FindColumn. intros H. invert_bind H.
  apply table_at_Ok in H0 as [-> Ht].
  destruct (tbl_columns a !! name) as [q|] eqn:Hc.
  - unfold ret in H. injection H as <- <-. eauto.
  - destruct (negb (contains_byte dot name)).
    + eapply findColumn_caches; eassumption.
    + invert_bind H. invert_bind H. invert_bind H.
      destruct a2 as [column isVector].
      invert_bind H. destruct a2 as [obj|]; [|discriminate].
      invert_bind H. invert_bind H.
      unfold ret in H. injection H as <- <-.
      eapply cache_column_Ok; eassumption.
Qed.

(** ** Broken descriptors *)

Lemma bind_get_world {B} (k : World -> M B) (w : World) :
  bind get_world k w = k w w.
Proof. reflexivity. Qed.

Lemma bind_query {R B} (q : NativeQuery R) (k : R -> M B) (w : World) :
  bind (query q) k w
  = k (nquery q (store w))
      (mkWorld (store w) (EvQuery q :: trace w) (db_tables w)
               (table_heap w) (column_heap w)).
Proof. reflexivity. Qed.

Lemma bind_run {A B} (m : M A) (k : A -> M B) (w w1 : World)
    (r : result A) :
  m w = (w1, r) ->
  bind m k w = match r with
               | Ok a => k a w1
               | Err e => (w1, Err e)
               | Panic => (w1, Panic)
               | OutOfFuel => (w1, OutOfFuel)
               end.
Proof. intros H. unfold bind. rewrite H. reflexivity. Qed.

Lemma reference_table_uncached (s : Store) (name : string)
    (find : string -> M tptr) (name' : string) (info : grngo_type_info)
    (w : World) :
  (forall n w0, uncached s name w0 -> uncached s name (fst (find n w0))) ->
  uncached s name w ->
  uncached s name (fst (reference_table find name' info w)).
Proof.
  intros Hfind Hw. unfold reference_table.
  destruct (ref_table info) as [ref|]; [|exact Hw].
  destruct (decide (data_type info = Void)); [exact Hw|].
  rewrite bind_query.
  destruct (nquery (grngo_table_get_name ref) (store w)) as [n'|];
    [|exact Hw].
  match goal with
  | |- context [bind (find n') ?k ?w1] =>
      assert (Hw1 : uncached s name w1) by exact Hw;
      specialize (Hfind n' w1 Hw1);
      destruct (find n' w1) as [w2 r] eqn:E;
      rewrite (bind_run _ _ _ _ _ E)
  end.
  destruct r; exact Hfind.
Qed.

Lemma reference_table_Ok (find : string -> M tptr) (name' : string)
    (info : grngo_type_info) (w : World) (t : option tptr) :
  snd (reference_table find name' info w) = Ok t ->
  reference_to_void (true, info) = false.
Proof.
  unfold reference_table, reference_to_void. simpl.
  destruct (ref_table info) as [ref|]; [|reflexivity].
  destruct (decide (data_type info = Void)) as [Hv|Hv].
  - discriminate.
  - intros _. now apply bool_decide_eq_false_2.
Qed.

Lemma reference_table_void (find : string -> M tptr) (name' : string)
    (info : grngo_type_info) (w : World) :
  reference_to_void (true, info) = true ->
  reference_table find name' info w = (w, Err (ReferenceToVoid name')).
Proof.
  unfold reference_table, reference_to_void. simpl.
  destruct (ref_table info) as [ref|]; [|discriminate].
  intros H. apply bool_decide_eq_true_1 in H.
  destruct (decide (data_type info = Void)); [reflexivity|contradiction].
Qed.

Lemma FindTable_S (fuel : nat) (name : string) (w : World) :
  FindTable (S fuel) name w
  = match db_tables w !! name with
    | Some table => (w, Ok table)
    | None =>
        bind (query (grngo_find_table name))
          (fun obj =>
             match obj with
             | None => throw (TableNotFound name)
             | Some obj =>
                 keyReply <- query (grngo_table_get_key_info obj) ;;
                 if negb (fst keyReply)
                 then throw (NativeFailed "grngo_table_get_key_info" name)
                 else
                   keyTable <- reference_table (FindTable fuel) name
                                 (snd keyReply) ;;
                   valueReply <- query (grngo_table_get_value_info obj) ;;
                   if negb (fst valueReply)
                   then throw (NativeFailed "grngo_table_get_value_info"
                                            name)
                   else
                     valueTable <- reference_table (FindTable fuel) name
                                     (snd valueReply) ;;
                     table <- newTable obj name (data_type (snd keyReply))
                                keyTable (data_type (snd valueReply))
                                valueTable ;;
                     _ <- cache_table name table ;;
                     ret table
             end) w
    end.
Proof.
  simpl. rewrite bind_get_world.
  destruct (db_tables w !! name); reflexivity.
Qed.

Lemma FindTable_uncached (s : Store) (name : string) (fuel : nat) :
  refers_to_void s name = true ->
  forall (n : string) (w : World),
    uncached s name w ->
    uncached s name (fst (FindTable fuel n w))
    /\ (n = name -> forall p, snd (FindTable fuel n w) <> Ok p).
Proof.
  intros Hvoid. induction fuel as [|fuel IH]; intros n w Hw.
  - simpl. split; [exact Hw|intros _ p; discriminate].
  - assert (Hfind : forall n0 w0, uncached s name w0 ->
                      uncached s name (fst (FindTable fuel n0 w0)))
      by (intros n0 w0 H0; apply (IH n0 w0 H0)).
    rewrite FindTable_S.
    destruct (db_tables w !! n) as [q|] eqn:Hn.
    { split; [exact Hw|]. intros ->. destruct Hw as [_ Hw]. congruence. }
    rewrite bind_query.
    destruct Hw as [Hs Hc].
    unfold refers_to_void, key_descriptor, value_descriptor in Hvoid.
    destruct (nquery (grngo_find_table n) (store w)) as [obj|] eqn:Hobj.
    2: { split; [split; simpl; assumption|intros _ p; simpl; discriminate]. }
    rewrite bind_query. cbn [store].
    destruct (nquery (grngo_table_get_key_info obj) (store w))
      as [kok kinfo] eqn:Hk.
    simpl fst; simpl snd.
    destruct kok; cbn [negb]; cbv iota.
    2: { split; [split; simpl; assumption|intros _ p; simpl; discriminate]. }
    match goal with
    | |- context [bind (reference_table ?f ?nm ?i) ?k ?w1] =>
        assert (Hw1 : uncached s name w1) by (split; assumption);
        pose proof (reference_table_uncached s name f nm i w1 Hfind Hw1)
          as Hkey;
        pose proof (reference_table_Ok f nm i w1) as HkeyOk;
        destruct (reference_table f nm i w1) as [w2 rk] eqn:Ek;
        rewrite (bind_run _ _ _ _ _ Ek)
    end.
    simpl in Hkey, HkeyOk.
    destruct rk as [keyTable|e| |];
      try (split; [exact Hkey|intros _ p; simpl; discriminate]).
    specialize (HkeyOk keyTable eq_refl).
    rewrite bind_query. cbn [store].
    destruct Hkey as [Hs2 Hc2].
    destruct (nquery (grngo_table_get_value_info obj) (store w2))
      as [vok vinfo] eqn:Hv.
    simpl fst; simpl snd.
    destruct vok; cbn [negb]; cbv iota.
    2: { split; [split; simpl; assumption|intros _ p; simpl; discriminate]. }
    match goal with
    | |- context [bind (reference_table ?f ?nm ?i) ?k ?w1] =>
        assert (Hw3 : uncached s name w1) by (split; assumption);
        pose proof (reference_table_uncached s name f nm i w1 Hfind Hw3)
          as Hval;
        pose proof (reference_table_Ok f nm i w1) as HvalOk;
        destruct (reference_table f nm i w1) as [w4 rv] eqn:Ev;
        rewrite (bind_run _ _ _ _ _ Ev)
    end.
    simpl in Hval, HvalOk.
    destruct rv as [valueTable|e| |];
      try (split; [exact Hval|intros _ p; simpl; discriminate]).
    specialize (HvalOk valueTable eq_refl).
    unfold bind, newTable, alloc_table, cache_table, ret. simpl.
    destruct Hval as [Hs4 Hc4].
    destruct (decide (n = name)) as [->|Hne].
    + exfalso. rewrite <- Hs, Hobj, Hk in Hvoid.
      rewrite Hs, <- Hs2, Hv in Hvoid.
      rewrite HkeyOk, HvalOk in Hvoid. discriminate.
    + split; [|contradiction].
      split; [exact Hs4|]. simpl.
      rewrite lookup_insert_ne by congruence. exact Hc4.
Qed.

(** C9, as amended: when the key or the value descriptor of a table
    not yet cached is a reference to void, [FindTable] never returns a
    Table and leaves nothing cached under the name.  It returns the
    reference-to-void error when the key descriptor is the broken one;
    when the value descriptor is, the key side is dealt with first, and
    [FindTable] returns the reference-to-void error if the key side
    resolves and otherwise stops as the key side does: with its error,
    or without returning. *)
Theorem FindTable_reference_to_void (fuel : nat) (name : string)
    (w : World) :
  db_tables w !! name = None ->
  refers_to_void (store w) name = true ->
  (forall p, snd (FindTable fuel name w) <> Ok p)
  /\ db_tables (fst (FindTable fuel name w)) !! name = None
  /\ (forall k, key_descriptor (store w) name = Some k ->
                reference_to_void k = true ->
                snd (FindTable (S fuel) name w)
                = Err (ReferenceToVoid name))
  /\ (forall v, value_descriptor (store w) name = Some v ->
                reference_to_void v = true ->
                snd (FindTable (S fuel) name w)
                = match key_side fuel name w with
                  | Ok _ => Err (ReferenceToVoid name)
                  | Err e => Err e
                  | Panic => Panic
                  | OutOfFuel => OutOfFuel
                  end).
Proof.
  intros Hc Hvoid.
  destruct (FindTable_uncached (store w) name fuel Hvoid name w)
    as [[_ Hcache] Hres]; [split; [reflexivity|exact Hc]|].
  split; [exact (Hres eq_refl)|]. split; [exact Hcache|].
  split.
  - intros [kok kinfo] Hk Hkv.
    unfold key_descriptor in Hk. rewrite FindTable_S, Hc, bind_query.
    destruct (nquery (grngo_find_table name) (store w)) as [obj|];
      [|discriminate].
    injection Hk as Hk. rewrite bind_query. cbn [store]. rewrite Hk.
    assert (kok = true) as ->
      by (unfold reference_to_void in Hkv; simpl in Hkv;
          now destruct kok).
    simpl fst; simpl snd; cbn [negb]; cbv iota.
    match goal with
    | |- context [bind (reference_table ?f ?nm ?i) ?k ?w1] =>
        rewrite (bind_run _ _ _ _ _ (reference_table_void f nm i w1 Hkv))
    end.
    reflexivity.
  - intros [vok vinfo] Hv Hvv.
    unfold value_descriptor in Hv. unfold key_side.
    rewrite FindTable_S, Hc, bind_query.
    destruct (nquery (grngo_find_table name) (store w)) as [obj|];
      [|discriminate].
    injection Hv as Hv. rewrite bind_query. cbn [store]. cbv zeta.
    destruct (negb (fst (nquery (grngo_table_get_key_info obj) (store w))));
      [reflexivity|].
    match goal with
    | |- context [bind (reference_table ?f ?nm ?i) ?k ?w1] =>
        change w1 with
          (fst (query (grngo_table_get_key_info obj)
                  (fst (query (grngo_find_table name) w))));
        pose proof (reference_table_uncached (store w) name f nm i
                      (fst (query (grngo_table_get_key_info obj)
                              (fst (query (grngo_find_table name) w)))))
          as Hinv;
        destruct (reference_table f nm i
                    (fst (query (grngo_table_get_key_info obj)
                            (fst (query (grngo_find_table name) w)))))
          as [w2 rk] eqn:Ek;
        rewrite (bind_run _ _ _ _ _ Ek)
    end.
    simpl snd. destruct rk as [keyTable|e| |]; try reflexivity.
    rewrite bind_query.
    assert (Hstore : store w2 = store w).
    { apply Hinv.
      - intros n0 w0 H0.
        apply (FindTable_uncached (store w) name fuel Hvoid n0 w0 H0).
      - split; [reflexivity|exact Hc]. }
    rewrite Hstore, Hv.
    assert (vok = true) as ->
      by (unfold reference_to_void in Hvv; simpl in Hvv;
          now destruct vok).
    simpl fst; simpl snd; cbn [negb]; cbv iota.
    match goal with
    | |- context [bind (reference_table ?f ?nm ?i) ?k ?w1] =>
        rewrite (bind_run _ _ _ _ _ (reference_table_void f nm i w1 Hvv))
    end.
    reflexivity.
Qed.

(** ** Dotted paths *)

Lemma column_at_Ok (p : cptr) (w w' : World) (c : Column) :
  column_at p w = (w', Ok c) -> w' = w /\ column_heap w !! p = Some c.
Proof.
  unfold column_at. destruct (column_heap w !! p) as [c'|]; [|discriminate].
  intros H. injection H as <- <-. auto.
Qed.

Lemma last_cons {A} (l : list A) (x d : A) :
  List.last (x :: l) d = List.last l x.
Proof.
  revert x d. induction l as [|y l IH]; intros x d; [reflexivity|].
  change (List.last (x :: y :: l) d) with (List.last (y :: l) d).
  rewrite !IH. reflexivity.
Qed.

(** What the loop of [FindColumn] returns: the column of the last
    segment, and the OR of the vector-ness seen so far; it has met at
    most one vector. *)
Lemma FindColumn_loop_Ok (fuel : nat) (columnNames : list string) :
  forall (column : Column) (isVector : bool) (w w' : World)
         (last : Column) (isVector' : bool),
    FindColumn_loop fuel columnNames column isVector w
    = (w', Ok (last, isVector')) ->
    exists columns,
      walked fuel column w columnNames columns w'
      /\ last = List.last columns column
      /\ isVector' = isVector || existsb col_isVector columns
      /\ ((if isVector then 1 else 0) + vectors columns <= 1)%nat.
Proof.
  induction columnNames as [|columnName rest IH];
    intros column isVector w w' last isVector' H; simpl in H.
  - unfold ret in H. injection H as <- <- <-. exists []. simpl.
    split; [constructor|]. split; [reflexivity|].
    split; [now rewrite orb_false_r|]. unfold vectors. simpl.
    destruct isVector; lia.
  - destruct (col_valueTable column) as [vt|] eqn:Hvt; [|discriminate].
    invert_bind H. invert_bind H.
    apply column_at_Ok in H1 as [-> Hnext].
    destruct (col_isVector a0) eqn:Hv.
    + destruct isVector; [discriminate|].
      apply IH in H as (columns & Hwalk & Hlast & Hor & Hcount).
      exists (a0 :: columns). split; [econstructor; eassumption|].
      split; [now rewrite last_cons|].
      split; [simpl; rewrite Hv; assumption|].
      unfold vectors in *. simpl. rewrite Hv. simpl. simpl in Hcount. lia.
    + apply IH in H as (columns & Hwalk & Hlast & Hor & Hcount).
      exists (a0 :: columns). split; [econstructor; eassumption|].
      split; [now rewrite last_cons|].
      split; [simpl; rewrite Hv; assumption|].
      unfold vectors in *. simpl. rewrite Hv. exact Hcount.
Qed.

(** A second vector segment is an error. *)
Lemma FindColumn_loop_vector_of_vector (fuel : nat) (column : Column)
    (valueTable : tptr) (columnName : string) (rest : list string)
    (w w1 : World) (p : cptr) (next : Column) :
  col_valueTable column = Some valueTable ->
  findColumn fuel valueTable columnName w = (w1, Ok p) ->
  column_heap w1 !! p = Some next ->
  col_isVector next = true ->
  FindColumn_loop fuel (columnName :: rest) column true w
  = (w1, Err VectorOfVector).
Proof.
  intros Hvt Hfind Hnext Hv. simpl. rewrite Hvt.
  rewrite (bind_run _ _ _ _ _ Hfind).
  assert (Hat : column_at p w1 = (w1, Ok next))
    by (unfold column_at; now rewrite Hnext).
  rewrite (bind_run _ _ _ _ _ Hat). now rewrite Hv.
Qed.

(** The composite column of a dotted path not yet cached: the value
    type is that of the last segment, the vector-ness the OR over all
    segments, of which at most one is a vector -- and the reference
    table is that of the first segment. *)
Lemma FindColumn_composite (fuel : nat) (table : tptr) (name : string)
    (t : Table) (w w' : World) (p : cptr) :
  table_heap w !! table = Some t ->
  tbl_columns t !! name = None ->
  contains_byte dot name = true ->
  FindColumn fuel table name w = (w', Ok p) ->
  exists (w1 w2 : World) (p1 : cptr) (first : Column)
         (columns : list Column) (obj : grn_obj),
    findColumn fuel table (hd EmptyString (split dot name)) w = (w1, Ok p1)
    /\ column_heap w1 !! p1 = Some first
    /\ walked fuel first w1 (tl (split dot name)) columns w2
    /\ column_heap w' !! p
       = Some (mkColumn table obj name
                 (col_valueType (List.last columns first))
                 (existsb col_isVector (first :: columns))
                 (col_valueTable first))
    /\ (vectors (first :: columns) <= 1)%nat.
Proof.
  intros Ht Hc Hdot H. unfold FindColumn in H.
  assert (Hat : table_at table w = (w, Ok t))
    by (unfold table_at; now rewrite Ht).
  rewrite (bind_run _ _ _ _ _ Hat), Hc, Hdot in H. simpl negb in H.
  cbv iota in H.
  invert_bind H. invert_bind H. apply column_at_Ok in H1 as [-> Hfirst].
  invert_bind H. destruct a1 as [last isVector].
  apply FindColumn_loop_Ok in H1 as (columns & Hwalk & Hlast & Hor & Hcount).
  invert_bind H. destruct a1 as [obj|]; [|discriminate].
  invert_bind H. invert_bind H. unfold ret in H. injection H as <- <-.
  unfold query in H1. injection H1 as <- _.
  unfold newColumn, alloc_column in H2. simpl in H2. injection H2 as <- <-.
  unfold cache_column in H3. simpl in H3.
  destruct (table_heap w1 !! table) as [t2|]; [|discriminate].
  injection H3 as <- _. simpl.
  exists w0, w1, a, a0, columns, obj.
  split; [assumption|]. split; [assumption|]. split; [assumption|].
  split.
  - rewrite lookup_app_r by lia. rewrite Nat.sub_diag. simpl.
    rewrite Hlast, Hor. reflexivity.
  - unfold vectors in *. simpl.
    destruct (col_isVector a0); simpl in *; lia.
Qed.

(** ** Column creation *)

(** With a compression type set, the [flags] option starts with the
    compression flag: the column-type flag assigned just before is
    overwritten, and the LZO flag is spelt [COMRESS_LZO]. *)
Lemma CreateColumn_options_flags (fuel : nat) (table : Table)
    (name : string) (columnType : ColumnType) (lzo : bool)
    (section weight position : bool) (source : string) (w : World) :
  match columnType with ColumnType_other _ => False | _ => True end ->
  exists optionsMap,
    CreateColumn_options fuel table name "Int32"
      (mkColumnOptions columnType
         (if lzo then LzoCompression else ZlibCompression)
         section weight position source) w
    = (w, Ok optionsMap)
    /\ optionsMap !! "flags"
       = Some ((if lzo then "|COMRESS_LZO" else "|COMPRESS_ZLIB")
               ++ (if section then "|WITH_SECTION" else EmptyString)
               ++ (if weight then "|WITH_WEIGHT" else EmptyString)
               ++ (if position then "|WITH_POSITION" else EmptyString))%string.
Proof.
  intros Hct. unfold CreateColumn_options. simpl.
  unfold bind, ret. simpl.
  destruct columnType; try contradiction;
    destruct lzo, section, weight, position; simpl;
    destruct (String.eqb source EmptyString); simpl;
    eexists; (split; [reflexivity|]);
    unfold append_flag;
    repeat (rewrite lookup_insert_eq || rewrite lookup_insert_ne by done);
    simpl; reflexivity.
Qed.

End Properties.

(** * The code at work on the small engine *)

Section Examples.

#[local] Existing Instance Demo.engine.


Lemma InsertRow_key_type_conflict_witness :
  InsertRow Demo.textKeyed (VFloat (mkFloat64 0)) Demo.world0
  = (Demo.world0, (false, NilID, Some KeyTypeConflict)).
Proof.
  apply (InsertRow_key_type_conflict Demo.textKeyed (VFloat (mkFloat64 0))
           KindFloat Demo.world0); reflexivity.
Defined.

Lemma InsertRow_bytes_only_short_text_witness :
  trace (fst (InsertRow Demo.tableA (VBytes [x61]) Demo.world0))
  = [EvExec (grngo_table_insert 1%N (insert_text (mkText (Some [x61]) 1)))]
  /\ InsertRow Demo.textKeyed (VBytes [x61]) Demo.world0
     = (Demo.world0, (false, NilID, Some KeyTypeConflict)).
Proof.
  split.
  - apply (proj1 (InsertRow_bytes_only_short_text Demo.tableA [x61]
                    Demo.world0)).
    reflexivity.
  - apply (proj2 (InsertRow_bytes_only_short_text Demo.textKeyed [x61]
                    Demo.world0)).
    discriminate.
Defined.



Lemma GetValue_size_then_fill_witness :
  two_phase_read Demo.nameColumn 1 Demo.world0
  /\ three_phase_read Demo.tagsColumn 1 Demo.world0.
Proof.
  split.
  - exact (GetValue_size_then_fill Demo.nameColumn 1 Demo.world0 eq_refl).
  - exact (GetValue_size_then_fill Demo.tagsColumn 1 Demo.world0 eq_refl).
Defined.

(** C7, refuted as stated: the read of a text vector of two elements
    does not follow the two-phase protocol -- after the first call has
    reported the size, two more native calls are issued. *)
Lemma GetValue_text_vector_not_two_phase :
  ~ two_phase_read Demo.tagsColumn 1 Demo.world0.
Proof.
  unfold two_phase_read. intros (probe & _ & H).
  assert (Hlen : length (trace (fst (GetValue Demo.tagsColumn 1
                                       Demo.world0))) = 3%nat)
    by (vm_compute; reflexivity).
  destruct (reported probe (store Demo.world0)) as [[[|] [|n]]|].
  - destruct H as [H _]. rewrite H in Hlen. discriminate.
  - destruct H as (fill & H & _). rewrite H in Hlen. discriminate.
  - rewrite H in Hlen. discriminate.
  - rewrite H in Hlen. discriminate.
  - rewrite H in Hlen. discriminate.
Qed.

(** C1, on the code: resolving [r.v] on [A], where [A.r] refers to [B]
    and [B.v] is a plain [Int32] column, yields a column with the value
    type of the last segment and the reference table of the first: the
    last-resolved segment [v] has no reference table, the composite has
    table [B]. *)
Theorem FindColumn_reference_table_of_first_segment :
  let run := (c <- Demo.resolve "r.v" ;; column_at c) Demo.world0 in
  snd run = Ok (mkColumn 0%nat 100%N "r.v" Int32 false (Some 1%nat))
  /\ column_heap (fst run) !! 0%nat
     = Some (mkColumn 0%nat 11%N "r" ShortText false (Some 1%nat))
  /\ column_heap (fst run) !! 1%nat
     = Some (mkColumn 1%nat 21%N "v" Int32 false None).
Proof. vm_compute. repeat split; reflexivity. Qed.

(** C4, on the code: creating a scalar [Int32] column with zlib
    compression and [WithWeight] sends [--flags
    '|COMPRESS_ZLIB|WITH_WEIGHT'] -- the column-type flag is gone -- and
    with LZO compression the flag sent is [|COMRESS_LZO]. *)
Theorem CreateColumn_sends_compression_flag_only :
  trace (fst (Demo.create
                (mkColumnOptions ScalarColumn ZlibCompression
                   false true false EmptyString) Demo.world0))
  = [EvQuery (grn_obj_column 1%N "c"); EvExec grn_ctx_recv;
     EvExec (grn_ctx_send
       "column_create --name 'c' --flags '|COMPRESS_ZLIB|WITH_WEIGHT' --type 'Int32' --table 'A'");
     EvQuery (grngo_table_get_value_info 1%N);
     EvQuery (grngo_table_get_key_info 1%N);
     EvQuery (grngo_find_table "A")]
  /\ trace (fst (Demo.create
                   (mkColumnOptions VectorColumn LzoCompression
                      false false false EmptyString) Demo.world0))
     = [EvQuery (grn_obj_column 1%N "c"); EvExec grn_ctx_recv;
        EvExec (grn_ctx_send
          "column_create --name 'c' --flags '|COMRESS_LZO' --type 'Int32' --table 'A'");
        EvQuery (grngo_table_get_value_info 1%N);
        EvQuery (grngo_table_get_key_info 1%N);
        EvQuery (grngo_find_table "A")].
Proof. split; vm_compute; reflexivity. Qed.

End Examples.

(** * Further properties of the code *)

Section MoreProperties.
Context {NL : Native}.

Ltac invert_bind H :=
  let w1 := fresh "w" in
  let a := fresh "a" in
  let H1 := fresh "H" in
  apply bind_Ok in H; destruct H as (w1 & a & H1 & H).

(** ** Commands *)

Lemma escape_cons (c : ascii) (value : string) :
  escape (String c value)
  = if Ascii.eqb c backslash
    then String backslash (String backslash (escape value))
    else if Ascii.eqb c quote
    then String backslash (String quote (escape value))
    else String c (escape value).
Proof.
  unfold escape. simpl.
  destruct (Ascii.eqb c backslash) eqn:Eb.
  - reflexivity.
  - simpl. destruct (Ascii.eqb c quote); reflexivity.
Qed.

(** X2: the escaping of option values loses nothing and leaves no
    quote that could end the quoted value early. *)
Theorem escape_round_trip (value : string) :
  unescape (escape value) = value /\ bare_quote (escape value) = false.
Proof.
  induction value as [|c value [IHu IHq]]; [split; reflexivity|].
  rewrite escape_cons.
  destruct (Ascii.eqb c backslash) eqn:Eb.
  - apply Ascii.eqb_eq in Eb. subst c. simpl. rewrite IHu. auto.
  - destruct (Ascii.eqb c quote) eqn:Eq.
    + apply Ascii.eqb_eq in Eq. subst c. simpl. rewrite IHu. auto.
    + simpl. rewrite Eb, Eq, IHu. auto.
Qed.

Lemma SendEx_options_nonempty (options : list (string * string)) :
  Forall (fun o => fst o <> EmptyString) options ->
  forall commandParts w,
    SendEx_options options commandParts w
    = (w, Ok (commandParts ++ map option_part options)%list).
Proof.
  induction 1 as [|[key value] options Hkey _ IH]; intros commandParts w.
  - simpl. now rewrite app_nil_r.
  - simpl in *.
    destruct (String.eqb key EmptyString) eqn:E;
      [apply String.eqb_eq in E; contradiction|].
    rewrite no_rune_rejected. rewrite IH.
    rewrite <- app_assoc. reflexivity.
Qed.

(** X1: a command with a non-empty name and non-empty option keys is
    sent as one line: the name, then [--key 'value'] for every option
    with the value escaped, separated by blanks -- and nothing else is
    sent. *)
Theorem SendEx_command_line (name : string) (options : gmap string string)
    (w : World) :
  name <> EmptyString ->
  options !! EmptyString = None ->
  trace (fst (SendEx name options w))
  = EvExec (grn_ctx_send
              (join " " (name :: map option_part (map_to_list options))))
    :: trace w.
Proof.
  intros Hname Hkeys. unfold SendEx.
  destruct (String.eqb name EmptyString) eqn:E;
    [apply String.eqb_eq in E; contradiction|].
  rewrite no_rune_rejected.
  assert (Hall : Forall (fun o => fst o <> EmptyString)
                        (map_to_list options)).
  { apply Forall_forall. intros [key value] Hin Hempty. simpl in Hempty.
    subst key. apply elem_of_map_to_list in Hin. congruence. }
  unfold bind. rewrite (SendEx_options_nonempty _ Hall). simpl.
  apply Send_trace.
Qed.

Lemma SendEx_options_empty_key (options : list (string * string))
    (value : string) :
  (EmptyString, value) ∈ options ->
  forall commandParts w,
    SendEx_options options commandParts w
    = (w, Err (InvalidOption EmptyString)).
Proof.
  induction options as [|[key v] options IH]; intros Hin commandParts w.
  - inversion Hin.
  - simpl. destruct (String.eqb key EmptyString) eqn:E.
    + apply String.eqb_eq in E. subst key. reflexivity.
    + rewrite no_rune_rejected. apply IH.
      apply elem_of_cons in Hin as [Heq|Hin]; [|exact Hin].
      injection Heq as <- _. discriminate.
Qed.

(** X3: the empty command name and the empty option key are refused
    before anything is sent, wherever the empty key comes in the
    iteration over the options. *)
Theorem SendEx_refuses_empty (name : string) (options : gmap string string)
    (w : World) :
  (name = EmptyString ->
   SendEx name options w = (w, Err (InvalidCommand EmptyString)))
  /\ (name <> EmptyString -> is_Some (options !! EmptyString) ->
      SendEx name options w = (w, Err (InvalidOption EmptyString))).
Proof.
  split.
  - intros ->. reflexivity.
  - intros Hname [value Hkey]. unfold SendEx.
    destruct (String.eqb name EmptyString) eqn:E;
      [apply String.eqb_eq in E; contradiction|].
    rewrite no_rune_rejected. unfold bind.
    rewrite (SendEx_options_empty_key _ value); [reflexivity|].
    now apply elem_of_map_to_list.
Qed.

(** ** Queries *)

Lemma Send_returns (command : string) (w : World) :
  snd (Send command w) = Ok tt \/ exists e, snd (Send command w) = Err e.
Proof.
  unfold Send, bind, exec.
  destruct (nexec (grn_ctx_send command) (store w)) as [s r]; simpl.
  destruct (negb (reply_rc r =? GRN_SUCCESS)); simpl; [eauto|].
  destruct (negb (reply_ctx_rc r =? GRN_SUCCESS)); simpl; eauto.
Qed.

Lemma Recv_trace (w : World) :
  trace (fst (Recv w)) = EvExec grn_ctx_recv :: trace w.
Proof.
  unfold Recv, bind, exec.
  destruct (nexec grn_ctx_recv (store w)) as [s r]; simpl.
  destruct (negb (reply_rc r =? GRN_SUCCESS)); simpl; [reflexivity|].
  destruct (negb (reply_ctx_rc r =? GRN_SUCCESS)); reflexivity.
Qed.

Lemma Recv_returns (w : World) :
  (exists b, snd (Recv w) = Ok b) \/ exists e, snd (Recv w) = Err e.
Proof.
  unfold Recv, bind, exec.
  destruct (nexec grn_ctx_recv (store w)) as [s r]; simpl.
  destruct (negb (reply_rc r =? GRN_SUCCESS)); simpl; [eauto|].
  destruct (negb (reply_ctx_rc r =? GRN_SUCCESS)); simpl; eauto.
Qed.

Lemma Query_run (command : string) (w : World) :
  Query command w
  = match snd (Send command w) with
    | Err e => (fst (Recv (fst (Send command w))), Err e)
    | _ => Recv (fst (Send command w))
    end.
Proof.
  unfold Query, bind, attempt.
  pose proof (Send_returns command w) as Hret.
  destruct (Send command w) as [w1 r]. simpl in *.
  destruct Hret as [->|[e ->]]; [reflexivity|].
  pose proof (Recv_returns w1) as Hrr.
  destruct (Recv w1) as [w2 r2]. simpl in *.
  destruct Hrr as [[b ->]|[e2 ->]]; reflexivity.
Qed.

(** X4: [Query] always makes exactly the two calls send and receive,
    in this order, also when the send fails; and the error of a failed
    send is the one returned, whatever the receive answers. *)
Theorem Query_sends_then_receives (command : string) (w : World) :
  trace (fst (Query command w))
  = EvExec grn_ctx_recv :: EvExec (grn_ctx_send command) :: trace w
  /\ snd (Query command w)
     = match snd (Send command w) with
       | Err e => Err e
       | _ => snd (Recv (fst (Send command w)))
       end.
Proof.
  rewrite Query_run. split.
  - destruct (snd (Send command w)); simpl;
      rewrite Recv_trace, Send_trace; reflexivity.
  - destruct (snd (Send command w)); reflexivity.
Qed.

(** ** Integer keys and values *)

Lemma int_cast_in_range (iw : IntWidth) (z : Z) :
  in_range iw z -> int_cast iw z = z.
Proof.
  unfold in_range.
  destruct iw; simpl; unfold wrap_signed, wrap_unsigned; intros H;
    try (rewrite Z.mod_small by lia; lia).
Qed.

Lemma int_cast_congruent (iw : IntWidth) (z z' : Z) :
  (z - z') mod 2 ^ int_bits iw = 0 -> int_cast iw z = int_cast iw z'.
Proof.
  intros H.
  assert (Hmod : forall a, (z + a) mod 2 ^ int_bits iw
                           = (z' + a) mod 2 ^ int_bits iw).
  { intros a. replace (z + a) with ((z' + a) + (z - z')) by lia.
    rewrite Z.add_mod by (destruct iw; simpl; lia).
    rewrite H, Z.add_0_r, Z.mod_mod by (destruct iw; simpl; lia).
    reflexivity. }
  destruct iw; simpl in *; unfold wrap_signed, wrap_unsigned;
    first [ now rewrite (Hmod _)
          | now rewrite <- (Z.add_0_r z), <- (Z.add_0_r z'), (Hmod 0) ].
Qed.

(** X5: an integer key is cast to the width of the table's key type
    before it reaches the store: a key within the range of the type is
    passed as it is, and two keys that differ by a multiple of
    [2 ^ bits] are one and the same key to [InsertRow]. *)
Theorem InsertRow_int_key_cast (table : Table) (iw : IntWidth) (key : Z)
    (w : World) :
  int_width (tbl_keyType table) = Some iw ->
  trace (fst (InsertRow table (VInt key) w))
  = EvExec (grngo_table_insert (tbl_obj table)
              (insert_int iw (int_cast iw key))) :: trace w
  /\ (in_range iw key -> int_cast iw key = key)
  /\ (forall key', (key - key') mod 2 ^ int_bits iw = 0 ->
                   InsertRow table (VInt key') w
                   = InsertRow table (VInt key) w).
Proof.
  intros Hw. split; [|split].
  - simpl. unfold insertInt.
    destruct (tbl_keyType table); simpl in Hw; try discriminate;
      injection Hw as <-; apply insert_with_trace.
  - apply int_cast_in_range.
  - intros key' Hc. apply int_cast_congruent in Hc.
    simpl. unfold insertInt.
    destruct (tbl_keyType table); simpl in Hw; try discriminate;
      injection Hw as <-; now rewrite Hc.
Qed.

(** X6: an integer written to a scalar integer column is cast to the
    column's width and handed to the store: a value out of the range
    of the type is not refused but wrapped, a value within the range
    is passed as it is. *)
Theorem SetValue_int_cast (column : Column) (iw : IntWidth) (id value : Z)
    (w : World) :
  int_width (col_valueType column) = Some iw ->
  col_isVector column = false ->
  trace (fst (SetValue column id (VInt value) w))
  = EvExec (grngo_column_set (col_obj column) id
              (set_int iw (int_cast iw value))) :: trace w
  /\ in_range iw (int_cast iw value)
  /\ (in_range iw value -> int_cast iw value = value).
Proof.
  intros Hw Hv. split; [|split].
  - simpl. unfold setInt. rewrite Hv.
    destruct (col_valueType column); simpl in Hw; try discriminate;
      injection Hw as <-; apply set_with_trace.
  - unfold in_range.
    destruct iw; simpl; unfold wrap_signed, wrap_unsigned;
      match goal with
      | |- context [?a mod ?b] =>
          pose proof (Z.mod_pos_bound a b ltac:(lia)); lia
      end.
  - apply int_cast_in_range.
Qed.

(** ** Scalar values and the column's shape *)

(** X7: a scalar value reaches the store exactly when its shape is the
    column's: a scalar of another kind, or a scalar for a vector
    column, is refused with the world untouched; a matching one issues
    one native set call and nothing else. *)
Theorem SetValue_scalar_checked (column : Column) (id : Z) (value : Value)
    (kind : KeyKind) (w : World) :
  value_shape value = Some (false, kind) ->
  (shape_matches value column = false ->
   SetValue column id value w = (w, Err ValueTypeConflict))
  /\ (shape_matches value column = true ->
      exists v, trace (fst (SetValue column id value w))
                = EvExec (grngo_column_set (col_obj column) id v)
                  :: trace w).
Proof.
  intros Hshape. split.
  - now apply (SetValue_scalar_conflict column id value kind).
  - unfold shape_matches. rewrite Hshape.
    destruct value; simpl in Hshape; try discriminate;
      injection Hshape as <-; simpl;
      unfold setBool, setInt, setFloat, setGeoPoint, setText;
      destruct (col_valueType column); simpl;
      destruct (col_isVector column); simpl;
      try discriminate; intros _; eexists; apply set_with_trace.
Qed.

(** ** The values read *)

Ltac split_ifs_in H :=
  repeat match type of H with
         | context [if ?b then _ else _] => destruct b eqn:?
         end.

(** X8: a read that returns a value returns one of the column's
    declared shape: a scalar for a scalar column, a vector for a vector
    column, of the kind of the column's value type. *)
Theorem GetValue_declared_shape (column : Column) (id : Z) (w : World)
    (v : Value) :
  snd (GetValue column id w) = Ok v ->
  exists kind,
    scalar_kind (col_valueType column) = Some kind
    /\ value_shape v = Some (col_isVector column, kind).
Proof.
  destruct column as [t obj name vt iv vtab].
  unfold GetValue; simpl.
  destruct vt, iv; simpl;
    unfold getBool, getInt, getFloat, getGeoPoint, getText, getBoolVector,
      getIntVector, getFloatVector, getGeoPointVector, getTextVector,
      bind, query, ret, throw, panic; simpl;
    intros H; split_ifs_in H; simpl in H; try discriminate;
    injection H as <-; eexists; split; reflexivity.
Qed.

(** X9: a text value, and an Int, Float or GeoPoint vector, that is
    read has exactly the length the first call reported, whatever the
    second call reports. *)
Theorem GetValue_length_as_probed (column : Column) (id : Z) (w : World)
    (v : Value) :
  direct_read column = true ->
  snd (GetValue column id w) = Ok v ->
  exists (probe : Event) (n : nat),
    probe ∈ trace (fst (GetValue column id w))
    /\ destination probe = Some 0%nat
    /\ reported probe (store w) = Some (true, n)
    /\ value_length v = Some n.
Proof.
  destruct column as [t obj name vt iv vtab].
  unfold direct_read, GetValue; simpl.
  destruct vt, iv; simpl; try discriminate; intros _;
    unfold getText, getIntVector, getFloatVector, getGeoPointVector,
      bind, query, ret, throw; simpl; intros H;
    match goal with
    | |- context [nquery ?q (store w)] =>
        match q with
        | context [text_zero] => exists (EvQuery q)
        | context [@vector_zero] => exists (EvQuery q)
        end;
        revert H;
        destruct (nquery q (store w)) as [[|] [ptr [|n]]] eqn:Hq
    end; simpl; intros H; try discriminate.
  all: try (injection H as <-; exists 0%nat; simpl; rewrite Hq;
            repeat split; try reflexivity; apply list_elem_of_here).
  all: split_ifs_in H; try discriminate; injection H as <-;
    exists (S n); simpl; rewrite Hq; simpl;
    (split; [apply list_elem_of_further, list_elem_of_here|]);
    (split; [reflexivity|]); (split; [reflexivity|]);
    f_equal; rewrite length_written; simpl;
    now rewrite length_replicate.
Qed.

(** ** Soundness of the table cache *)

Lemma grown_refl (w : World) : tables_wf w -> grown w w.
Proof.
  intros H. split; [exact H|]. split; [reflexivity|].
  split; [reflexivity|]. split; reflexivity.
Qed.

Lemma grown_trans (w0 w1 w2 : World) :
  grown w0 w1 -> grown w1 w2 -> grown w0 w2.
Proof.
  intros (_ & Hd1 & Hp1 & Hc1 & Hs1) (Hwf & Hd2 & Hp2 & Hc2 & Hs2).
  split; [exact Hwf|]. split; [etrans; eassumption|].
  split; [etrans; eassumption|]. split; congruence.
Qed.

Lemma grown_logged (w0 w : World) (tr : list Event) :
  grown w0 w ->
  grown w0 (mkWorld (store w) tr (db_tables w) (table_heap w)
                    (column_heap w)).
Proof. intros H. exact H. Qed.

Lemma reference_ok_grown (w0 w : World) (type : DataType)
    (ref : option tptr) :
  table_heap w0 `prefix_of` table_heap w ->
  reference_ok w0 type ref -> reference_ok w type ref.
Proof.
  intros Hp Hok p Hp'. destruct (Hok p Hp') as [Hv [t Ht]].
  split; [exact Hv|]. exists t. eapply prefix_lookup_Some; eassumption.
Qed.

Lemma reference_table_grown (find : string -> M tptr) (name : string)
    (info : grngo_type_info) (w : World) :
  (forall n w0, tables_wf w0 ->
     grown w0 (fst (find n w0))
     /\ (forall p, snd (find n w0) = Ok p ->
                   is_Some (table_heap (fst (find n w0)) !! p))) ->
  tables_wf w ->
  grown w (fst (reference_table find name info w))
  /\ (forall ref, snd (reference_table find name info w) = Ok ref ->
        reference_ok (fst (reference_table find name info w))
          (data_type info) ref).
Proof.
  intros Hfind Hwf. unfold reference_table.
  destruct (ref_table info) as [ref|].
  2: { split; [now apply grown_refl|]. intros r H. injection H as <-.
       intros p Hp. discriminate. }
  destruct (decide (data_type info = Void)) as [Hv|Hv].
  { split; [now apply grown_refl|]. discriminate. }
  rewrite bind_query.
  destruct (nquery (grngo_table_get_name ref) (store w)) as [n|].
  2: { split; [apply grown_logged; now apply grown_refl|]. discriminate. }
  match goal with
  | |- context [bind (find n) ?k ?w1] =>
      destruct (Hfind n w1 Hwf) as [Hg Hp];
      destruct (find n w1) as [w2 r] eqn:E;
      rewrite (bind_run _ _ _ _ _ E)
  end.
  simpl in Hg, Hp.
  assert (Hg' : grown w w2) by exact Hg.
  destruct r as [p|e| |]; simpl; (split; [exact Hg'|]); try discriminate.
  intros r H. injection H as <-. intros q Hq. injection Hq as <-.
  split; [exact Hv|]. now apply Hp.
Qed.

Lemma FindTable_grown (fuel : nat) :
  forall (name : string) (w : World),
    tables_wf w ->
    grown w (fst (FindTable fuel name w))
    /\ (forall p, snd (FindTable fuel name w) = Ok p ->
                  is_Some (table_heap (fst (FindTable fuel name w)) !! p)).
Proof.
  induction fuel as [|fuel IH]; intros name w Hwf.
  - simpl. split; [now apply grown_refl|discriminate].
  - rewrite FindTable_S.
    destruct (db_tables w !! name) as [q|] eqn:Hn.
    { split; [now apply grown_refl|]. intros p H. injection H as <-.
      destruct (proj1 Hwf name q Hn) as (t & Ht & _). now exists t. }
    rewrite bind_query.
    destruct (nquery (grngo_find_table name) (store w)) as [obj|].
    2: { split; [apply grown_logged; now apply grown_refl|discriminate]. }
    rewrite bind_query. cbn [store].
    destruct (nquery (grngo_table_get_key_info obj) (store w))
      as [kok kinfo].
    simpl fst; simpl snd.
    destruct kok; cbn [negb]; cbv iota.
    2: { split; [apply grown_logged; now apply grown_refl|discriminate]. }
    match goal with
    | |- context [bind (reference_table ?f ?nm ?i) ?k ?w1] =>
        destruct (reference_table_grown f nm i w1 IH Hwf) as [Hg1 Hk];
        destruct (reference_table f nm i w1) as [w2 rk] eqn:Ek;
        rewrite (bind_run _ _ _ _ _ Ek)
    end.
    simpl in Hg1, Hk.
    assert (Hg1' : grown w w2) by exact Hg1.
    destruct rk as [keyTable|e| |];
      try (split; [exact Hg1'|discriminate]).
    specialize (Hk keyTable eq_refl).
    rewrite bind_query. cbn [store].
    destruct (nquery (grngo_table_get_value_info obj) (store w2))
      as [vok vinfo].
    simpl fst; simpl snd.
    destruct vok; cbn [negb]; cbv iota.
    2: { split; [apply grown_logged; exact Hg1'|discriminate]. }
    match goal with
    | |- context [bind (reference_table ?f ?nm ?i) ?k ?w1] =>
        destruct (reference_table_grown f nm i w1 IH (proj1 Hg1'))
          as [Hg2 Hv];
        destruct (reference_table f nm i w1) as [w4 rv] eqn:Ev;
        rewrite (bind_run _ _ _ _ _ Ev)
    end.
    simpl in Hg2, Hv.
    assert (Hg2' : grown w2 w4) by exact Hg2.
    pose proof (grown_trans _ _ _ Hg1' Hg2') as Hg.
    destruct rv as [valueTable|e| |];
      try (split; [exact Hg|discriminate]).
    specialize (Hv valueTable eq_refl).
    unfold bind, newTable, alloc_table, cache_table, ret. simpl.
    destruct Hg as ((Hcache & Htables) & Hdb & Hprefix & Hcols & Hstore).
    assert (Hk4 : reference_ok w4 (data_type kinfo) keyTable)
      by (eapply reference_ok_grown; [apply Hg2'|exact Hk]).
    split.
    + split; [split|].
      * intros n p. simpl. destruct (decide (n = name)) as [->|Hne].
        -- rewrite lookup_insert_eq. intros H. injection H as <-.
           eexists. split; [apply list_lookup_middle; reflexivity|].
           reflexivity.
        -- rewrite lookup_insert_ne by congruence. intros H.
           destruct (Hcache n p H) as (t & Ht & Hname).
           exists t. split; [|exact Hname].
           now apply lookup_app_l_Some.
      * intros p t. simpl. intros Ht.
        assert (Hmono : forall type ref,
                  reference_ok w4 type ref ->
                  reference_ok
                    (mkWorld (store w4) (trace w4)
                       (<[name := length (table_heap w4)]> (db_tables w4))
                       (table_heap w4 ++
                        [mkTable obj name (data_type kinfo) keyTable
                           (data_type vinfo) valueTable ∅])
                       (column_heap w4)) type ref).
        { intros type ref Hok. eapply reference_ok_grown; [|exact Hok].
          simpl. now apply prefix_app_r. }
        apply lookup_app_Some in Ht as [Ht|[_ Ht]].
        -- destruct (Htables p t Ht) as [H1 H2].
           split; now apply Hmono.
        -- apply list_lookup_singleton_Some in Ht as [_ <-].
           split; simpl; now apply Hmono.
      * simpl. split; [|split; [|split; [exact Hcols|exact Hstore]]].
        -- apply map_subseteq_spec. intros m q Hm.
           destruct (decide (m = name)) as [->|Hne]; [congruence|].
           rewrite lookup_insert_ne by congruence.
           exact (lookup_weaken _ _ _ _ Hm Hdb).
        -- etrans; [exact Hprefix|]. now apply prefix_app_r.
    + intros p H. injection H as <-. simpl.
      eexists. apply list_lookup_middle. reflexivity.
Qed.

(** X10: [FindTable] keeps the table cache sound and only adds to it:
    after it, every name that was cached is cached with the pointer it
    had, every cached pointer points to a table of the name it is
    cached under, every reference table goes with a type other than
    [Void] and exists, the tables that were there are unchanged, and a
    returned pointer points to a table of the name asked for. *)
Theorem FindTable_keeps_cache_sound (fuel : nat) (name : string)
    (w : World) :
  tables_wf w ->
  grown w (fst (FindTable fuel name w))
  /\ (forall p, snd (FindTable fuel name w) = Ok p ->
        exists t, table_heap (fst (FindTable fuel name w)) !! p = Some t
                  /\ tbl_name t = name).
Proof.
  intros Hwf. destruct (FindTable_grown fuel name w Hwf) as [Hg _].
  split; [exact Hg|]. intros p H.
  destruct (FindTable fuel name w) as [w' r] eqn:E. simpl in *. subst r.
  apply FindTable_caches in E. exact (proj1 (proj1 Hg) name p E).
Qed.

(** ** Names of the data types *)

Lemma append_inj_l (s1 s2 suffix : string) :
  String.length s1 = String.length s2 ->
  (s1 ++ suffix)%string = (s2 ++ suffix)%string -> s1 = s2.
Proof.
  revert s2. induction s1 as [|c s1 IH]; intros [|c' s2] Hlen H;
    simpl in *; try discriminate; [reflexivity|].
  injection H as -> H. f_equal. apply IH; [lia|exact H].
Qed.

Lemma append_length (s1 s2 : string) :
  String.length (s1 ++ s2)%string
  = (String.length s1 + String.length s2)%nat.
Proof. induction s1; simpl; [reflexivity|]. now rewrite IHs1. Qed.

Lemma decimal_inj (n m : Z) :
  NilZero.string_of_int (Z.to_int n) = NilZero.string_of_int (Z.to_int m) ->
  n = m.
Proof.
  intros H.
  assert (Hnn : forall z, Z.to_int z <> Decimal.Pos Decimal.Nil
                          /\ Z.to_int z <> Decimal.Neg Decimal.Nil).
  { intros [|q|q]; simpl; split; try discriminate;
      intros Heq; injection Heq as Heq;
      now apply (DecimalPos.Unsigned.to_uint_nonnil q). }
  assert (Hi : Some (Z.to_int n) = Some (Z.to_int m)).
  { rewrite <- (NilZero.isi (Z.to_int n)) by apply Hnn.
    rewrite <- (NilZero.isi (Z.to_int m)) by apply Hnn.
    now rewrite H. }
  injection Hi as Hi.
  rewrite <- (DecimalZ.of_to n), <- (DecimalZ.of_to m). now rewrite Hi.
Qed.

(** X18: [String] tells all data types apart -- two types with the
    same name are the same type -- and the value types [CreateColumn]
    accepts by name are exactly the names of the named types other
    than [Void]. *)
Theorem DataType_String_injective :
  (forall a b : DataType, DataType_String a = DataType_String b -> a = b)
  /\ builtin_value_types = map DataType_String (tl named_types).
Proof.
  split; [|reflexivity].
  intros a b H.
  destruct a, b; simpl in H; try reflexivity; try discriminate.
  injection H as H. f_equal.
  apply decimal_inj.
  apply (append_inj_l _ _ ")"); [|exact H].
  apply (f_equal String.length) in H. rewrite !append_length in H.
  simpl in H. lia.
Qed.

(** ** Creation of tables and columns *)

(** X15: [CreateTable] with a key type that is neither one of the
    key types it knows by name nor a table that can be found sends
    nothing: it returns the unsupported-key-type error, and the only
    native calls are those of the failed lookup. *)
Theorem CreateTable_unknown_key_type (fuel : nat) (name : string)
    (options : TableOptions) (w : World) (e : error) :
  match opt_TableType options with TableType_other _ => False | _ => True end ->
  KeyType options <> EmptyString ->
  existsb (String.eqb (KeyType options)) builtin_key_types = false ->
  snd (FindTable fuel (KeyType options) w) = Err e ->
  CreateTable fuel name (Some options) w
  = (fst (FindTable fuel (KeyType options) w),
     Ok (inl (UnsupportedKeyTypeOption options))).
Proof.
  intros Htype Hkey Hbuiltin Hfind.
  unfold CreateTable, CreateTable_options.
  change (default NewTableOptions (Some options)) with options.
  apply String.eqb_neq in Hkey. rewrite Hkey, Hbuiltin.
  destruct (FindTable fuel (KeyType options) w) as [w1 r] eqn:E.
  simpl in Hfind. subst r. simpl fst.
  destruct (opt_TableType options); try contradiction;
    destruct (WithSIS options);
    unfold bind, attempt, ret; rewrite E; reflexivity.
Qed.

(** X16: a table that [CreateTable] returns, and a column that
    [CreateColumn] returns, is cached under its name: the next
    [FindTable], or [FindColumn], of that name returns the same pointer
    without a native call. *)
Theorem created_is_cached (fuel fuel' : nat) (name : string) (w : World) :
  (forall options p,
     snd (CreateTable fuel name options w) = Ok (inr p) ->
     FindTable (S fuel') name (fst (CreateTable fuel name options w))
     = (fst (CreateTable fuel name options w), Ok p))
  /\ (forall table valueType options c,
        snd (CreateColumn fuel table name valueType options w) = Ok c ->
        FindColumn fuel' table name
          (fst (CreateColumn fuel table name valueType options w))
        = (fst (CreateColumn fuel table name valueType options w), Ok c)).
Proof.
  split.
  - intros options p H.
    destruct (CreateTable fuel name options w) as [w' r] eqn:E.
    simpl in H. subst r. simpl fst. unfold CreateTable in E.
    invert_bind E. destruct a as [err|optionsMap];
      [unfold ret in E; discriminate|].
    invert_bind E.
    destruct (negb (String.eqb (string_of_list_byte a) "true"));
      [unfold ret in E; discriminate|].
    invert_bind E. unfold ret in E. injection E as <- <-.
    apply FindTable_caches in H1. now apply FindTable_cached.
  - intros table valueType options c H.
    destruct (CreateColumn fuel table name valueType options w)
      as [w' r] eqn:E.
    simpl in H. subst r. simpl fst. unfold CreateColumn in E.
    invert_bind E. invert_bind E. invert_bind E.
    destruct (negb (String.eqb (string_of_list_byte a1) "true"));
      [discriminate|].
    apply FindColumn_caches in E as (t & Ht & Hc).
    eapply FindColumn_cached; eassumption.
Qed.

(** ** The positional columns *)

(** X17: the columns [_id], [_key] and [_value] are resolved with the
    single native call that finds the column object: [_id] is a
    [UInt32] scalar, [_key] and [_value] take the type and the
    reference table the table itself has, and none is a vector. *)
Theorem findColumn_positional (fuel : nat) (table : tptr) (name : string)
    (t : Table) (obj : grn_obj) (type : DataType) (ref : option tptr)
    (w : World) :
  table_heap w !! table = Some t ->
  tbl_columns t !! name = None ->
  pseudo_column t name = Some (type, ref) ->
  nquery (grn_obj_column (tbl_obj t) name) (store w) = Some obj ->
  let run := findColumn fuel table name w in
  snd run = Ok (length (column_heap w))
  /\ trace (fst run) = EvQuery (grn_obj_column (tbl_obj t) name) :: trace w
  /\ column_heap (fst run)
     = (column_heap w ++ [mkColumn table obj name type false ref])%list.
Proof.
  intros Ht Hc Hp Hobj run. subst run. unfold findColumn.
  assert (Hat : table_at table w = (w, Ok t))
    by (unfold table_at; now rewrite Ht).
  rewrite (bind_run _ _ _ _ _ Hat), Hc, bind_query, Hobj.
  unfold pseudo_column in Hp.
  destruct (String.eqb name "_id");
    [|destruct (String.eqb name "_key");
      [|destruct (String.eqb name "_value"); [|discriminate]]];
    injection Hp as <- <-;
    unfold bind, ret, newColumn, alloc_column, cache_column; simpl;
    rewrite Ht; simpl; auto.
Qed.

(** ** Soundness of the column cache *)

Lemma tables_added_refl (w : World) : tables_added w w.
Proof.
  split; [reflexivity|]. split; [reflexivity|]. split; [reflexivity|].
  split; [|reflexivity]. intros p t H. now left.
Qed.

Lemma tables_added_trans (w0 w1 w2 : World) :
  tables_added w0 w1 -> tables_added w1 w2 -> tables_added w0 w2.
Proof.
  intros (Hs1 & Hc1 & Hp1 & Hn1 & Hd1) (Hs2 & Hc2 & Hp2 & Hn2 & Hd2).
  split; [congruence|]. split; [congruence|].
  split; [etrans; eassumption|]. split; [|etrans; eassumption].
  intros p t H. destruct (Hn2 p t H) as [H1|H1]; [|now right].
  exact (Hn1 p t H1).
Qed.

Lemma tables_added_logged (w0 w : World) (tr : list Event) :
  tables_added w0 w ->
  tables_added w0 (mkWorld (store w) tr (db_tables w) (table_heap w)
                           (column_heap w)).
Proof. intros H. exact H. Qed.

Lemma reference_table_tables_added (find : string -> M tptr) (name : string)
    (info : grngo_type_info) (w : World) :
  (forall n w0, tables_added w0 (fst (find n w0))) ->
  tables_added w (fst (reference_table find name info w)).
Proof.
  intros Hfind. unfold reference_table.
  destruct (ref_table info) as [ref|]; [|apply tables_added_refl].
  destruct (decide (data_type info = Void)) as [Hv|Hv];
    [apply tables_added_refl|].
  rewrite bind_query.
  destruct (nquery (grngo_table_get_name ref) (store w)) as [n|].
  2: { apply tables_added_logged, tables_added_refl. }
  match goal with
  | |- context [bind (find n) ?k ?w1] =>
      pose proof (Hfind n w1) as Hg;
      destruct (find n w1) as [w2 r] eqn:E;
      rewrite (bind_run _ _ _ _ _ E)
  end.
  simpl in Hg.
  assert (Hg' : tables_added w w2) by exact Hg.
  destruct r; exact Hg'.
Qed.

Lemma FindTable_tables_added (fuel : nat) :
  forall (name : string) (w : World),
    tables_added w (fst (FindTable fuel name w)).
Proof.
  induction fuel as [|fuel IH]; intros name w.
  - apply tables_added_refl.
  - rewrite FindTable_S.
    destruct (db_tables w !! name) as [q|] eqn:Hn;
      [apply tables_added_refl|].
    rewrite bind_query.
    destruct (nquery (grngo_find_table name) (store w)) as [obj|].
    2: { apply tables_added_logged, tables_added_refl. }
    rewrite bind_query. cbn [store].
    destruct (nquery (grngo_table_get_key_info obj) (store w))
      as [kok kinfo].
    simpl fst; simpl snd.
    destruct kok; cbn [negb]; cbv iota.
    2: { apply tables_added_logged, tables_added_refl. }
    match goal with
    | |- context [bind (reference_table ?f ?nm ?i) ?k ?w1] =>
        pose proof (reference_table_tables_added f nm i w1 IH) as Hg1;
        destruct (reference_table f nm i w1) as [w2 rk] eqn:Ek;
        rewrite (bind_run _ _ _ _ _ Ek)
    end.
    simpl in Hg1.
    assert (Hg1' : tables_added w w2) by exact Hg1.
    destruct rk as [keyTable|e| |]; try exact Hg1'.
    rewrite bind_query. cbn [store].
    destruct (nquery (grngo_table_get_value_info obj) (store w2))
      as [vok vinfo].
    simpl fst; simpl snd.
    destruct vok; cbn [negb]; cbv iota.
    2: { apply tables_added_logged. exact Hg1'. }
    match goal with
    | |- context [bind (reference_table ?f ?nm ?i) ?k ?w1] =>
        pose proof (reference_table_tables_added f nm i w1 IH) as Hg2;
        destruct (reference_table f nm i w1) as [w4 rv] eqn:Ev;
        rewrite (bind_run _ _ _ _ _ Ev)
    end.
    simpl in Hg2.
    assert (Hg2' : tables_added w2 w4) by exact Hg2.
    pose proof (tables_added_trans _ _ _ Hg1' Hg2') as Hg.
    destruct rv as [valueTable|e| |]; try exact Hg.
    unfold bind, newTable, alloc_table, cache_table, ret. simpl.
    destruct Hg as (Hs & Hc & Hp & Hnew & Hdb).
    split; [exact Hs|]. split; [exact Hc|]. simpl.
    split; [etrans; [exact Hp|]; now apply prefix_app_r|]. split.
    + intros p t Ht. apply lookup_app_Some in Ht as [Ht|[_ Ht]];
        [exact (Hnew p t Ht)|].
      apply list_lookup_singleton_Some in Ht as [_ <-]. now right.
    + (* the name was not cached when the call began *)
      apply map_subseteq_spec. intros m q Hm.
      destruct (decide (m = name)) as [->|Hne]; [congruence|].
      rewrite lookup_insert_ne by congruence.
      exact (lookup_weaken _ _ _ _ Hm Hdb).
Qed.

Lemma more_columns_refl (t : Table) : more_columns t t.
Proof. unfold more_columns. repeat split; reflexivity. Qed.

Lemma more_columns_trans (t0 t1 t2 : Table) :
  more_columns t0 t1 -> more_columns t1 t2 -> more_columns t0 t2.
Proof.
  intros (?&?&?&?&?&?&?) (?&?&?&?&?&?&?).
  repeat split; try congruence. etrans; eassumption.
Qed.

Lemma sound_extension_refl (fresh : string -> Prop) (w : World) :
  sound_extension fresh w w.
Proof.
  split; [exact (fun H => H)|]. split; [|split; [|reflexivity]].
  - split; [reflexivity|]. split; [reflexivity|].
    intros p t H. exists t. split; [exact H|apply more_columns_refl].
  - intros p t0 t n H0 H1 _. congruence.
Qed.

Lemma sound_extension_trans (fresh : string -> Prop) (w0 w1 w2 : World) :
  sound_extension fresh w0 w1 -> sound_extension fresh w1 w2 ->
  sound_extension fresh w0 w2.
Proof.
  intros (Hwf1 & (Hs1 & Hc1 & Ht1) & Hn1 & Hd1)
         (Hwf2 & (Hs2 & Hc2 & Ht2) & Hn2 & Hd2).
  split; [auto|]. split; [|split; [|etrans; eassumption]].
  - split; [congruence|]. split; [etrans; eassumption|].
    intros p t0 H0. destruct (Ht1 p t0 H0) as (t1 & H1 & Hm1).
    destruct (Ht2 p t1 H1) as (t2 & H2 & Hm2).
    exists t2. split; [exact H2|]. eapply more_columns_trans; eassumption.
  - intros p t0 t2 n H0 H2 Hn.
    destruct (Ht1 p t0 H0) as (t1 & H1 & _).
    rewrite (Hn2 p t1 t2 n H1 H2 Hn). exact (Hn1 p t0 t1 n H0 H1 Hn).
Qed.

Lemma sound_extension_weaken (fresh fresh' : string -> Prop)
    (w0 w : World) :
  (forall n, fresh n -> fresh' n) ->
  sound_extension fresh w0 w -> sound_extension fresh' w0 w.
Proof.
  intros Hsub (Hwf & Hext & Hn & Hd).
  split; [exact Hwf|]. split; [exact Hext|]. split; [|exact Hd].
  intros p t0 t n H0 H1 Hf. apply (Hn p t0 t n H0 H1). auto.
Qed.

Lemma sound_extension_tables_added (fresh : string -> Prop)
    (w0 w : World) :
  tables_added w0 w -> sound_extension fresh w0 w.
Proof.
  intros (Hs & Hc & Hp & Hn & Hd). split; [|split; [|split; [|exact Hd]]].
  - intros Hwf p t name c Ht Hcol.
    destruct (Hn p t Ht) as [H0|He].
    + rewrite Hc. exact (Hwf p t name c H0 Hcol).
    + rewrite He, lookup_empty in Hcol. discriminate.
  - split; [exact Hs|]. split; [now rewrite Hc|].
    intros p t0 H0. exists t0. split; [|apply more_columns_refl].
    eapply prefix_lookup_Some; eassumption.
  - intros p t0 t n H0 H1 _.
    pose proof (prefix_lookup_Some _ _ _ _ H0 Hp) as H2. congruence.
Qed.

Lemma newColumn_sound (table : tptr) (obj : grn_obj) (name : string)
    (valueType : DataType) (isVector : bool) (valueTable : option tptr)
    (w : World) (t : Table) :
  table_heap w !! table = Some t ->
  tbl_columns t !! name = None ->
  sound_extension (fun n => n = name) w
    (fst ((column <- newColumn table obj name valueType isVector
                       valueTable ;;
           _ <- cache_column table name column ;;
           ret column) w)).
Proof.
  intros Ht Hc.
  unfold bind, newColumn, alloc_column, cache_column, ret. simpl.
  rewrite Ht. simpl.
  pose proof (lookup_lt_Some _ _ _ Ht) as Hlt.
  split; [|split; [|split; [|reflexivity]]].
  - intros Hwf p t' n c. simpl. intros Hp Hn.
    destruct (decide (p = table)) as [->|Hne].
    + rewrite list_lookup_insert_eq in Hp by exact Hlt.
      injection Hp as <-. simpl in Hn.
      destruct (decide (n = name)) as [->|Hnn].
      * rewrite lookup_insert_eq in Hn. injection Hn as <-.
        eexists. split; [apply list_lookup_middle; reflexivity|].
        split; reflexivity.
      * rewrite lookup_insert_ne in Hn by congruence.
        destruct (Hwf table t n c Ht Hn) as (col & Hcol & Hrest).
        exists col. split; [now apply lookup_app_l_Some|exact Hrest].
    + rewrite list_lookup_insert_ne in Hp by congruence.
      destruct (Hwf p t' n c Hp Hn) as (col & Hcol & Hrest).
      exists col. split; [now apply lookup_app_l_Some|exact Hrest].
  - split; [reflexivity|]. simpl. split; [now apply prefix_app_r|].
    intros p t0 H0. destruct (decide (p = table)) as [->|Hne].
    + rewrite list_lookup_insert_eq by exact Hlt.
      eexists. split; [reflexivity|].
      assert (Some t0 = Some t) as [= ->]
        by (etrans; [symmetry; exact H0|exact Ht]).
      repeat split. simpl. now apply insert_subseteq.
    + rewrite list_lookup_insert_ne by congruence.
      exists t0. split; [exact H0|apply more_columns_refl].
  - intros p t0 t' n H0. simpl. intros H1 Hn.
    destruct (decide (p = table)) as [->|Hne].
    + rewrite list_lookup_insert_eq in H1 by exact Hlt.
      injection H1 as <-. simpl.
      rewrite lookup_insert_ne by congruence.
      pose proof (eq_trans (eq_sym H0) Ht) as [= ->]. reflexivity.
    + rewrite list_lookup_insert_ne in H1 by congruence.
      pose proof (eq_trans (eq_sym H0) H1) as [= ->]. reflexivity.
Qed.

Lemma findColumn_sound (fuel : nat) (table : tptr) (name : string)
    (w : World) :
  sound_extension (fun n => n = name) w
    (fst (findColumn fuel table name w)).
Proof.
  unfold findColumn.
  destruct (table_heap w !! table) as [t|] eqn:Ht.
  2: { unfold bind, table_at. rewrite Ht. now apply sound_extension_refl. }
  assert (Hat : table_at table w = (w, Ok t))
    by (unfold table_at; now rewrite Ht).
  rewrite (bind_run _ _ _ _ _ Hat).
  destruct (tbl_columns t !! name) as [c|] eqn:Hc;
    [now apply sound_extension_refl|].
  rewrite bind_query.
  destruct (nquery (grn_obj_column (tbl_obj t) name) (store w)) as [obj|].
  2: { now apply (sound_extension_refl _ w). }
  match goal with
  | |- context [bind ?m ?k ?w1] =>
      assert (Hinfo : tables_added w (fst (m w1)));
      [|destruct (m w1) as [w3 r] eqn:E; rewrite (bind_run _ _ _ _ _ E)]
  end.
  { destruct (String.eqb name "_id"); [exact (tables_added_refl w)|].
    destruct (String.eqb name "_key"); [exact (tables_added_refl w)|].
    destruct (String.eqb name "_value"); [exact (tables_added_refl w)|].
    rewrite bind_query. cbn [store].
    destruct (nquery (grngo_column_get_value_info obj) (store w))
      as [vok vinfo].
    simpl fst; simpl snd.
    destruct vok; cbn [negb]; cbv iota; [|exact (tables_added_refl w)].
    match goal with
    | |- context [bind (reference_table ?f ?nm ?i) ?k ?w1] =>
        pose proof (reference_table_tables_added f nm i w1
                      (FindTable_tables_added fuel)) as Hg;
        destruct (reference_table f nm i w1) as [w2 rv] eqn:Ev;
        rewrite (bind_run _ _ _ _ _ Ev)
    end.
    simpl in Hg. destruct rv; exact Hg. }
  simpl in Hinfo.
  pose proof (sound_extension_tables_added (fun n => n = name) w w3
                Hinfo) as Hstep.
  destruct r as [[[valueType isVector] valueTable]|e| |];
    try exact Hstep.
  eapply sound_extension_trans; [exact Hstep|].
  apply (newColumn_sound table obj name valueType isVector valueTable
           w3 t); [|exact Hc].
  destruct Hinfo as (_ & _ & Hp & _).
  eapply prefix_lookup_Some; eassumption.
Qed.

Lemma split_no_separator (sep : ascii) (s : string) :
  Forall (fun part => contains_byte sep part = false) (split sep s).
Proof.
  induction s as [|c s IH]; simpl.
  - repeat constructor.
  - destruct (Ascii.eqb c sep) eqn:Hc.
    + constructor; [reflexivity|exact IH].
    + destruct (split sep s) as [|h t].
      * repeat constructor. simpl. now rewrite Hc.
      * inversion IH as [|? ? Hh Ht]; subst.
        constructor; [|exact Ht]. simpl. now rewrite Hc.
Qed.

Lemma FindColumn_loop_sound (fuel : nat) (columnNames : list string) :
  forall (column : Column) (isVector : bool) (w : World),
    sound_extension (fun n => n ∈ columnNames) w
      (fst (FindColumn_loop fuel columnNames column isVector w)).
Proof.
  induction columnNames as [|columnName rest IH];
    intros column isVector w; simpl.
  - now apply sound_extension_refl.
  - destruct (col_valueTable column) as [vt|];
      [|now apply sound_extension_refl].
    pose proof (findColumn_sound fuel vt columnName w) as Hstep.
    apply (sound_extension_weaken _ (fun n => n ∈ columnName :: rest))
      in Hstep; [|intros n ->; apply list_elem_of_here].
    destruct (findColumn fuel vt columnName w) as [w1 r] eqn:E.
    rewrite (bind_run _ _ _ _ _ E). simpl in Hstep.
    destruct r as [p|e| |]; try exact Hstep.
    unfold column_at at 1.
    unfold bind at 1.
    destruct (column_heap w1 !! p) as [column'|]; [|exact Hstep].
    assert (Hrest : forall iv,
              sound_extension (fun n => n ∈ columnName :: rest) w
                (fst (FindColumn_loop fuel rest column' iv w1))).
    { intros iv. eapply sound_extension_trans; [exact Hstep|].
      eapply sound_extension_weaken; [|apply IH].
      intros n Hn. now apply list_elem_of_further. }
    destruct (col_isVector column'); [destruct isVector|];
      [exact Hstep|apply Hrest|apply Hrest].
Qed.

Lemma FindColumn_sound (fuel : nat) (table : tptr) (name : string)
    (w : World) :
  sound_extension (fun n => n = name \/ n ∈ split dot name) w
    (fst (FindColumn fuel table name w)).
Proof.
  unfold FindColumn.
  destruct (table_heap w !! table) as [t|] eqn:Ht.
  2: { unfold bind, table_at. rewrite Ht. now apply sound_extension_refl. }
  assert (Hat : table_at table w = (w, Ok t))
    by (unfold table_at; now rewrite Ht).
  rewrite (bind_run _ _ _ _ _ Hat).
  destruct (tbl_columns t !! name) as [c|] eqn:Hc;
    [now apply sound_extension_refl|].
  destruct (contains_byte dot name) eqn:Hdot; cbn [negb]; cbv iota.
  2: { eapply sound_extension_weaken; [|apply findColumn_sound].
       intros n ->. now left. }
  pose proof (split_no_separator dot name) as Hparts.
  assert (Hname : ~ name ∈ split dot name).
  { intros Hin. rewrite Forall_forall in Hparts.
    specialize (Hparts name Hin). congruence. }
  destruct (split dot name) as [|first rest] eqn:Hsplit; simpl hd; simpl tl.
  - (* [strings.Split] never returns an empty slice *)
    destruct name as [|c s]; simpl in Hsplit; [discriminate|].
    destruct (Ascii.eqb c dot); [discriminate|].
    destruct (split dot s); discriminate.
  - pose proof (findColumn_sound fuel table first w) as Hstep.
    apply (sound_extension_weaken _ (fun n => n ∈ first :: rest))
      in Hstep; [|intros n ->; apply list_elem_of_here].
    destruct (findColumn fuel table first w) as [w1 r] eqn:E.
    rewrite (bind_run _ _ _ _ _ E). simpl in Hstep.
    assert (Hweak : forall w', sound_extension (fun n => n ∈ first :: rest)
                                 w w' ->
              sound_extension
                (fun n => n = name \/ n ∈ first :: rest) w w').
    { intros w'. apply sound_extension_weaken. intros n Hn. now right. }
    destruct r as [p|e| |]; try (apply Hweak; exact Hstep).
    unfold column_at at 1.
    unfold bind at 1.
    destruct (column_heap w1 !! p) as [column|];
      [|apply Hweak; exact Hstep].
    pose proof (FindColumn_loop_sound fuel rest column
                  (col_isVector column) w1) as Hloop.
    apply (sound_extension_weaken _ (fun n => n ∈ first :: rest))
      in Hloop; [|intros n Hn; now apply list_elem_of_further].
    pose proof (sound_extension_trans _ _ _ _ Hstep Hloop) as Hwalk.
    destruct (FindColumn_loop fuel rest column (col_isVector column) w1)
      as [w2 r] eqn:El.
    rewrite (bind_run _ _ _ _ _ El). simpl in Hwalk.
    destruct r as [[column' isVector]|e| |];
      try (apply Hweak; exact Hwalk).
    rewrite bind_query.
    destruct (nquery (grn_obj_column (tbl_obj t) name) (store w2))
      as [obj|]; [|apply Hweak; exact Hwalk].
    pose proof Hwalk as (_ & Hext2 & Honly2 & _).
    destruct (proj2 (proj2 Hext2) table t Ht) as (t2 & Ht2 & _).
    pose proof (Honly2 table t t2 name Ht Ht2 Hname) as Hc2.
    rewrite Hc in Hc2.
    eapply sound_extension_trans; [apply Hweak; exact Hwalk|].
    apply (sound_extension_weaken (fun n => n = name));
      [intros n ->; now left|].
    exact (newColumn_sound table obj name (col_valueType column')
             isVector (col_valueTable column)
             (mkWorld (store w2)
                (EvQuery (grn_obj_column (tbl_obj t) name) :: trace w2)
                (db_tables w2) (table_heap w2) (column_heap w2))
             t2 Ht2 Hc2).
Qed.

(** X19: [FindColumn] keeps the column cache sound and loses nothing:
    after it, every cached column pointer of every table points to a
    column of that table and of the name it is cached under; the
    columns that existed are unchanged and every table keeps what it
    had cached; the engine state is untouched; no name other than the
    one asked for and the segments of a dotted name is cached; and a
    returned pointer points to a column of this table and this name. *)
Theorem FindColumn_keeps_cache_sound (fuel : nat) (table : tptr)
    (name : string) (w : World) :
  columns_wf w ->
  let run := FindColumn fuel table name w in
  columns_wf (fst run)
  /\ extended w (fst run)
  /\ cached_only (fun n => n = name \/ n ∈ split dot name) w (fst run)
  /\ (forall c, snd run = Ok c ->
        exists column,
          column_heap (fst run) !! c = Some column
          /\ col_table column = table /\ col_name column = name).
Proof.
  intros Hwf run.
  destruct (FindColumn_sound fuel table name w) as (Hwf' & Hext & Ho & _).
  specialize (Hwf' Hwf).
  split; [exact Hwf'|]. split; [exact Hext|]. split; [exact Ho|].
  intros c Hrun. subst run.
  destruct (FindColumn fuel table name w) as [w' r] eqn:E.
  simpl in *. subst r.
  apply FindColumn_caches in E as (t & Ht & Hc).
  exact (Hwf' table t name c Ht Hc).
Qed.

(** ** Refusals *)

(** X20: [CreateColumn] checks before it sends: with a value type
    that is neither a built-in name nor a table that is found, or with
    an undefined column type or compression type, it returns no column
    and leaves the world as the lookup of the value type left it -- no
    [column_create] is sent. *)
Theorem CreateColumn_refuses_before_sending (fuel : nat) (table : tptr)
    (name valueType : string) (options : ColumnOptions)
    (w : World) (t : Table) :
  table_heap w !! table = Some t ->
  column_refused fuel valueType options w ->
  let run := CreateColumn fuel table name valueType (Some options) w in
  fst run = value_type_checked fuel valueType w
  /\ forall c, snd run <> Ok c.
Proof.
  intros Ht Href run. subst run.
  unfold CreateColumn.
  assert (Hat : table_at table w = (w, Ok t))
    by (unfold table_at; now rewrite Ht).
  rewrite (bind_run _ _ _ _ _ Hat).
  change (default NewColumnOptions (Some options)) with options.
  unfold CreateColumn_options, value_type_checked, column_refused in *.
  unfold bind, attempt, ret, throw.
  destruct (existsb (String.eqb valueType) builtin_value_types).
  - destruct Href as [[Hb _]|Href]; [discriminate|].
    destruct (opt_ColumnType options) eqn:Ect;
      try (destruct (opt_CompressionType options) eqn:Ecp);
      try (split; [reflexivity|discriminate]);
      destruct Href as [[k Hk]|[k Hk]]; discriminate.
  - destruct (FindTable fuel valueType w) as [w1 [p|e| |]];
      try (split; [reflexivity|discriminate]).
    destruct Href as [[_ Hp]|Href]; [now destruct (Hp p)|].
    destruct (opt_ColumnType options) eqn:Ect;
      try (destruct (opt_CompressionType options) eqn:Ecp);
      try (split; [reflexivity|discriminate]);
      destruct Href as [[k Hk]|[k Hk]]; discriminate.
Qed.

Lemma SendEx_refusal (name : string) (options : gmap string string)
    (w : World) :
  name = EmptyString \/ is_Some (options !! EmptyString) ->
  SendEx name options w
  = (w, Err (if String.eqb name EmptyString
             then InvalidCommand EmptyString
             else InvalidOption EmptyString)).
Proof.
  intros H. unfold SendEx.
  destruct (String.eqb name EmptyString) eqn:E.
  - apply String.eqb_eq in E. subst name. reflexivity.
  - destruct H as [->|[value Hkey]]; [discriminate|].
    rewrite no_rune_rejected. unfold bind.
    rewrite (SendEx_options_empty_key _ value); [reflexivity|].
    now apply elem_of_map_to_list.
Qed.

(** X21: [QueryEx] receives although nothing was sent: when [SendEx]
    refuses the empty command name or an empty option key, the one
    native call made is [grn_ctx_recv], and the error returned is the
    refusal, whatever the receive answers. *)
Theorem QueryEx_receives_after_refusal (name : string)
    (options : gmap string string) (w : World) :
  name = EmptyString \/ is_Some (options !! EmptyString) ->
  trace (fst (QueryEx name options w)) = EvExec grn_ctx_recv :: trace w
  /\ snd (QueryEx name options w)
     = Err (if String.eqb name EmptyString
            then InvalidCommand EmptyString
            else InvalidOption EmptyString).
Proof.
  intros H. unfold QueryEx, bind, attempt.
  rewrite (SendEx_refusal name options w H).
  pose proof (Recv_trace w) as Htrace.
  pose proof (Recv_returns w) as Hret.
  destruct (Recv w) as [w1 r]. simpl in *.
  destruct Hret as [[b ->]|[e ->]]; simpl; auto.
Qed.

(** ** The caches over the life of the handle *)

Lemma quiet_ret {A} (a : A) : quiet (ret a).
Proof. intros w. repeat split. Qed.

Lemma quiet_throw {A} (e : error) : quiet (@throw _ A e).
Proof. intros w. repeat split. Qed.

Lemma quiet_panic {A} : quiet (@panic _ A).
Proof. intros w. repeat split. Qed.

Lemma quiet_out_of_fuel {A} : quiet (@out_of_fuel _ A).
Proof. intros w. repeat split. Qed.

Lemma quiet_table_at (p : tptr) : quiet (table_at p).
Proof.
  intros w. unfold table_at. destruct (table_heap w !! p); repeat split.
Qed.

Lemma quiet_query {R} (q : NativeQuery R) : quiet (query q).
Proof. intros w. repeat split. Qed.

Lemma quiet_exec {R} (c : NativeCommand R) : quiet (exec c).
Proof.
  intros w. unfold exec. destruct (nexec c (store w)). repeat split.
Qed.

Lemma quiet_bind {A B} (m : M A) (k : A -> M B) :
  quiet m -> (forall a, quiet (k a)) -> quiet (bind m k).
Proof.
  intros Hm Hk w. unfold bind. specialize (Hm w).
  destruct (m w) as [w1 [a|e| |]]; simpl in *; try exact Hm.
  destruct (Hk a w1) as (H1 & H2 & H3). destruct Hm as (H4 & H5 & H6).
  repeat split; congruence.
Qed.

Lemma quiet_attempt {A} (m : M A) : quiet m -> quiet (attempt m).
Proof.
  intros Hm w. unfold attempt. specialize (Hm w).
  destruct (m w) as [w1 [a|e| |]]; exact Hm.
Qed.

Ltac quiet_step :=
  first
    [ apply quiet_ret | apply quiet_throw | apply quiet_panic
    | apply quiet_query | apply quiet_exec
    | apply quiet_attempt
    | apply quiet_bind; [|intros ?]
    | match goal with
      | |- quiet (if ?b then _ else _) => destruct b
      | |- quiet (match ?x with _ => _ end) => destruct x
      end ].

Ltac solve_quiet := repeat (cbv zeta; quiet_step).

Lemma Send_quiet (command : string) : quiet (Send command).
Proof. unfold Send. solve_quiet. Qed.

Lemma SendEx_options_quiet (options : list (string * string)) :
  forall commandParts, quiet (SendEx_options options commandParts).
Proof.
  induction options as [|[key value] options IH]; intros commandParts;
    simpl; [apply quiet_ret|].
  destruct (String.eqb key EmptyString); [apply quiet_throw|].
  destruct (existsb rune_rejected (runes key)); [apply quiet_throw|].
  apply IH.
Qed.

Lemma SendEx_quiet (name : string) (options : gmap string string) :
  quiet (SendEx name options).
Proof.
  unfold SendEx.
  destruct (String.eqb name EmptyString); [apply quiet_throw|].
  destruct (existsb rune_rejected (runes name)); [apply quiet_throw|].
  apply quiet_bind; [apply SendEx_options_quiet|intros ?; apply Send_quiet].
Qed.

Lemma Recv_quiet : quiet Recv.
Proof. unfold Recv. solve_quiet. Qed.

Lemma Query_quiet (command : string) : quiet (Query command).
Proof.
  unfold Query. apply quiet_bind; [apply quiet_attempt, Send_quiet|].
  intros [u|e| |]; try apply Recv_quiet.
  apply quiet_bind; [apply quiet_attempt, Recv_quiet|intros ?].
  apply quiet_throw.
Qed.

Lemma QueryEx_quiet (name : string) (options : gmap string string) :
  quiet (QueryEx name options).
Proof.
  unfold QueryEx. apply quiet_bind; [apply quiet_attempt, SendEx_quiet|].
  intros [u|e| |]; try apply Recv_quiet.
  apply quiet_bind; [apply quiet_attempt, Recv_quiet|intros ?].
  apply quiet_throw.
Qed.

Lemma set_with_quiet fn column id value : quiet (set_with fn column id value).
Proof. unfold set_with. solve_quiet. Qed.

Lemma SetValue_quiet (column : Column) (id : Z) (value : Value) :
  quiet (SetValue column id value).
Proof.
  unfold SetValue, setBool, setInt, setFloat, setGeoPoint, setText,
    setBoolVector, setIntVector, setFloatVector, setGeoPointVector,
    setTextVector.
  destruct value; cbv zeta;
    repeat first
      [ apply set_with_quiet | apply quiet_throw | apply quiet_panic
      | match goal with
        | |- quiet (if ?b then _ else _) => destruct b
        | |- quiet (match ?x with _ => _ end) => destruct x
        end ].
Qed.

Lemma GetValue_quiet (column : Column) (id : Z) : quiet (GetValue column id).
Proof.
  unfold GetValue.
  destruct (negb (col_isVector column)); destruct (col_valueType column);
    try apply quiet_throw;
    unfold getBool, getInt, getFloat, getGeoPoint, getText, getBoolVector,
      getIntVector, getFloatVector, getGeoPointVector, getTextVector;
    solve_quiet.
Qed.

Lemma InsertRow_quiet (table : Table) (key : Value) (w : World) :
  db_tables (fst (InsertRow table key w)) = db_tables w
  /\ table_heap (fst (InsertRow table key w)) = table_heap w
  /\ column_heap (fst (InsertRow table key w)) = column_heap w.
Proof.
  assert (H : forall fn k,
            db_tables (fst (insert_with fn table k w)) = db_tables w
            /\ table_heap (fst (insert_with fn table k w)) = table_heap w
            /\ column_heap (fst (insert_with fn table k w))
               = column_heap w).
  { intros fn k. unfold insert_with, run_insert.
    destruct (nexec _ _) as [s rowInfo]; simpl.
    destruct (row_id rowInfo =? GRN_ID_NIL); repeat split. }
  unfold InsertRow, insertVoid, insertBool, insertInt, insertFloat,
    insertGeoPoint, insertText, key_type_conflict.
  destruct key; try (repeat split; fail);
    repeat match goal with
           | |- context [if ?b then _ else _] => destruct b
           | |- context [match tbl_keyType table with _ => _ end] =>
               destruct (tbl_keyType table)
           end;
    try apply H; repeat split.
Qed.

(** ** What is cached stays cached *)

Lemma cache_kept_refl (w : World) : cache_kept w w.
Proof.
  split; [reflexivity|]. intros p t H. exists t.
  split; [exact H|apply more_columns_refl].
Qed.

Lemma cache_kept_trans (w0 w1 w2 : World) :
  cache_kept w0 w1 -> cache_kept w1 w2 -> cache_kept w0 w2.
Proof.
  intros [Hd1 Ht1] [Hd2 Ht2]. split; [etrans; eassumption|].
  intros p t0 H0. destruct (Ht1 p t0 H0) as (t1 & H1 & Hm1).
  destruct (Ht2 p t1 H1) as (t2 & H2 & Hm2).
  exists t2. split; [exact H2|]. eapply more_columns_trans; eassumption.
Qed.

Lemma cache_kept_same (w0 w : World) :
  db_tables w = db_tables w0 /\ table_heap w = table_heap w0
  /\ column_heap w = column_heap w0 ->
  cache_kept w0 w.
Proof.
  intros (Hd & Ht & _). split; [now rewrite Hd|].
  intros p t H. exists t. rewrite Ht.
  split; [exact H|apply more_columns_refl].
Qed.

Lemma keeps_quiet {A} (m : M A) : quiet m -> keeps m.
Proof. intros H w. apply cache_kept_same, H. Qed.

Lemma keeps_bind {A B} (m : M A) (k : A -> M B) :
  keeps m -> (forall a, keeps (k a)) -> keeps (bind m k).
Proof.
  intros Hm Hk w. unfold bind. specialize (Hm w).
  destruct (m w) as [w1 [a|e| |]]; simpl in *; try exact Hm.
  eapply cache_kept_trans; [exact Hm|apply Hk].
Qed.

Lemma keeps_attempt {A} (m : M A) : keeps m -> keeps (attempt m).
Proof.
  intros Hm w. unfold attempt. specialize (Hm w).
  destruct (m w) as [w1 [a|e| |]]; exact Hm.
Qed.

Lemma FindTable_keeps (fuel : nat) (name : string) :
  keeps (FindTable fuel name).
Proof.
  intros w.
  destruct (FindTable_tables_added fuel name w) as (_ & _ & Hp & _ & Hd).
  split; [exact Hd|]. intros p t H. exists t.
  split; [|apply more_columns_refl].
  eapply prefix_lookup_Some; eassumption.
Qed.

Lemma FindColumn_keeps (fuel : nat) (table : tptr) (name : string) :
  keeps (FindColumn fuel table name).
Proof.
  intros w.
  destruct (FindColumn_sound fuel table name w)
    as (_ & (_ & _ & Ht) & _ & Hd).
  split; [exact Hd|exact Ht].
Qed.

Lemma CreateColumn_keeps (fuel : nat) (table : tptr) (name : string)
    (valueType : string) (options : option ColumnOptions) :
  keeps (CreateColumn fuel table name valueType options).
Proof.
  unfold CreateColumn.
  apply keeps_bind; [apply keeps_quiet, quiet_table_at|].
  intros t. cbv zeta. apply keeps_bind.
  - unfold CreateColumn_options. cbv zeta.
    apply keeps_bind.
    { destruct (existsb _ _); [apply keeps_quiet, quiet_ret|].
      apply keeps_bind; [apply keeps_attempt, FindTable_keeps|].
      intros [p|e| |]; apply keeps_quiet; solve_quiet. }
    intros m1. apply keeps_quiet. solve_quiet.
  - intros optionsMap. apply keeps_bind; [apply keeps_quiet, QueryEx_quiet|].
    intros bytes. destruct (negb _); [apply keeps_quiet, quiet_throw|].
    apply FindColumn_keeps.
Qed.

Lemma CreateTable_keeps (fuel : nat) (name : string)
    (options : option TableOptions) :
  keeps (CreateTable fuel name options).
Proof.
  assert (Hcheck : forall (known : list string) (typeName : string)
                     (plain typed : gmap string string),
            keeps (if String.eqb typeName EmptyString
                   then ret (Some plain)
                   else if existsb (String.eqb typeName) known
                   then ret (Some typed)
                   else
                     found <- attempt (FindTable fuel typeName) ;;
                     match found with
                     | Ok _ => ret (Some typed)
                     | _ => ret None
                     end)).
  { intros known typeName plain typed.
    destruct (String.eqb typeName EmptyString);
      [apply keeps_quiet, quiet_ret|].
    destruct (existsb _ known); [apply keeps_quiet, quiet_ret|].
    apply keeps_bind; [apply keeps_attempt, FindTable_keeps|].
    intros [p|e| |]; apply keeps_quiet, quiet_ret. }
  unfold CreateTable. cbv zeta. apply keeps_bind.
  - unfold CreateTable_options. cbv zeta.
    destruct (opt_TableType (default NewTableOptions options));
      try (apply keeps_quiet, quiet_ret);
      (apply keeps_bind; [apply Hcheck|];
       intros [m1|]; [|apply keeps_quiet, quiet_ret];
       apply keeps_bind; [apply Hcheck|];
       intros [m2|]; apply keeps_quiet, quiet_ret).
  - intros [e|optionsMap]; [apply keeps_quiet, quiet_ret|].
    apply keeps_bind; [apply keeps_quiet, QueryEx_quiet|].
    intros bytes. destruct (negb _); [apply keeps_quiet, quiet_ret|].
    apply keeps_bind; [apply FindTable_keeps|].
    intros table. apply keeps_quiet, quiet_ret.
Qed.

Lemma handle_step_keeps (w w' : World) :
  handle_step w w' -> cache_kept w w'.
Proof.
  intros H. destruct H.
  - apply keeps_quiet, Send_quiet.
  - apply keeps_quiet, SendEx_quiet.
  - apply keeps_quiet, Recv_quiet.
  - apply keeps_quiet, Query_quiet.
  - apply keeps_quiet, QueryEx_quiet.
  - apply CreateTable_keeps.
  - apply FindTable_keeps.
  - unfold DB_InsertRow.
    apply keeps_bind; [apply keeps_attempt, FindTable_keeps|].
    intros [p|e| |];
      [|apply keeps_quiet, quiet_ret|apply keeps_quiet, quiet_panic
       |apply keeps_quiet, quiet_out_of_fuel].
    apply keeps_bind; [apply keeps_quiet, quiet_table_at|].
    intros t w0. apply cache_kept_same.
    pose proof (InsertRow_quiet t key w0) as Hq.
    destruct (InsertRow t key w0) as [w1 r]. exact Hq.
  - unfold DB_CreateColumn.
    apply keeps_bind; [apply FindTable_keeps|].
    intros table. apply CreateColumn_keeps.
  - unfold DB_FindColumn.
    apply keeps_bind; [apply FindTable_keeps|].
    intros table. apply FindColumn_keeps.
  - apply cache_kept_same, InsertRow_quiet.
  - apply CreateColumn_keeps.
  - apply FindColumn_keeps.
  - apply keeps_quiet, SetValue_quiet.
  - apply keeps_quiet, GetValue_quiet.
Qed.

Lemma afterwards_keeps (w w' : World) :
  afterwards w w' -> cache_kept w w'.
Proof.
  induction 1 as [w|w w1 w2 Hstep _ IH]; [apply cache_kept_refl|].
  eapply cache_kept_trans; [|exact IH]. now apply handle_step_keeps.
Qed.

(** C8: a successful [FindTable] leaves the table in [db.tables] under
    its name before it returns, and every later [FindTable] of that
    name on the handle -- whatever calls were made on the handle, its
    tables and its columns in between -- returns the same pointer
    without touching the world; likewise a successful [FindColumn]
    leaves the column in the table's [columns] under its name, and
    every later [FindColumn] of that name on that table returns the
    same pointer. *)
Theorem cache_identity :
  (forall (fuel fuel' : nat) (name : string) (w w' w'' : World) (p : tptr),
     FindTable fuel name w = (w', Ok p) ->
     afterwards w' w'' ->
     db_tables w' !! name = Some p
     /\ FindTable (S fuel') name w'' = (w'', Ok p))
  /\ (forall (fuel fuel' : nat) (table : tptr) (name : string)
        (w w' w'' : World) (c : cptr),
        FindColumn fuel table name w = (w', Ok c) ->
        afterwards w' w'' ->
        (exists t, table_heap w' !! table = Some t
                   /\ tbl_columns t !! name = Some c)
        /\ FindColumn fuel' table name w'' = (w'', Ok c)).
Proof.
  split.
  - intros fuel fuel' name w w' w'' p H Hlater.
    apply FindTable_caches in H. split; [exact H|].
    apply FindTable_cached.
    apply afterwards_keeps in Hlater as [Hd _].
    exact (lookup_weaken _ _ _ _ H Hd).
  - intros fuel fuel' table name w w' w'' c H Hlater.
    apply FindColumn_caches in H. split; [exact H|].
    destruct H as (t & Ht & Hc).
    apply afterwards_keeps in Hlater as [_ Hkept].
    destruct (Hkept table t Ht) as (t' & Ht' & Hm).
    eapply FindColumn_cached; [exact Ht'|].
    exact (lookup_weaken _ _ _ _ Hc (proj2 (proj2 (proj2 (proj2 (proj2
             (proj2 Hm))))))).
Qed.

End MoreProperties.

(** * Initialisation counting *)

Section LifecycleProperties.
Context {LB : Library}.

Lemma Init_count (p : Process) :
  -1 <= initCount p -> -1 <= initCount (fst (Init p)).
Proof.
  unfold Init. intros H.
  destruct (initCount p =? -1) eqn:E1; [exact H|].
  destruct (initCount p =? 0) eqn:E0.
  - destruct (grn_init (engine p)) as [e rc].
    destruct (negb (rc =? rc_success)); simpl; lia.
  - simpl. lia.
Qed.

Lemma Fin_count (p : Process) :
  -1 <= initCount p -> -1 <= initCount (fst (Fin p)).
Proof.
  unfold Fin. intros H.
  destruct (initCount p =? -1) eqn:E1; [exact H|].
  destruct (initCount p =? 0) eqn:E0; [exact H|].
  apply Z.eqb_neq in E1, E0.
  destruct (initCount p =? 1) eqn:E2.
  - destruct (grn_fin (engine p)) as [e rc].
    destruct (negb (rc =? rc_success)); simpl; lia.
  - simpl. lia.
Qed.

(** X11: a successful [Init] followed by a successful [Fin] leaves the
    counter where it was; the library is initialised and finalised by
    the pair exactly when the counter was zero, and not touched
    otherwise. *)
Theorem Init_Fin_balanced (p p1 p2 : Process) :
  -1 <= initCount p ->
  Init p = (p1, None) ->
  Fin p1 = (p2, None) ->
  initCount p2 = initCount p
  /\ life_trace p2
     = ((if initCount p =? 0 then [call_grn_fin; call_grn_init] else [])
        ++ life_trace p)%list.
Proof.
  unfold Init, Fin. intros Hc.
  destruct (initCount p =? -1) eqn:E1.
  { intros H. injection H as <-. rewrite E1.
    intros H. injection H as <-.
    apply Z.eqb_eq in E1. rewrite E1. simpl. auto. }
  apply Z.eqb_neq in E1.
  destruct (initCount p =? 0) eqn:E0.
  - apply Z.eqb_eq in E0.
    destruct (grn_init (engine p)) as [e rc].
    destruct (negb (rc =? rc_success)); [discriminate|].
    intros H. injection H as <-. simpl. rewrite E0. simpl.
    destruct (grn_fin e) as [e' rc'].
    destruct (negb (rc' =? rc_success)); [discriminate|].
    intros H. injection H as <-. simpl. auto.
  - apply Z.eqb_neq in E0.
    intros H. injection H as <-. simpl.
    destruct (initCount p + 1 =? -1) eqn:E; [apply Z.eqb_eq in E; lia|].
    destruct (initCount p + 1 =? 0) eqn:E'; [apply Z.eqb_eq in E'; lia|].
    destruct (initCount p + 1 =? 1) eqn:E''; [apply Z.eqb_eq in E''; lia|].
    intros H. injection H as <-. simpl. split; [lia|reflexivity].
Qed.

Lemma Fin_live (p : Process) :
  2 <= initCount p ->
  Fin p = (mkProcess (initCount p - 1) (engine p) (life_trace p), None).
Proof.
  intros H. unfold Fin.
  destruct (initCount p =? -1) eqn:E1; [apply Z.eqb_eq in E1; lia|].
  destruct (initCount p =? 0) eqn:E0; [apply Z.eqb_eq in E0; lia|].
  destruct (initCount p =? 1) eqn:E2; [apply Z.eqb_eq in E2; lia|].
  reflexivity.
Qed.

Lemma Init_live (p : Process) :
  1 <= initCount p ->
  Init p = (mkProcess (initCount p + 1) (engine p) (life_trace p), None).
Proof.
  intros H. unfold Init.
  destruct (initCount p =? -1) eqn:E1; [apply Z.eqb_eq in E1; lia|].
  destruct (initCount p =? 0) eqn:E0; [apply Z.eqb_eq in E0; lia|].
  reflexivity.
Qed.

Lemma Init_disabled (p : Process) :
  initCount p = -1 -> Init p = (p, None).
Proof. intros H. unfold Init. now rewrite H. Qed.

Lemma Fin_disabled (p : Process) :
  initCount p = -1 -> Fin p = (p, None).
Proof. intros H. unfold Fin. now rewrite H. Qed.

(** X12: once the counting is disabled, creating, opening and closing
    a handle never calls [grn_init] or [grn_fin] and the counter stays
    at -1. *)
Theorem disabled_leaves_library_alone (p : Process) :
  initCount p = -1 ->
  (forall path,
     initCount (fst (CreateDB path p)) = -1
     /\ engine_calls (life_trace (fst (CreateDB path p)))
        = engine_calls (life_trace p))
  /\ (forall path,
        initCount (fst (OpenDB path p)) = -1
        /\ engine_calls (life_trace (fst (OpenDB path p)))
           = engine_calls (life_trace p))
  /\ (forall db,
        initCount (fst (Close db p)) = -1
        /\ engine_calls (life_trace (fst (Close db p)))
           = engine_calls (life_trace p)).
Proof.
  intros H.
  split; [|split].
  - intros path. unfold CreateDB, openCtx. rewrite (Init_disabled p H).
    destruct (grn_ctx_open (engine p)) as [e [ctx|]].
    + destruct (grn_db_create _ _ _) as [e' [obj|]]; simpl; [auto|].
      unfold closeCtx. simpl.
      destruct (grn_ctx_close ctx e') as [e'' rc].
      rewrite Fin_disabled by exact H. simpl.
      destruct (negb (rc =? rc_success)); simpl; auto.
    + simpl. rewrite Fin_disabled by exact H. simpl. auto.
  - intros path. unfold OpenDB, openCtx. rewrite (Init_disabled p H).
    destruct (grn_ctx_open (engine p)) as [e [ctx|]].
    + destruct (grn_db_open _ _ _) as [e' [obj|]]; simpl; [auto|].
      unfold closeCtx. simpl.
      destruct (grn_ctx_close ctx e') as [e'' rc].
      rewrite Fin_disabled by exact H. simpl.
      destruct (negb (rc =? rc_success)); simpl; auto.
    + simpl. rewrite Fin_disabled by exact H. simpl. auto.
  - intros db. unfold Close, closeCtx.
    destruct (grn_obj_close _ _ _) as [e rc]. simpl.
    destruct (grn_ctx_close _ e) as [e' rc'].
    rewrite Fin_disabled by exact H. simpl.
    destruct (negb (rc =? rc_success)); simpl;
      destruct (negb (rc' =? rc_success)); simpl; auto.
Qed.

(** X13: while the library is initialised, a handle holds exactly one
    count: [CreateDB] adds one when it succeeds and none when it
    fails, and [Close] gives one back whatever the library answers;
    neither calls [grn_init] or [grn_fin]. *)
Theorem handle_holds_one_count (p : Process) :
  (1 <= initCount p ->
   forall path,
     initCount (fst (CreateDB path p))
     = match snd (CreateDB path p) with
       | inr _ => initCount p + 1
       | inl _ => initCount p
       end
     /\ engine_calls (life_trace (fst (CreateDB path p)))
        = engine_calls (life_trace p))
  /\ (2 <= initCount p ->
      forall db,
        initCount (fst (Close db p)) = initCount p - 1
        /\ engine_calls (life_trace (fst (Close db p)))
           = engine_calls (life_trace p)).
Proof.
  split.
  - intros H path. unfold CreateDB, openCtx. rewrite (Init_live p H).
    destruct (grn_ctx_open _) as [e [ctx|]]; simpl.
    + destruct (grn_db_create _ _ _) as [e' [obj|]]; simpl; [auto|].
      unfold closeCtx. simpl.
      destruct (grn_ctx_close ctx e') as [e'' rc].
      rewrite Fin_live by (simpl; lia). simpl.
      destruct (negb (rc =? rc_success)); simpl; split;
        (lia || reflexivity).
    + rewrite Fin_live by (simpl; lia). simpl. split; [lia|reflexivity].
  - intros H db. unfold Close, closeCtx.
    destruct (grn_obj_close _ _ _) as [e rc]. simpl.
    destruct (grn_ctx_close _ e) as [e' rc'].
    rewrite Fin_live by (simpl; lia). simpl.
    destruct (negb (rc =? rc_success)); simpl;
      destruct (negb (rc' =? rc_success)); simpl; auto.
Qed.

(** X14: closing the last handle calls [grn_fin] after the object and
    the context are closed; when [grn_fin] fails, [Close] still
    reports success, and the counter stays at one. *)
Theorem Close_ignores_failed_fin (db : Handle) (p : Process) :
  initCount p = 1 ->
  let closed := grn_obj_close (db_ctx db) (db_obj db) (engine p) in
  let freed := grn_ctx_close (db_ctx db) (fst closed) in
  let final := grn_fin (fst freed) in
  snd closed = rc_success ->
  snd freed = rc_success ->
  snd final <> rc_success ->
  Close db p
  = (mkProcess 1 (fst final)
       (call_grn_fin :: call_grn_ctx_close (db_ctx db)
        :: call_grn_obj_close (db_ctx db) (db_obj db) :: life_trace p),
     None).
Proof.
  intros Hc closed freed final H1 H2 H3. subst closed freed final.
  unfold Close, closeCtx.
  destruct (grn_obj_close _ _ _) as [e rc]. simpl in *. subst rc.
  rewrite Z.eqb_refl. simpl.
  destruct (grn_ctx_close _ e) as [e' rc']. simpl in *. subst rc'.
  rewrite Z.eqb_refl. simpl.
  unfold Fin. simpl. rewrite Hc. simpl.
  destruct (grn_fin e') as [e'' rc'']. simpl in *.
  apply Z.eqb_neq in H3. rewrite H3. simpl. reflexivity.
Qed.

End LifecycleProperties.

(** * The further properties on the small engine *)

Section MoreExamples.

#[local] Existing Instance Demo.engine.

Lemma SendEx_command_line_witness :
  trace (fst (SendEx "select" {["table" := "it's"]} Demo.world0))
  = [EvExec (grn_ctx_send "select --table 'it\'s'")].
Proof.
  refine (eq_trans (SendEx_command_line "select" {["table" := "it's"]}
                      Demo.world0 _ _) _).
  - discriminate.
  - reflexivity.
  - vm_compute. reflexivity.
Defined.

Lemma SendEx_refuses_empty_witness :
  SendEx EmptyString ∅ Demo.world0
  = (Demo.world0, Err (InvalidCommand EmptyString))
  /\ SendEx "select" {[EmptyString := "x"]} Demo.world0
     = (Demo.world0, Err (InvalidOption EmptyString)).
Proof.
  split.
  - apply (proj1 (SendEx_refuses_empty EmptyString ∅ Demo.world0)).
    reflexivity.
  - apply (proj2 (SendEx_refuses_empty "select" {[EmptyString := "x"]}
                    Demo.world0)).
    + discriminate.
    + exists "x". reflexivity.
Defined.

Lemma InsertRow_int_key_cast_witness :
  InsertRow (mkTable 8%N "I" Int8 None Void None ∅) (VInt 1) Demo.world0
  = InsertRow (mkTable 8%N "I" Int8 None Void None ∅) (VInt 257)
      Demo.world0.
Proof.
  apply (proj2 (proj2 (InsertRow_int_key_cast
                         (mkTable 8%N "I" Int8 None Void None ∅) I8 257
                         Demo.world0 eq_refl))).
  reflexivity.
Defined.

Lemma SetValue_int_cast_witness :
  trace (fst (SetValue (mkColumn 0%nat 30%N "n" UInt8 false None) 1
                (VInt 300) Demo.world0))
  = [EvExec (grngo_column_set 30%N 1 (set_int U8 (int_cast U8 300)))].
Proof.
  apply (proj1 (SetValue_int_cast (mkColumn 0%nat 30%N "n" UInt8 false None)
                  U8 1 300 Demo.world0 eq_refl eq_refl)).
Defined.

Lemma SetValue_scalar_checked_witness :
  SetValue Demo.tagsColumn 1 (VBytes [x61]) Demo.world0
  = (Demo.world0, Err ValueTypeConflict)
  /\ exists v, trace (fst (SetValue Demo.nameColumn 1 (VBytes [x61])
                            Demo.world0))
               = [EvExec (grngo_column_set 23%N 1 v)].
Proof.
  split.
  - apply (proj1 (SetValue_scalar_checked Demo.tagsColumn 1 (VBytes [x61])
                    KindBytes Demo.world0 eq_refl)).
    reflexivity.
  - apply (proj2 (SetValue_scalar_checked Demo.nameColumn 1 (VBytes [x61])
                    KindBytes Demo.world0 eq_refl)).
    reflexivity.
Defined.

Lemma GetValue_declared_shape_witness :
  exists kind,
    scalar_kind (col_valueType Demo.tagsColumn) = Some kind
    /\ value_shape (VTextVector [[x61]; [x62; x63]])
       = Some (col_isVector Demo.tagsColumn, kind).
Proof.
  apply (GetValue_declared_shape Demo.tagsColumn 1 Demo.world0).
  vm_compute. reflexivity.
Defined.

Lemma GetValue_length_as_probed_witness :
  exists (probe : Event) (n : nat),
    probe ∈ trace (fst (GetValue Demo.nameColumn 1 Demo.world0))
    /\ destination probe = Some 0%nat
    /\ reported probe (store Demo.world0) = Some (true, n)
    /\ value_length (VBytes [x61; x62; x63]) = Some n.
Proof.
  apply (GetValue_length_as_probed Demo.nameColumn 1 Demo.world0).
  - reflexivity.
  - vm_compute. reflexivity.
Defined.

Lemma FindTable_keeps_cache_sound_witness :
  grown Demo.world0 (fst (FindTable 2 "E" Demo.world0))
  /\ forall p, snd (FindTable 2 "A" Demo.world0) = Ok p ->
       exists t, table_heap (fst (FindTable 2 "A" Demo.world0)) !! p = Some t
                 /\ tbl_name t = "A".
Proof.
  assert (Hwf : tables_wf Demo.world0).
  { split.
    - intros name p H. simpl in H. rewrite lookup_empty in H. discriminate.
    - intros p t H. simpl in H. rewrite lookup_nil in H. discriminate. }
  split.
  - apply (proj1 (FindTable_keeps_cache_sound 2 "E" Demo.world0 Hwf)).
  - apply (proj2 (FindTable_keeps_cache_sound 2 "A" Demo.world0 Hwf)).
Defined.

Lemma CreateTable_unknown_key_type_witness :
  CreateTable 2 "Words" (Some (mkTableOptions PatTable false "Text"
                                 EmptyString EmptyString EmptyString []))
    Demo.world0
  = (fst (FindTable 2 "Text" Demo.world0),
     Ok (inl (UnsupportedKeyTypeOption
                (mkTableOptions PatTable false "Text" EmptyString
                   EmptyString EmptyString [])))).
Proof.
  apply (CreateTable_unknown_key_type 2 "Words"
           (mkTableOptions PatTable false "Text" EmptyString EmptyString
              EmptyString [])
           Demo.world0 (TableNotFound "Text")).
  - exact I.
  - discriminate.
  - reflexivity.
  - reflexivity.
Defined.

Lemma created_is_cached_witness :
  (let w' := fst (CreateTable 2 "A" None Demo.world0) in
   FindTable 1 "A" w' = (w', Ok 0%nat))
  /\ (let w' := fst (CreateColumn 2 0%nat "r" "ShortText" None
                       (fst (FindTable 2 "A" Demo.world0))) in
      FindColumn 0 0%nat "r" w' = (w', Ok 0%nat)).
Proof.
  split.
  - apply (proj1 (created_is_cached 2 0 "A" Demo.world0) None 0%nat).
    vm_compute. reflexivity.
  - apply (proj2 (created_is_cached 2 0 "r"
                    (fst (FindTable 2 "A" Demo.world0)))
             0%nat "ShortText" None 0%nat).
    vm_compute. reflexivity.
Defined.

Lemma findColumn_positional_witness :
  let w := fst (@FindTable Demo2.engine 2 "A" Demo2.world0) in
  let run := @findColumn Demo2.engine 0 0%nat "_key" w in
  snd run = Ok 0%nat
  /\ trace (fst run) = EvQuery (grn_obj_column 1%N "_key") :: trace w
  /\ column_heap (fst run)
     = [mkColumn 0%nat 50%N "_key" ShortText false None].
Proof.
  refine (eq_ind _ (fun n => _ = Ok n /\ _) 
            (@findColumn_positional Demo2.engine 0 0%nat "_key"
               (mkTable 1%N "A" ShortText None Void None ∅) 50%N ShortText
               None (fst (@FindTable Demo2.engine 2 "A" Demo2.world0))
               _ _ _ _) _ _);
    vm_compute; reflexivity.
Defined.

Lemma FindColumn_keeps_cache_sound_witness :
  let run := FindColumn 2 0%nat "r.v" (fst (FindTable 2 "A" Demo.world0)) in
  columns_wf (fst run)
  /\ extended (fst (FindTable 2 "A" Demo.world0)) (fst run)
  /\ cached_only (fun n => n = "r.v" \/ n ∈ split dot "r.v")
       (fst (FindTable 2 "A" Demo.world0)) (fst run)
  /\ (forall c, snd run = Ok c ->
        exists column,
          column_heap (fst run) !! c = Some column
          /\ col_table column = 0%nat /\ col_name column = "r.v").
Proof.
  apply (FindColumn_keeps_cache_sound 2 0%nat "r.v"
           (fst (FindTable 2 "A" Demo.world0))).
  apply (sound_extension_tables_added (fun _ => True) Demo.world0).
  - apply FindTable_tables_added.
  - intros p t n c H. simpl in H. rewrite lookup_nil in H. discriminate.
Defined.

Lemma CreateColumn_refuses_before_sending_witness :
  let run := CreateColumn 2 0%nat "c" "Nope" (Some NewColumnOptions)
               (fst (FindTable 2 "A" Demo.world0)) in
  fst run = value_type_checked 2 "Nope" (fst (FindTable 2 "A" Demo.world0))
  /\ forall c, snd run <> Ok c.
Proof.
  apply (CreateColumn_refuses_before_sending 2 0%nat "c" "Nope"
           NewColumnOptions (fst (FindTable 2 "A" Demo.world0))
           Demo.tableA).
  - reflexivity.
  - left. split; [reflexivity|]. intros p. vm_compute. discriminate.
Defined.

Lemma QueryEx_receives_after_refusal_witness :
  trace (fst (QueryEx "select" {[EmptyString := "x"]} Demo.world0))
  = EvExec grn_ctx_recv :: trace Demo.world0
  /\ snd (QueryEx "select" {[EmptyString := "x"]} Demo.world0)
     = Err (if String.eqb "select" EmptyString
            then InvalidCommand EmptyString
            else InvalidOption EmptyString).
Proof.
  apply (QueryEx_receives_after_refusal "select" {[EmptyString := "x"]}
           Demo.world0).
  right. exists "x". reflexivity.
Defined.

Lemma cache_identity_witness :
  (let w' := fst (FindTable 2 "A" Demo.world0) in
   let w'' := fst (InsertRow Demo.tableA (VBytes [x61])
                     (fst (DB_FindColumn 2 "A" "r.v"
                             (fst (FindTable 2 "B" w')))))
   in
   db_tables w' !! "A" = Some 0%nat /\ FindTable 1 "A" w'' = (w'', Ok 0%nat))
  /\ (let w' := fst (Demo.resolve "r.v" Demo.world0) in
      let w'' := fst (FindColumn 2 0%nat "rs" (fst (FindTable 2 "Log" w')))
      in
      (exists t, table_heap w' !! 0%nat = Some t
                 /\ tbl_columns t !! "r.v" = Some 2%nat)
      /\ FindColumn 0%nat 0%nat "r.v" w'' = (w'', Ok 2%nat)).
Proof.
  split.
  - apply (proj1 cache_identity 2%nat 0%nat "A" Demo.world0).
    + vm_compute. reflexivity.
    + eapply rtc_l; [apply (step_FindTable 2 "B")|].
      eapply rtc_l; [apply (step_DB_FindColumn 2 "A" "r.v")|].
      eapply rtc_l; [apply (step_InsertRow Demo.tableA (VBytes [x61]))|].
      apply rtc_refl.
  - apply (proj2 cache_identity 2%nat 0%nat 0%nat "r.v"
             (fst (FindTable 2 "A" Demo.world0))).
    + vm_compute. reflexivity.
    + eapply rtc_l; [apply (step_FindTable 2 "Log")|].
      eapply rtc_l; [apply (step_FindColumn 2 0%nat "rs")|].
      apply rtc_refl.
Defined.

End MoreExamples.

(** * Broken tables *)

Section BrokenExamples.

#[local] Existing Instance Demo3.engine.

Lemma self_reference_never_returns (fuel : nat) :
  forall w : World,
    db_tables w !! "G" = None -> snd (FindTable fuel "G" w) = OutOfFuel.
Proof.
  induction fuel as [|fuel IH]; intros w Hc; [reflexivity|].
  rewrite FindTable_S, Hc, bind_query.
  change (nquery (grngo_find_table "G") (store w)) with (Some 8%N).
  cbv iota beta. rewrite bind_query. cbn [store].
  change (nquery (grngo_table_get_key_info 8%N) (store w))
    with (true, mkTypeInfo ShortText 0 (Some 8%N)).
  simpl fst; simpl snd; cbn [negb]; cbv iota.
  unfold reference_table at 1. simpl ref_table. cbv iota beta.
  rewrite decide_False by discriminate.
  match goal with
  | |- snd (bind ?m ?k ?w1) = _ =>
      assert (Hin : snd (m w1) = OutOfFuel);
      [|unfold bind at 1; destruct (m w1) as [w2 r]; simpl in Hin;
        subst r; reflexivity]
  end.
  rewrite bind_query. cbn [store].
  change (nquery (grngo_table_get_name 8%N) (store w)) with (Some "G").
  cbv iota beta.
  match goal with
  | |- context [bind (FindTable fuel "G") ?k ?w1] =>
      specialize (IH w1 Hc);
      destruct (FindTable fuel "G" w1) as [w2 r] eqn:E
  end.
  simpl in IH. subst r. unfold bind. rewrite E. reflexivity.
Qed.

(** C9, refuted as stated: the value descriptor of [F] is a reference
    to void, and [FindTable] does not answer with the reference-to-void
    error -- the key of [F] refers to a table that is not found, and
    that error is the one returned; for [G], whose key refers to [G]
    itself, no bound on the recursion is enough for an answer. *)
Lemma FindTable_broken_value_not_reported :
  refers_to_void (store Demo3.world0) "F" = true
  /\ (forall fuel, ~ reports_reference_to_void fuel "F" Demo3.world0)
  /\ (forall fuel, snd (FindTable (S (S fuel)) "F" Demo3.world0)
                   = Err (TableNotFound "Missing"))
  /\ refers_to_void (store Demo3.world0) "G" = true
  /\ (forall fuel, snd (FindTable fuel "G" Demo3.world0) = OutOfFuel).
Proof.
  split; [reflexivity|]. split; [|split; [|split; [reflexivity|]]].
  - intros [|[|fuel]] [H _]; vm_compute in H; discriminate.
  - intros fuel. vm_compute. reflexivity.
  - intros fuel. now apply self_reference_never_returns.
Qed.

Lemma FindTable_reference_to_void_witness :
  (forall p, snd (FindTable 3 "F" Demo3.world0) <> Ok p)
  /\ db_tables (fst (FindTable 3 "F" Demo3.world0)) !! "F" = None
  /\ snd (FindTable 1 "C" Demo3.world0) = Err (ReferenceToVoid "C")
  /\ snd (FindTable 3 "E" Demo3.world0) = Err (ReferenceToVoid "E")
  /\ snd (FindTable 3 "F" Demo3.world0)
     = match key_side 2 "F" Demo3.world0 with
       | Ok _ => Err (ReferenceToVoid "F")
       | Err e => Err e
       | Panic => Panic
       | OutOfFuel => OutOfFuel
       end.
Proof.
  split; [|split; [|split; [|split]]].
  - apply (proj1 (FindTable_reference_to_void 3 "F" Demo3.world0
                    eq_refl eq_refl)).
  - apply (proj1 (proj2 (FindTable_reference_to_void 3 "F" Demo3.world0
                           eq_refl eq_refl))).
  - apply (proj1 (proj2 (proj2 (FindTable_reference_to_void 0 "C"
                                  Demo3.world0 eq_refl eq_refl)))
             (true, mkTypeInfo Void 0 (Some 2%N))); reflexivity.
  - refine (eq_trans
              (proj2 (proj2 (proj2 (FindTable_reference_to_void 2 "E"
                                      Demo3.world0 eq_refl eq_refl)))
                 (true, mkTypeInfo Void 0 (Some 2%N)) eq_refl eq_refl) _).
    vm_compute. reflexivity.
  - apply (proj2 (proj2 (proj2 (FindTable_reference_to_void 2 "F"
                                  Demo3.world0 eq_refl eq_refl)))
             (true, mkTypeInfo Void 0 (Some 2%N))); reflexivity.
Defined.

End BrokenExamples.

Section LifecycleExamples.

#[local] Existing Instance DemoLibrary.library.

Lemma Init_Fin_balanced_witness :
  initCount (fst (Fin (fst (Init (DemoLibrary.start 0))))) = 0
  /\ life_trace (fst (Fin (fst (Init (DemoLibrary.start 0)))))
     = [call_grn_fin; call_grn_init].
Proof.
  apply (Init_Fin_balanced (DemoLibrary.start 0)
           (fst (Init (DemoLibrary.start 0)))
           (fst (Fin (fst (Init (DemoLibrary.start 0)))))).
  - simpl. lia.
  - reflexivity.
  - reflexivity.
Defined.

Lemma disabled_leaves_library_alone_witness :
  initCount (fst (CreateDB "db" (DisableInitCount (DemoLibrary.start 0))))
  = -1
  /\ engine_calls
       (life_trace (fst (CreateDB "db"
                           (DisableInitCount (DemoLibrary.start 0)))))
     = [].
Proof.
  apply (proj1 (disabled_leaves_library_alone
                  (DisableInitCount (DemoLibrary.start 0)) eq_refl)).
Defined.

Lemma handle_holds_one_count_witness :
  let p := fst (CreateDB "db" (DemoLibrary.start 0)) in
  initCount (fst (CreateDB "bad" p)) = 1
  /\ initCount (fst (CreateDB "other" p)) = 2
  /\ initCount (fst (Close (mkHandle 1%N 2%N)
                       (fst (CreateDB "other" p)))) = 1.
Proof.
  intros p. split; [|split].
  - apply (proj1 (proj1 (handle_holds_one_count p) ltac:(simpl; lia)
                    "bad")).
  - apply (proj1 (proj1 (handle_holds_one_count p) ltac:(simpl; lia)
                    "other")).
  - apply (proj1 (proj2 (handle_holds_one_count
                           (fst (CreateDB "other" p)))
                    ltac:(simpl; lia) (mkHandle 1%N 2%N))).
Defined.

Lemma Close_ignores_failed_fin_witness :
  Close (mkHandle 1%N 2%N) (DemoLibrary.at_count 1 7)
  = (mkProcess 1 (engine (DemoLibrary.at_count 1 7))
       [call_grn_fin; call_grn_ctx_close 1%N; call_grn_obj_close 1%N 2%N],
     None).
Proof.
  apply (Close_ignores_failed_fin (mkHandle 1%N 2%N)
           (DemoLibrary.at_count 1 7));
    simpl; (reflexivity || discriminate).
Defined.

End LifecycleExamples.
